(** * TIGRE: the iterative reconstruction engine [IterativeReconAlg]

    A shallow embedding of [Python/tigre/algorithms/iterative_recon_alg.py]
    and the properties its specification states about it.

    The engine is Python 2 code over NumPy.  The embedding keeps what the
    code has:
    - the instance dictionary [self.__dict__] is a finite map from attribute
      names to Python values;
    - arrays and the geometry object are mutable and live in a store, values
      hold references to them, so that [copy.deepcopy], in-place slice
      assignment and [self.res = init] alias exactly as in Python;
    - exceptions are an error result, and the state reached when one is
      raised is kept;
    - floating-point numbers are IEEE 754 values ([spec_float]) rounded to
      the array's format;
    - the collaborators that are imported from other files of the package
      ([Ax], [FDK], [init_multigrid], [order_subsets], [Measure_Quality],
      [im3DNORM], the methods inherited from [DataMinimization] and
      [Regularisation], [time.clock], [str]) are the fields of the class
      [Collaborators], over which the engine is defined. *)

From Stdlib Require Import ZArith Bool List Floats.SpecFloat.
From stdpp Require Import gmap strings list fin_maps.

Local Open Scope Z_scope.

(** ** IEEE 754 numbers in NumPy's two floating-point formats *)

Module Float.

Inductive fmt := binary32 | binary64.

Definition prec (f : fmt) : Z :=
  match f with binary32 => 24 | binary64 => 53 end.

Definition emax (f : fmt) : Z :=
  match f with binary32 => 128 | binary64 => 1024 end.

#[global] Instance fmt_eq_dec : EqDecision fmt.
Proof. solve_decision. Defined.

(** The wider of two formats (NumPy's promotion of two float types). *)
Definition wider (f g : fmt) : fmt :=
  match f, g with binary32, binary32 => binary32 | _, _ => binary64 end.

Definition of_Z (f : fmt) (z : Z) : spec_float :=
  binary_normalize (prec f) (emax f) z 0 false.

(** Rounding of a value to a format (a cast between float types). *)
Definition round (f : fmt) (x : spec_float) : spec_float :=
  match x with
  | S754_finite s m e => binary_round (prec f) (emax f) s m e
  | _ => x
  end.

Definition add (f : fmt) := SFadd (prec f) (emax f).
Definition sub (f : fmt) := SFsub (prec f) (emax f).
Definition mul (f : fmt) := SFmul (prec f) (emax f).
Definition div (f : fmt) := SFdiv (prec f) (emax f).

Definition inf : spec_float := S754_infinity false.
Definition one (f : fmt) : spec_float := of_Z f 1.

(** [np.pi], the binary64 number nearest to pi. *)
Definition pi : spec_float := S754_finite false 7074237752028440 (-51).

Definition is_nan (x : spec_float) : bool :=
  match x with S754_nan => true | _ => false end.

Definition is_inf (x : spec_float) : bool :=
  match x with S754_infinity _ => true | _ => false end.


(** The sign bit; a NaN has none here. *)
Definition sign (x : spec_float) : bool :=
  match x with
  | S754_zero s | S754_infinity s | S754_finite s _ _ => s
  | S754_nan => false
  end.


(** The integer part of a finite number (rounding toward zero). *)
Definition trunc (x : spec_float) : option Z :=
  match x with
  | S754_zero _ => Some 0
  | S754_finite s m e =>
      let q := match e with
               | Zneg p => Zpos m / 2 ^ Zpos p
               | _ => Zpos m * 2 ^ e
               end in
      Some (if s then - q else q)
  | _ => None
  end.

(** [math.ceil] of a finite number, as an integer. *)
Definition ceil (x : spec_float) : option Z :=
  match x with
  | S754_zero _ => Some 0
  | S754_finite s m e =>
      let z := if s then Zneg m else Zpos m in
      Some (match e with
            | Zneg p => - ((- z) / 2 ^ Zpos p)
            | _ => z * 2 ^ e
            end)
  | _ => None
  end.

End Float.

(** ** Exceptions and results *)

(** The exceptions the engine and its collaborators raise.  [Unsupported]
    marks an input outside the fragment of NumPy modelled here (a geometry
    vector that is not one-dimensional, for instance); no theorem below
    counts it as an exception of the engine. *)
Inductive exn :=
  | ValueError (msg : string)
  | TypeError (msg : string)
  | AttributeError (name : string)
  | IndexError (msg : string)
  | NameError (name : string)
  | OverflowError (msg : string)
  | Unsupported (what : string).

Definition result (A : Type) : Type := exn + A.

Definition raise {A} (e : exn) : result A := inl e.

#[global] Instance result_ret : MRet result := fun A x => inr x.
#[global] Instance result_bind : MBind result := fun A B f m =>
  match m with
  | inl e => inl e
  | inr x => f x
  end.
#[global] Instance result_fmap : FMap result := fun A B f m =>
  match m with
  | inl e => inl e
  | inr x => inr (f x)
  end.

Definition is_ok {A} (r : result A) : bool :=
  match r with inr _ => true | inl _ => false end.

(** An optional value, or the given exception when it is missing. *)
Definition or_raise {A} (o : option A) (e : exn) : result A :=
  match o with
  | Some x => inr x
  | None => inl e
  end.

(** ** The fragment of NumPy the engine uses *)

Module Np.

Import Float.

Inductive dtype := int64 | float (f : fmt).

#[global] Instance dtype_eq_dec : EqDecision dtype.
Proof. solve_decision. Defined.

(** An array element: an integer or a floating-point number. *)
Inductive num := I (z : Z) | R (x : spec_float).

(** A scalar outside an array: a Python [int], or a floating-point number
    with its format (a Python [float] and [np.float64] are binary64,
    [np.float32] is binary32). *)
Inductive scalar := SI (z : Z) | SF (f : fmt) (x : spec_float).

(** An array: its element type, its shape and its elements in row-major
    (C) order. *)
Record ndarray := mkarray {
  adtype : dtype;
  ashape : list nat;
  adata : list num
}.

Definition ndim (a : ndarray) : nat := length (ashape a).

Definition size_of (s : list nat) : nat := fold_right Nat.mul 1%nat s.

Definition num_of (s : scalar) : num :=
  match s with SI z => I z | SF _ x => R x end.

Definition scalar_of (d : dtype) (n : num) : scalar :=
  match n, d with
  | I z, _ => SI z
  | R x, float f => SF f x
  | R x, int64 => SF binary64 x
  end.

(** Conversion of an element to a floating-point format. *)
Definition to_float (f : fmt) (n : num) : spec_float :=
  match n with
  | I z => of_Z f z
  | R x => round f x
  end.

Definition to_int (n : num) : option Z :=
  match n with
  | I z => Some z
  | R x => trunc x
  end.

(** The element stored when [n] is assigned into an array of type [d];
    an infinity or a NaN cannot be stored in an integer array. *)
Definition cast (d : dtype) (n : num) : result num :=
  match d with
  | int64 =>
      I <$> or_raise (to_int n)
              (OverflowError "cannot convert float infinity to integer")
  | float f => mret (R (to_float f n))
  end.

(** [np.zeros(shape, dtype)], [np.ones(shape, dtype)] for a float type. *)
Definition full (s : list nat) (f : fmt) (x : spec_float) : ndarray :=
  mkarray (float f) s (replicate (size_of s) (R x)).

Definition zeros (s : list nat) (f : fmt) : ndarray :=
  full s f (S754_zero false).

Definition ones (s : list nat) (f : fmt) : ndarray := full s f (one f).

(** [np.array([z1, ..., zn])] of Python integers. *)
Definition of_ints (l : list Z) : ndarray :=
  mkarray int64 [length l] (I <$> l).

(** The shape an integer vector denotes, as [np.zeros] and [np.ones] read
    it: every entry must be an integer that is not negative. *)
Definition shape_of_vector (a : ndarray) : result (list nat) :=
  if negb (ndim a =? 1)%nat then
    raise (Unsupported "shape vector that is not one-dimensional")
  else
    mapM (fun n =>
            match n with
            | I z => if z <? 0
                     then raise (ValueError "negative dimensions are not allowed")
                     else mret (Z.to_nat z)
            | R _ => raise (TypeError "float object cannot be interpreted as an index")
            end) (adata a).

(** *** Element-wise arithmetic *)

Inductive binop := Add | Sub | Mul | Div.

(** Python 2 has no true division on integers: [/] on two integers is
    the floor division. *)
Definition int_op (op : binop) (x y : Z) : Z :=
  match op with
  | Add => x + y
  | Sub => x - y
  | Mul => x * y
  | Div => x / y
  end.

Definition float_op (op : binop) (f : fmt) : spec_float -> spec_float -> spec_float :=
  match op with
  | Add => add f
  | Sub => sub f
  | Mul => mul f
  | Div => div f
  end.

Definition num_op (op : binop) (d : dtype) (a b : num) : num :=
  match d with
  | int64 => I (int_op op (default 0 (to_int a)) (default 0 (to_int b)))
  | float f => R (float_op op f (to_float f a) (to_float f b))
  end.

(** Arithmetic on two scalars. *)
Definition scalar_op (op : binop) (a b : scalar) : scalar :=
  match a, b with
  | SI x, SI y => SI (int_op op x y)
  | SI x, SF f y => SF f (float_op op f (of_Z f x) y)
  | SF f x, SI y => SF f (float_op op f x (of_Z f y))
  | SF f x, SF g y =>
      let h := wider f g in SF h (float_op op h (round h x) (round h y))
  end.

Definition scalar_neg (a : scalar) : scalar :=
  match a with
  | SI x => SI (- x)
  | SF f x => SF f (SFopp x)
  end.

(** Comparison of two scalars; a comparison with a NaN is false. *)
Definition scalar_float (a : scalar) : spec_float :=
  match a with
  | SI x => of_Z binary64 x
  | SF _ x => x
  end.

Definition scalar_ltb (a b : scalar) : bool :=
  match a, b with
  | SI x, SI y => x <? y
  | _, _ => SFltb (scalar_float a) (scalar_float b)
  end.

(** The type of the result of an operation on two arrays. *)
Definition promote (d e : dtype) : dtype :=
  match d, e with
  | int64, int64 => int64
  | float f, float g => float (wider f g)
  | _, _ => float binary64
  end.

(** The type of the result of an operation on an array and a scalar:
    under the value-based casting of the NumPy versions this Python 2
    code runs on, a scalar does not widen an array of its own kind. *)
Definition promote_scalar (d : dtype) (s : scalar) : dtype :=
  match d, s with
  | int64, SI _ => int64
  | int64, SF _ _ => float binary64
  | float f, _ => float f
  end.

(** *** Broadcasting *)

(** The common shape of two shapes, both written last axis first. *)
Fixpoint broadcast_rev (s t : list nat) : option (list nat) :=
  match s, t with
  | [], _ => Some t
  | _, [] => Some s
  | a :: s', b :: t' =>
      r ← broadcast_rev s' t';
      if (a =? b)%nat then Some (a :: r)
      else if (a =? 1)%nat then Some (b :: r)
      else if (b =? 1)%nat then Some (a :: r)
      else None
  end.

Definition broadcast_shapes (s t : list nat) : option (list nat) :=
  reverse <$> broadcast_rev (reverse s) (reverse t).

(** [chunks n k l]: the first [k] consecutive pieces of [l], [n] elements
    each. *)
Fixpoint chunks {A} (n k : nat) (l : list A) : list (list A) :=
  match k with
  | O => []
  | S k' => take n l :: chunks n k' (drop n l)
  end.

(** The elements of an array of shape [s] repeated along the axes of
    length 1 to fill the shape [t] (both of one rank). *)
Fixpoint stretch {A} (s t : list nat) (l : list A) : list A :=
  match s, t with
  | a :: s', b :: t' =>
      let rows := stretch s' t' <$> chunks (size_of s') a l in
      if (a =? b)%nat then concat rows
      else concat (replicate b (concat rows))
  | _, _ => l
  end.

(** A shape padded with leading axes of length 1 up to rank [n]. *)
Definition pad_shape (n : nat) (s : list nat) : list nat :=
  replicate (n - length s) 1%nat ++ s.

Definition broadcast_to (t : list nat) (a : ndarray) : list num :=
  stretch (pad_shape (length t) (ashape a)) t (adata a).

Definition broadcast_error {A} : result A :=
  raise (ValueError "operands could not be broadcast together").

(** [a op b] on two arrays. *)
Definition array_op (op : binop) (a b : ndarray) : result ndarray :=
  match broadcast_shapes (ashape a) (ashape b) with
  | None => broadcast_error
  | Some s =>
      let d := promote (adtype a) (adtype b) in
      mret (mkarray d s
              (zip_with (num_op op d) (broadcast_to s a) (broadcast_to s b)))
  end.

(** [a op s] and [s op a] on an array and a scalar. *)
Definition array_scalar_op (op : binop) (a : ndarray) (s : scalar) : ndarray :=
  let d := promote_scalar (adtype a) s in
  mkarray d (ashape a) ((fun x => num_op op d x (num_of s)) <$> adata a).

Definition scalar_array_op (op : binop) (s : scalar) (a : ndarray) : ndarray :=
  let d := promote_scalar (adtype a) s in
  mkarray d (ashape a) ((fun x => num_op op d (num_of s) x) <$> adata a).

(** [f(a)] element by element on a floating-point array, in the array's
    format (an integer array is converted to binary64 first). *)
Definition array_map (g : fmt -> spec_float -> spec_float) (a : ndarray) : ndarray :=
  let f := match adtype a with float f => f | int64 => binary64 end in
  mkarray (float f) (ashape a) ((fun x => R (g f (to_float f x))) <$> adata a).

Definition array_neg (a : ndarray) : ndarray :=
  match adtype a with
  | int64 => mkarray int64 (ashape a)
               ((fun x => I (- default 0 (to_int x))) <$> adata a)
  | float f => array_map (fun _ => SFopp) a
  end.

(** [np.array(a, dtype=f)]: a copy converted to a float type. *)
Definition astype (f : fmt) (a : ndarray) : ndarray :=
  mkarray (float f) (ashape a) ((fun x => R (to_float f x)) <$> adata a).

(** *** Comparison, masks and indexing *)

Definition num_ltb (d : dtype) (a b : num) : bool :=
  match d with
  | int64 => default 0 (to_int a) <? default 0 (to_int b)
  | float f => SFltb (to_float f a) (to_float f b)
  end.

Definition num_eqb (a b : num) : bool :=
  match a, b with
  | I x, I y => x =? y
  | _, _ => SFeqb (to_float binary64 a) (to_float binary64 b)
  end.

(** [a < s], element by element; the scalar is compared in the array's
    own type. *)
Definition less_scalar (a : ndarray) (s : scalar) : list bool :=
  let d := promote_scalar (adtype a) s in
  (fun x => num_ltb d x (num_of s)) <$> adata a.

(** [a[mask] = s], on a copy of [a]'s record (the caller stores it back
    under the same reference). *)
Definition put_mask (a : ndarray) (mask : list bool) (s : scalar) : result ndarray :=
  if existsb id mask then
    v ← cast (adtype a) (num_of s);
    mret (mkarray (adtype a) (ashape a)
            (zip_with (fun (m : bool) x => if m then v else x) mask (adata a)))
  else mret a.

Definition not_a_vector {A} : result A :=
  raise (Unsupported "geometry vector that is not one-dimensional").

(** [a[i]] on a vector. *)
Definition item (a : ndarray) (i : nat) : result scalar :=
  if negb (ndim a =? 1)%nat then not_a_vector
  else or_raise (scalar_of (adtype a) <$> adata a !! i)
         (IndexError "index out of bounds").

(** [a[i] = s] on a vector. *)
Definition setitem (a : ndarray) (i : nat) (s : scalar) : result ndarray :=
  if negb (ndim a =? 1)%nat then not_a_vector
  else if negb (i <? length (adata a))%nat then
    raise (IndexError "index out of bounds")
  else
    v ← cast (adtype a) (num_of s);
    mret (mkarray (adtype a) (ashape a) (<[i := v]> (adata a))).

(** [a[0:] = s]: every element of the array is overwritten. *)
Definition fill (a : ndarray) (s : scalar) : result ndarray :=
  if (ndim a =? 0)%nat then
    raise (IndexError "too many indices for array")
  else if (length (adata a) =? 0)%nat then mret a
  else
    v ← cast (adtype a) (num_of s);
    mret (mkarray (adtype a) (ashape a) (replicate (length (adata a)) v)).

(** The scalars Python's iteration over a vector yields. *)
Definition iter (a : ndarray) : result (list scalar) :=
  if negb (ndim a =? 1)%nat then not_a_vector
  else mret (scalar_of (adtype a) <$> adata a).

(** The builtins [min(iterable)] and [max(a, b)]: the first extremum is
    kept, and a comparison with a NaN is false. *)
Definition pymin (l : list scalar) : result scalar :=
  match l with
  | [] => raise (ValueError "min() arg is an empty sequence")
  | x :: l' => mret (fold_left (fun m y => if scalar_ltb y m then y else m) l' x)
  end.

Definition pymax (a b : scalar) : scalar :=
  if scalar_ltb a b then b else a.

(** [(v == shape).all()] for an array [v] and the tuple [shape].  The
    tuple becomes a vector and is broadcast against [v].  When the two
    cannot be broadcast, [==] gives the Python [False] under the NumPy
    versions of this code, and [False.all()] is an [AttributeError]. *)
Definition shape_eq_all (v : ndarray) (shape : list nat) : result bool :=
  let t := of_ints (Z.of_nat <$> shape) in
  match broadcast_shapes (ashape v) (ashape t) with
  | None => raise (AttributeError "all")
  | Some s =>
      mret (forallb id (zip_with num_eqb (broadcast_to s v) (broadcast_to s t)))
  end.

(** *** Ramps and grids *)

Definition float_fmt (s : scalar) : option fmt :=
  match s with SI _ => None | SF f _ => Some f end.

Definition scalar_to (f : fmt) (s : scalar) : spec_float :=
  to_float f (num_of s).

(** [np.arange(start, stop, step)].  The length is the ceiling of
    [(stop - start) / step], computed in the operands' own format; the
    first two elements are [start] and [start + step], the others
    [start + i * delta] with [delta] the difference of the first two. *)
Definition arange (start stop step : scalar) : result ndarray :=
  match start, stop, step with
  | SI a, SI b, SI c =>
      if c =? 0 then raise (ValueError "Maximum allowed size exceeded")
      else
        let n := Z.to_nat (- ((a - b) / c)) in
        mret (mkarray int64 [n] ((fun i => I (a + Z.of_nat i * c)) <$> seq 0 n))
  | _, _, _ =>
      let f := default binary64
                 (foldr (fun s o => match float_fmt s, o with
                                    | Some g, Some h => Some (wider g h)
                                    | Some g, None => Some g
                                    | None, _ => o
                                    end) None [start; stop; step]) in
      let x0 := scalar_to f start in
      let q := div f (sub f (scalar_to f stop) x0) (scalar_to f step) in
      match ceil q with
      | None =>
          raise (ValueError (if is_nan q then "arange: cannot compute length"
                             else "Maximum allowed size exceeded"))
      | Some z =>
          let n := Z.to_nat z in
          let x1 := add f x0 (scalar_to f step) in
          let delta := sub f x1 x0 in
          mret (mkarray (float f) [n]
                  ((fun i => R (match i with
                                | O => x0
                                | S O => x1
                                | _ => add f x0 (mul f (of_Z f (Z.of_nat i)) delta)
                                end)) <$> seq 0 n))
      end
  end.

(** [np.meshgrid(y, x)] with the default indexing: two arrays of shape
    [(size x, size y)]; the first repeats [y] along the rows, the second
    repeats [x] along the columns. *)
Definition meshgrid (y x : ndarray) : ndarray * ndarray :=
  let ny := length (adata y) in
  let nx := length (adata x) in
  (mkarray (adtype y) [nx; ny] (concat (replicate nx (adata y))),
   mkarray (adtype x) [nx; ny] (concat ((replicate ny) <$> adata x))).

(** [np.expand_dims(a, axis)]. *)
Definition expand_dims (a : ndarray) (axis : nat) : result ndarray :=
  if (ndim a <? axis)%nat then
    raise (ValueError "axis out of bounds")
  else
    mret (mkarray (adtype a)
            (take axis (ashape a) ++ 1%nat :: drop axis (ashape a)) (adata a)).

(** [a[:, 0]]. *)
Definition column0 (a : ndarray) : result ndarray :=
  match ashape a with
  | n :: k :: s =>
      if (k =? 0)%nat then raise (IndexError "index 0 is out of bounds")
      else
        mret (mkarray (adtype a) (n :: s)
                (concat (take (size_of s) <$> chunks (k * size_of s) n (adata a))))
  | _ => raise (IndexError "too many indices for array")
  end.

(** [np.vstack((a, b, c)).T] for three vectors: the array whose rows are
    the triples [(a[i], b[i], c[i])]. *)
Definition vstack3_T (a b c : ndarray) : result ndarray :=
  if negb ((ndim a =? 1) && (ndim b =? 1) && (ndim c =? 1))%nat then
    raise (Unsupported "vstack of arrays that are not vectors")
  else if negb ((length (adata a) =? length (adata b))
                && (length (adata a) =? length (adata c)))%nat then
    raise (ValueError "all the input array dimensions must match exactly")
  else
    let d := promote (adtype a) (promote (adtype b) (adtype c)) in
    let conv x := match d with
                  | int64 => x
                  | float f => R (to_float f x)
                  end in
    mret (mkarray d [length (adata a); 3%nat]
            (concat (zip_with (fun x yz => [conv x; conv yz.1; conv yz.2])
                       (adata a) (zip (adata b) (adata c))))).

End Np.

(** ** Python values, the store and the engine's state *)

Import Float Np.

Definition loc := nat.

#[local] Set Warnings "-register-all".

(** A Python value.  Arrays and the geometry object are mutable: a value
    holds a reference to them.  A binary64 number is a Python [float]; a
    binary32 number is the NumPy scalar [np.float32], the only number of
    that format Python has. *)
Inductive value :=
  | VNone
  | VBool (b : bool)
  | VInt (z : Z)
  | VFloat (f : fmt) (x : spec_float)
  | VStr (s : string)
  | VList (l : list value)
  | VRef (l : loc).

(** The geometry object: the attributes the engine reads. *)
Record geometry := mkgeometry {
  DSD : value;
  DSO : value;
  nVoxel : value;
  sVoxel : value;
  dVoxel : value;
  sDetector : value;
  offOrigin : value;
  mode : value
}.

Inductive object :=
  | OArray (a : ndarray)
  | OGeometry (g : geometry).

(** Immutable data, as it crosses the boundary to a collaborator: the
    value with every reference replaced by what it refers to. *)
Inductive data :=
  | DNone
  | DBool (b : bool)
  | DInt (z : Z)
  | DFloat (f : fmt) (x : spec_float)
  | DStr (s : string)
  | DList (l : list data)
  | DArray (a : ndarray)
  | DGeometry (dsd dso nvoxel svoxel dvoxel sdetector offorigin gmode : data)
  | DOpaque.

(** The calls that leave the engine, in the order they are made. *)
Inductive event :=
  | CallAx (mode : string)
  | CallFDK
  | CallMultigrid
  | CallOrderSubsets
  | CallMeasureQuality
  | CallNorm
  | CallMethod (name : string).

#[global] Instance event_eq_dec : EqDecision event.
Proof. solve_decision. Defined.

Record state := mkstate {
  attrs : gmap string value;   (* self.__dict__ *)
  heap : list object;          (* the store; a reference is an index *)
  stdout : list string;        (* the lines printed so far *)
  calls : list event;          (* the calls made so far *)
  clock_reads : nat            (* how often time.clock() was read *)
}.

Definition set_attrs (f : gmap string value -> gmap string value) (s : state) : state :=
  mkstate (f (attrs s)) (heap s) (stdout s) (calls s) (clock_reads s).

Definition set_heap (f : list object -> list object) (s : state) : state :=
  mkstate (attrs s) (f (heap s)) (stdout s) (calls s) (clock_reads s).

(** *** The state-and-exception monad of the engine's methods *)

Definition M (A : Type) : Type := state -> result A * state.

#[global] Instance M_ret : MRet M := fun A x s => (inr x, s).
#[global] Instance M_bind : MBind M := fun A B f m s =>
  match m s with
  | (inl e, s') => (inl e, s')
  | (inr x, s') => f x s'
  end.

#[global] Instance M_fmap : FMap M := fun A B f m s =>
  match m s with
  | (r, s') => (f <$> r, s')
  end.

Definition throw {A} (e : exn) : M A := fun s => (inl e, s).

Definition lift {A} (r : result A) : M A := fun s => (r, s).

Definition get_state : M state := fun s => (inr s, s).

(** [hasattr(self, name)], [getattr(self, name)] and [setattr(self, name,
    v)] on instance attributes. *)
Definition hasattr (name : string) : M bool :=
  fun s => (inr (bool_decide (is_Some (attrs s !! name))), s).

Definition getattr (name : string) : M value :=
  fun s => (or_raise (attrs s !! name) (AttributeError name), s).

Definition setattr (name : string) (v : value) : M unit :=
  fun s => (inr (), set_attrs (insert name v) s).

Definition alloc (o : object) : M value :=
  fun s => (inr (VRef (length (heap s))), set_heap (fun h => h ++ [o]) s).

Definition store (l : loc) (o : object) : M unit :=
  fun s => (inr (), set_heap (insert l o) s).

Definition print (line : string) : M unit :=
  fun s => (inr (), mkstate (attrs s) (heap s) (stdout s ++ [line]) (calls s)
                     (clock_reads s)).

Definition emit (e : event) : M unit :=
  fun s => (inr (), mkstate (attrs s) (heap s) (stdout s) (calls s ++ [e])
                     (clock_reads s)).

(** The array a value refers to; [what] names the attribute Python would
    miss on another value. *)
Definition array_at (h : list object) (v : value) : option (loc * ndarray) :=
  match v with
  | VRef l => match h !! l with
              | Some (OArray a) => Some (l, a)
              | _ => None
              end
  | _ => None
  end.

Definition load_array (what : string) (v : value) : M (loc * ndarray) :=
  fun s => (or_raise (array_at (heap s) v) (AttributeError what), s).

(** A NumPy scalar.  It has the attributes [ndim] and [shape] of an array
    with no axis. *)
Definition np_scalar (v : value) : bool :=
  match v with
  | VFloat binary32 _ => true
  | _ => false
  end.

(** The shape behind [v.ndim] and [v.shape]; [what] is the attribute read. *)
Definition np_shape (what : string) (v : value) : M (list nat) :=
  if np_scalar v then mret []
  else '(_, a) ← load_array what v; mret (ashape a).

Definition geometry_at (h : list object) (v : value) : option (loc * geometry) :=
  match v with
  | VRef l => match h !! l with
              | Some (OGeometry g) => Some (l, g)
              | _ => None
              end
  | _ => None
  end.

Definition load_geometry (what : string) (v : value) : M (loc * geometry) :=
  fun s => (or_raise (geometry_at (heap s) v) (AttributeError what), s).

(** A number held by a value. *)
Definition scalar_of_value (v : value) : option scalar :=
  match v with
  | VBool b => Some (SI (if b then 1 else 0))
  | VInt z => Some (SI z)
  | VFloat f x => Some (SF f x)
  | _ => None
  end.

Definition value_of_scalar (s : scalar) : value :=
  match s with
  | SI z => VInt z
  | SF f x => VFloat f x
  end.

Definition number (v : value) : M scalar :=
  lift (or_raise (scalar_of_value v)
          (match v with
           | VRef _ => Unsupported "geometry distance that is not a scalar"
           | _ => TypeError "unsupported operand type(s)"
           end)).

(** The array behind a value that the model takes to be one. *)
Definition expect_array (what : string) (v : value) : M (loc * ndarray) :=
  fun s => (or_raise (array_at (heap s) v) (Unsupported what), s).

(** The array behind an attribute of the geometry that holds a vector. *)
Definition vector : value -> M (loc * ndarray) :=
  expect_array "geometry vector that is not an array".

Definition when (b : bool) (m : M unit) : M unit :=
  if b then m else mret ().

(** *** Truth, comparison and type tests *)

(** The truth value of [v] in [if v:].  An array of more than one element
    has none. *)
Definition truth (h : list object) (v : value) : result bool :=
  match v with
  | VNone => mret false
  | VBool b => mret b
  | VInt z => mret (negb (z =? 0))
  | VFloat _ x => mret (negb (SFeqb x (S754_zero false)))
  | VStr s => mret (negb (String.eqb s EmptyString))
  | VList l => mret (negb (bool_decide (length l = 0%nat)))
  | VRef l =>
      match h !! l with
      | Some (OArray a) =>
          match adata a with
          | [] => mret false
          | [x] => mret (negb (num_eqb x (I 0)))
          | _ => raise (ValueError "The truth value of an array with more than one element is ambiguous")
          end
      | _ => mret true
      end
  end.

Definition truthy (v : value) : M bool :=
  fun s => (truth (heap s) v, s).

(** [v == s] for a string literal [s].  On an array the comparison with a
    string is the scalar [False] under the NumPy versions of this code. *)
Definition str_eq (v : value) (s : string) : bool :=
  match v with
  | VStr t => String.eqb t s
  | _ => false
  end.

(** [v is not None]. *)
Definition is_not_none (v : value) : bool :=
  match v with VNone => false | _ => true end.

(** [type(v) == np.ndarray]. *)
Definition is_ndarray (h : list object) (v : value) : bool :=
  bool_decide (is_Some (array_at h v)).

(** *** Crossing the boundary to a collaborator *)

Fixpoint snapshot_flat (h : list object) (v : value) : data :=
  match v with
  | VNone => DNone
  | VBool b => DBool b
  | VInt z => DInt z
  | VFloat f x => DFloat f x
  | VStr s => DStr s
  | VList l => DList (snapshot_flat h <$> l)
  | VRef l => match h !! l with
              | Some (OArray a) => DArray a
              | _ => DOpaque
              end
  end.

(** What a collaborator sees of an argument. *)
Definition snapshot (h : list object) (v : value) : data :=
  match geometry_at h v with
  | Some (_, g) =>
      DGeometry (snapshot_flat h (DSD g)) (snapshot_flat h (DSO g))
        (snapshot_flat h (nVoxel g)) (snapshot_flat h (sVoxel g))
        (snapshot_flat h (dVoxel g)) (snapshot_flat h (sDetector g))
        (snapshot_flat h (offOrigin g)) (snapshot_flat h (mode g))
  | None => snapshot_flat h v
  end.

Definition pass (v : value) : M data :=
  fun s => (inr (snapshot (heap s) v), s).

(** The value a collaborator returns, with its arrays put in the store. *)
Fixpoint materialize (d : data) : M value :=
  match d with
  | DNone | DOpaque => mret VNone
  | DBool b => mret (VBool b)
  | DInt z => mret (VInt z)
  | DFloat f x => mret (VFloat f x)
  | DStr s => mret (VStr s)
  | DArray a => alloc (OArray a)
  | DList l => VList <$> mapM materialize l
  | DGeometry a b c d e f g m =>
      va ← materialize a; vb ← materialize b; vc ← materialize c;
      vd ← materialize d; ve ← materialize e; vf ← materialize f;
      vg ← materialize g; vm ← materialize m;
      alloc (OGeometry (mkgeometry va vb vc vd ve vf vg vm))
  end.

(** *** [copy.deepcopy] *)

(** The copies of the values of a list, in order; [memo] maps the arrays
    copied so far to their copies: an array reached twice is copied
    once. *)
Definition copy_all
    (copy : value -> list (loc * loc) -> M (value * list (loc * loc)))
  : list value -> list (loc * loc) -> M (list value * list (loc * loc)) :=
  fix all l memo :=
    match l with
    | [] => mret ([], memo)
    | v :: l' =>
        '(c, memo) ← copy v memo;
        '(cs, memo) ← all l' memo;
        mret (c :: cs, memo)
    end.

(** The copy of a value that holds no geometry. *)
Fixpoint deepcopy_flat (v : value) (memo : list (loc * loc))
  : M (value * list (loc * loc)) :=
  match v with
  | VRef l =>
      match (list_to_map memo : gmap loc loc) !! l with
      | Some l' => mret (VRef l', memo)
      | None =>
          '(_, a) ← expect_array "deepcopy of a nested object" v;
          s ← get_state;
          alloc (OArray a);;
          mret (VRef (length (heap s)), (l, length (heap s)) :: memo)
      end
  | VList l =>
      '(vs, memo) ← copy_all deepcopy_flat l memo;
      mret (VList vs, memo)
  | _ => mret (v, memo)
  end.

(** [copy.deepcopy(v)]: a geometry is copied attribute by attribute into a
    new object, anything else as above. *)
Definition deepcopy (v : value) : M value :=
  s ← get_state;
  match geometry_at (heap s) v with
  | Some (_, g) =>
      '(dsd, m) ← deepcopy_flat (DSD g) [];
      '(dso, m) ← deepcopy_flat (DSO g) m;
      '(nv, m) ← deepcopy_flat (nVoxel g) m;
      '(sv, m) ← deepcopy_flat (sVoxel g) m;
      '(dv, m) ← deepcopy_flat (dVoxel g) m;
      '(sd, m) ← deepcopy_flat (sDetector g) m;
      '(oo, m) ← deepcopy_flat (offOrigin g) m;
      '(md, m) ← deepcopy_flat (mode g) m;
      alloc (OGeometry (mkgeometry dsd dso nv sv dv sd oo md))
  | None => fst <$> deepcopy_flat v []
  end.

(** ** The engine: class [IterativeReconAlg] *)

(** *** Collaborators

    Code of the package that lives in other files.  Each is a function of
    the data it is given and may raise.  [method] is the lookup of a method
    by name on the class, which inherits the data-minimization and the
    regularisation steps from [DataMinimization] and [Regularisation]: a
    method works on [self] (its attributes and the store) in place.
    [clock] is [time.clock()] at its n-th reading, [str] is [str] of a
    number, [sin] and [cos] are [np.sin] and [np.cos] in a given format. *)
Class Collaborators := {
  Ax : data -> data -> data -> string -> result ndarray;
  FDK : data -> data -> data -> result ndarray;
  init_multigrid : data -> data -> data -> string -> result ndarray;
  order_subsets : data -> data -> data -> result (data * data);
  MQ : data -> data -> data -> result data;
  im3DNORM : ndarray -> Z -> result data;
  method :
    string ->
    option (gmap string value * list object ->
            result unit * (gmap string value * list object));
  clock : nat -> spec_float;
  str : scalar -> string;
  sin : fmt -> spec_float -> spec_float;
  cos : fmt -> spec_float -> spec_float
}.

Section Engine.

Context {ext : Collaborators}.

Definition time_clock : M spec_float :=
  fun s => (inr (clock (clock_reads s)),
            mkstate (attrs s) (heap s) (stdout s) (calls s) (S (clock_reads s))).

(** A method runs on [self] and the store. *)
Definition run_method
    (f : gmap string value * list object ->
         result unit * (gmap string value * list object)) : M unit :=
  fun s =>
    let '(r, (a, h)) := f (attrs s, heap s) in
    (r, mkstate a h (stdout s) (calls s) (clock_reads s)).

(** [getattr(self, name)()]: an instance attribute of that name shadows
    the method, and the values of this model are not callable. *)
Definition call_method (name : value) : M unit :=
  match name with
  | VStr n =>
      shadowed ← hasattr n;
      if shadowed : bool then throw (TypeError "object is not callable")
      else
        match method n with
        | None => throw (AttributeError n)
        | Some f => emit (CallMethod n);; run_method f
        end
  | _ => throw (TypeError "getattr(): attribute name must be string")
  end.

(** [obj.name] on the geometry. *)
Definition geo_attr (name : string) (proj : geometry -> value) (geo : value) : M value :=
  '(_, g) ← load_geometry name geo;
  mret (proj g).

(** [obj.name = v] on the geometry. *)
Definition set_geo_attr (name : string) (upd : geometry -> geometry) (geo : value) : M unit :=
  '(l, g) ← load_geometry name geo;
  store l (OGeometry (upd g)).

(** [a[i]] of a vector of the geometry. *)
Definition item_of (v : value) (i : nat) : M scalar :=
  '(_, a) ← vector v;
  lift (item a i).

(** *** [__init__]: the options *)

Definition options : gmap string value :=
  list_to_map
    [("blocksize", VInt 20); ("lmbda", VInt 1);
     ("lmbda_red", VFloat binary64 (S754_finite false 8917127262193582 (-53)));
     ("OrderStrategy", VNone); ("Quameasopts", VNone);
     ("init", VNone); ("verbose", VBool true); ("noneg", VBool true);
     ("computel2", VBool false);
     ("dataminimizing", VStr "art_data_minimizing");
     ("regularisation", VStr "minimizeTV")].

Definition allowed_keywords : list string :=
  ["V"; "W"; "log_parameters"; "angleblocks"; "angle_index"].

Definition recognised (kw : string) : bool :=
  bool_decide (is_Some (options !! kw)) || bool_decide (kw ∈ allowed_keywords).

Definition warning (kw : string) : string :=
  "Warning: " +:+ kw +:+
  " not recognised as default parameter for instance of IterativeReconAlg.".

(** The loop over [kwargs.keys()]. *)
Fixpoint warn_unrecognised (kws : list string) : M unit :=
  match kws with
  | [] => mret ()
  | kw :: kws' =>
      (if negb (recognised kw) then
         verbose ← getattr "verbose";
         b ← truthy verbose;
         when b (print (warning kw))
       else mret ());;
      warn_unrecognised kws'
  end.

(** Lines 85 to 102: the four arguments, the defaults and the keyword
    arguments become instance attributes, then every keyword that is
    neither a default nor allowed is reported. *)
Definition init_options (proj geo angles niter : value)
    (kwargs : gmap string value) : M unit :=
  setattr "proj" proj;;
  setattr "angles" angles;;
  setattr "geo" geo;;
  setattr "niter" niter;;
  (fun s => (inr (), set_attrs (fun d => options ∪ d) s));;
  (fun s => (inr (), set_attrs (fun d => kwargs ∪ d) s));;
  warn_unrecognised (map_to_list kwargs).*1.

(** Lines 103 to 106: a vector of angles becomes an array of triples. *)
Definition normalise_angles : M unit :=
  angles ← getattr "angles";
  shape ← np_shape "ndim" angles;
  if (length shape =? 1)%nat then
    '(_, a1) ← load_array "shape" angles;
    let a2 := zeros (take 1 (ashape a1)) binary32 in
    t ← lift (vstack3_T a1 a2 a2);
    v ← alloc (OArray t);
    setattr "angles" v
  else mret ().

(** *** [set_w] *)

Definition set_w : M unit :=
  geo ← getattr "geo";
  geox ← deepcopy geo;
  (* geox.sVoxel[0:] = self.geo.DSD - self.geo.DSO *)
  dsd ← geo_attr "DSD" DSD geo ≫= number;
  dso ← geo_attr "DSO" DSO geo ≫= number;
  '(l, sv) ← geo_attr "sVoxel" sVoxel geox ≫= vector;
  sv ← lift (fill sv (scalar_op Sub dsd dso));
  store l (OArray sv);;
  (* geox.sVoxel[2] = max(geox.sDetector[1], geox.sVoxel[2]) *)
  d1 ← geo_attr "sDetector" sDetector geox ≫= (fun v => item_of v 1);
  s2 ← geo_attr "sVoxel" sVoxel geox ≫= (fun v => item_of v 2);
  '(l, sv) ← geo_attr "sVoxel" sVoxel geox ≫= vector;
  sv ← lift (setitem sv 2 (pymax d1 s2));
  store l (OArray sv);;
  (* geox.nVoxel = np.array([2, 2, 2]) *)
  nv ← alloc (OArray (of_ints [2; 2; 2]));
  set_geo_attr "nVoxel"
    (fun g => mkgeometry (DSD g) (DSO g) nv (sVoxel g) (dVoxel g)
                (sDetector g) (offOrigin g) (mode g)) geox;;
  (* geox.dVoxel = geox.sVoxel / geox.nVoxel *)
  '(_, sv) ← geo_attr "sVoxel" sVoxel geox ≫= vector;
  '(_, nva) ← geo_attr "nVoxel" nVoxel geox ≫= vector;
  dv ← lift (array_op Div sv nva) ≫= (fun a => alloc (OArray a));
  set_geo_attr "dVoxel"
    (fun g => mkgeometry (DSD g) (DSO g) (nVoxel g) (sVoxel g) dv
                (sDetector g) (offOrigin g) (mode g)) geox;;
  (* W = Ax(np.ones(geox.nVoxel, dtype=np.float32), geox, self.angles, "ray-voxel") *)
  '(_, nva) ← geo_attr "nVoxel" nVoxel geox ≫= vector;
  shape ← lift (shape_of_vector nva);
  dgeox ← pass geox;
  dangles ← getattr "angles" ≫= pass;
  emit (CallAx "ray-voxel");;
  w ← lift (Ax (DArray (ones shape binary32)) dgeox dangles "ray-voxel");
  W ← alloc (OArray w);
  (* W[W < min(self.geo.dVoxel / 4)] = np.inf *)
  '(_, dva) ← geo_attr "dVoxel" dVoxel geo ≫= vector;
  threshold ← lift (iter (array_scalar_op Div dva (SI 4)) ≫= pymin);
  '(l, w) ← load_array "__setitem__" W;
  w ← lift (put_mask w (less_scalar w threshold) (SF binary64 inf));
  store l (OArray w);;
  (* W = 1 / W *)
  W ← alloc (OArray (scalar_array_op Div (SI 1) w));
  setattr "W" W.

(** *** [set_v] *)

(** One coordinate ramp of [set_v] along the axis [i] of the volume:
    [np.arange(start, stop + step, step)] with
    [start = sVoxel[i]/2 - dVoxel[i]/2 + offOrigin[i]],
    [stop = -sVoxel[i]/2 + dVoxel[i]/2 + offOrigin[i]] and
    [step = -dVoxel[i]]. *)
Definition ramp (geo : value) (i : nat) : M ndarray :=
  s ← geo_attr "sVoxel" sVoxel geo ≫= (fun v => item_of v i);
  d ← geo_attr "dVoxel" dVoxel geo ≫= (fun v => item_of v i);
  o ← geo_attr "offOrigin" offOrigin geo ≫= (fun v => item_of v i);
  let half x := scalar_op Div x (SI 2) in
  let start := scalar_op Add (scalar_op Sub (half s) (half d)) o in
  let stop := scalar_op Add (scalar_op Add (half (scalar_neg s)) (half d)) o in
  let step := scalar_neg d in
  lift (arange start (scalar_op Add stop step) step).

Definition set_v : M unit :=
  geo ← getattr "geo";
  gmode ← geo_attr "mode" mode geo;
  if negb (str_eq gmode "parallel") then
    xv ← ramp geo 1;
    yv ← scalar_array_op Mul (SI (-1)) <$> ramp geo 2;
    let '(yy, xx) := meshgrid yv xv in
    xx ← lift (expand_dims xx 2);
    yy ← lift (expand_dims yy 2);
    (* A = self.angles[:, 0] + np.pi / 2 *)
    '(_, angles) ← getattr "angles" ≫= expect_array "angles that are not an array";
    col ← lift (column0 angles);
    let A := array_scalar_op Add col (scalar_op Div (SF binary64 pi) (SI 2)) in
    (* V = (geo.DSO / (geo.DSO + (yy * np.sin(-A)) - (xx * np.cos(-A)))) ** 2 *)
    dso ← geo_attr "DSO" DSO geo;
    ys ← lift (array_op Mul yy (array_map sin (array_neg A)));
    dso ← number dso;
    xc ← lift (array_op Mul xx (array_map cos (array_neg A)));
    den ← lift (array_op Sub (scalar_array_op Add dso ys) xc);
    let q := scalar_array_op Div dso den in
    sq ← lift (array_op Mul q q);
    (* V = np.array(V, dtype=np.float32) *)
    V ← alloc (OArray (astype binary32 sq));
    setattr "V" V;;
    setattr "V" V
  else
    (* V = np.ones([self.angles.shape[0], geo.nVoxel[1], geo.nVoxel[0]], dtype=np.float32) *)
    shape ← getattr "angles" ≫= np_shape "shape";
    n ← lift (or_raise (shape !! 0%nat)
                (IndexError "tuple index out of range"));
    n1 ← geo_attr "nVoxel" nVoxel geo ≫= (fun v => item_of v 1);
    n0 ← geo_attr "nVoxel" nVoxel geo ≫= (fun v => item_of v 0);
    shape ← lift (shape_of_vector
                    (mkarray int64 [3%nat] [I (Z.of_nat n); num_of n1; num_of n0]));
    V ← alloc (OArray (ones shape binary32));
    setattr "V" V.

(** *** [set_res] *)

Definition set_res : M unit :=
  geo ← getattr "geo";
  '(_, nv) ← geo_attr "nVoxel" nVoxel geo ≫= vector;
  shape ← lift (shape_of_vector nv);
  zero ← alloc (OArray (zeros shape binary32));
  setattr "res" zero;;
  init ← getattr "init";
  verbose ← getattr "verbose";
  (if str_eq init "multigrid" then
     b ← truthy verbose;
     when b (print "init multigrid in progress...";;
             print "default blocksize=1 for init_multigrid(OS_SART)");;
     dproj ← getattr "proj" ≫= pass;
     dgeo ← getattr "geo" ≫= pass;
     dangles ← getattr "angles" ≫= pass;
     emit CallMultigrid;;
     r ← lift (init_multigrid dproj dgeo dangles "SART");
     v ← alloc (OArray r);
     setattr "res" v;;
     b ← truthy verbose;
     when b (print "init multigrid complete.")
   else mret ());;
  (if str_eq init "FDK" then
     dproj ← getattr "proj" ≫= pass;
     dgeo ← getattr "geo" ≫= pass;
     dangles ← getattr "angles" ≫= pass;
     emit CallFDK;;
     r ← lift (FDK dproj dgeo dangles);
     v ← alloc (OArray r);
     setattr "res" v
   else mret ());;
  s ← get_state;
  if is_ndarray (heap s) init then
    '(_, a) ← load_array "shape" init;
    '(_, nv) ← geo_attr "nVoxel" nVoxel geo ≫= vector;
    same ← lift (shape_eq_all nv (ashape a));
    if same : bool then setattr "res" init
    else throw (ValueError "wrong dimension of array for initialisation")
  else mret ().

(** *** [set_angle_index] *)

Definition set_angle_index : M unit :=
  dangles ← getattr "angles" ≫= pass;
  dblocksize ← getattr "blocksize" ≫= pass;
  dstrategy ← getattr "OrderStrategy" ≫= pass;
  emit CallOrderSubsets;;
  '(angleblocks, angle_index) ← lift (order_subsets dangles dblocksize dstrategy);
  angleblocks ← materialize angleblocks;
  angle_index ← materialize angle_index;
  setattr "angleblocks" angleblocks;;
  setattr "angle_index" angle_index.

(** *** [__init__] *)

(** Lines 103 to 116: the angles are normalised, every quantity that is
    not an attribute yet is built, and the two logs start empty. *)
Definition build_state : M unit :=
  normalise_angles;;
  has_w ← hasattr "W";
  when (negb has_w) set_w;;
  has_v ← hasattr "V";
  when (negb has_v) set_v;;
  has_res ← hasattr "res";
  when (negb has_res) set_res;;
  has_index ← hasattr "angleindex";
  has_blocks ← hasattr "angleblocks";
  when (negb (forallb id [has_index; has_blocks])) set_angle_index;;
  setattr "lq" (VList []);;
  setattr "l2l" (VList []).

Definition __init__ (proj geo angles niter : value)
    (kwargs : gmap string value) : M unit :=
  init_options proj geo angles niter kwargs;;
  build_state.

(** *** [error_measurement] *)

(** The entries of the list behind [l.append]. *)
Definition appendable (l : value) : M (list value) :=
  match l with
  | VList entries => mret entries
  | _ => throw (AttributeError "append")
  end.

(** [self.proj - Ax(self.res, self.geo, self.angles, 'ray-voxel')]. *)
Definition residual : M ndarray :=
  proj ← getattr "proj";
  dres ← getattr "res" ≫= pass;
  dgeo ← getattr "geo" ≫= pass;
  dangles ← getattr "angles" ≫= pass;
  emit (CallAx "ray-voxel");;
  ax ← lift (Ax dres dgeo dangles "ray-voxel");
  s ← get_state;
  match array_at (heap s) proj, scalar_of_value proj with
  | Some (_, p), _ => lift (array_op Sub p ax)
  | None, Some x => mret (scalar_array_op Sub x ax)
  | None, None => throw (TypeError "unsupported operand type(s) for -")
  end.

(** Lines 223 and 224: the quality of the volume against the volume
    before the pass. *)
Definition measure_quality (res_prev : value) (iter : nat) : M unit :=
  quameasopts ← getattr "Quameasopts";
  if is_not_none quameasopts && (0 <? iter)%nat then
    lq ← getattr "lq" ≫= appendable;
    dres ← getattr "res" ≫= pass;
    dprev ← pass res_prev;
    dopts ← getattr "Quameasopts" ≫= pass;
    emit CallMeasureQuality;;
    q ← lift (MQ dres dprev dopts) ≫= materialize;
    setattr "lq" (VList (lq ++ [q]))
  else mret ().

(** Lines 225 to 228: the norm of the residual. *)
Definition measure_residual : M unit :=
  computel2 ← getattr "computel2" ≫= truthy;
  if computel2 : bool then
    (* compute l2 norm for b-Ax *)
    r ← residual;
    emit CallNorm;;
    errornow ← lift (im3DNORM r 2) ≫= materialize;
    l2l ← getattr "l2l" ≫= appendable;
    setattr "l2l" (VList (l2l ++ [errornow]))
  else mret ().

Definition error_measurement (res_prev : value) (iter : nat) : M unit :=
  measure_quality res_prev iter;;
  measure_residual.

(** *** [run_main_iter] *)

(** Lines 209 to 219: the pass at index [i] up to the call of the
    data-minimization method; [toc] is the local variable of that name,
    unbound until the first verbose pass.  The locals [res_prev] and
    [toc] are returned. *)
Definition minimization (quameasopts : value) (i : nat) (toc : option spec_float)
    : M (value * option spec_float) :=
  res_prev ← (if is_not_none quameasopts
              then getattr "res" ≫= deepcopy
              else mret VNone);
  verbose ← getattr "verbose" ≫= truthy;
  toc ← (if verbose : bool then
           toc ← (if (i =? 0)%nat then
                    print "Algorithm in progress.";;
                    Some <$> time_clock
                  else mret toc);
           (if (i =? 1)%nat then
              tic ← time_clock;
              niter ← getattr "niter" ≫= number;
              toc ← lift (or_raise toc (NameError "toc"));
              print ("Esitmated time until completetion (s): " +:+
                     str (scalar_op Mul (scalar_op Sub niter (SI 1))
                            (scalar_op Sub (SF binary64 tic) (SF binary64 toc))))
            else mret ());;
           mret toc
         else mret toc);
  getattr "dataminimizing" ≫= call_method;;
  mret (res_prev, toc).

(** One pass through the body of the loop, at index [i]. *)
Definition iteration (quameasopts : value) (i : nat) (toc : option spec_float)
    : M (option spec_float) :=
  '(res_prev, toc) ← minimization quameasopts i toc;
  error_measurement res_prev i;;
  mret toc.

Fixpoint iterations (quameasopts : value) (range : list nat)
    (toc : option spec_float) : M unit :=
  match range with
  | [] => mret ()
  | i :: range' =>
      toc ← iteration quameasopts i toc;
      iterations quameasopts range' toc
  end.

(** [int(x)] for a NumPy number [x], by its [__int__]: the integer part,
    which a NaN and an infinity do not have. *)
Definition int_of_num (x : num) : result Z :=
  match x with
  | I z => mret z
  | R S754_nan => raise (ValueError "cannot convert float NaN to integer")
  | R (S754_infinity _) =>
      raise (OverflowError "cannot convert float infinity to integer")
  | R y => mret (default 0 (trunc y))
  end.

(** [range(n)] for the value [n].  An integer is required: Python's own
    [float] is refused, as is anything that is no number.  A NumPy scalar
    and an array of one element are numbers that are not a [float], and
    are converted by their [__int__]. *)
Definition py_range (n : value) : M (list nat) :=
  match n with
  | VInt z => mret (seq 0 (Z.to_nat z))
  | VBool b => mret (seq 0 (if b then 1 else 0))
  | VFloat binary32 x =>
      z ← lift (int_of_num (R x));
      mret (seq 0 (Z.to_nat z))
  | VRef _ =>
      s ← get_state;
      match array_at (heap s) n with
      | Some (_, a) =>
          match adata a with
          | [x] =>
              z ← lift (int_of_num x);
              mret (seq 0 (Z.to_nat z))
          | _ => throw (TypeError
                          "only length-1 arrays can be converted to Python scalars")
          end
      | None => throw (TypeError "range() integer end argument expected")
      end
  | _ => throw (TypeError "range() integer end argument expected")
  end.

Definition run_main_iter : M unit :=
  quameasopts ← getattr "Quameasopts";
  range ← getattr "niter" ≫= py_range;
  iterations quameasopts range None.

Definition getres : M value := getattr "res".

Definition getl2 : M value := getattr "l2l".

(** *** The function [iterativereconalg] that [decorator] builds

    It returns the volume, and the residual log with it when [computel2]
    is set. *)
Definition iterativereconalg (proj geo angles niter : value)
    (kwargs : gmap string value) : M (value * option value) :=
  __init__ proj geo angles niter kwargs;;
  run_main_iter;;
  computel2 ← getattr "computel2" ≫= truthy;
  if computel2 : bool then
    res ← getres;
    l2 ← getl2;
    mret (res, Some l2)
  else
    res ← getres;
    mret (res, None).

(** The state in which a caller builds an engine: the caller's store,
    no attribute, nothing printed, no call made. *)
Definition fresh (h : list object) : state := mkstate ∅ h [] [] 0.

End Engine.

(** ** A small instance, to run the engine on

    A cone-beam geometry of 4 x 4 x 4 voxels, two angles and stand-ins for
    the collaborators.  The stand-ins fix shapes and events, not the
    numerics of the real operators. *)

Module Demo.

Definition f64 (z : Z) : spec_float := of_Z binary64 z.

Definition floats (f : fmt) (l : list Z) : ndarray :=
  mkarray (float f) [length l] ((fun z => R (of_Z f z)) <$> l).

(** The caller's store: the vectors of the geometry at 0..4, the
    geometry at 5, the projections at 6 and the angles at 7. *)
Definition geo_with (nvoxel dvoxel : ndarray) (gmode : string) : list object :=
  [OArray nvoxel;
   OArray (floats binary64 [4; 4; 4]);
   OArray dvoxel;
   OArray (floats binary64 [8; 8]);
   OArray (floats binary64 [0; 0; 0]);
   OGeometry (mkgeometry (VFloat binary64 (f64 1536)) (VFloat binary64 (f64 1000))
                (VRef 0%nat) (VRef 1%nat) (VRef 2%nat) (VRef 3%nat) (VRef 4%nat)
                (VStr gmode))].

Definition store0 : list object :=
  geo_with (of_ints [4; 4; 4]) (floats binary64 [1; 1; 1]) "cone"
  ++ [OArray (zeros [2; 2; 2]%nat binary32);
      OArray (floats binary32 [0; 1])].

Definition geo : value := VRef 5%nat.
Definition proj : value := VRef 6%nat.
Definition angles : value := VRef 7%nat.

Definition angle_count (d : data) : nat :=
  match d with
  | DArray a => default 0%nat (ashape a !! 0%nat)
  | _ => 0%nat
  end.

(** The stand-in for the projector: one 2 x 2 image per angle, whose first
    ray misses the volume (length 0) and whose other rays have length
    536. *)
Definition Ax (volume geo angles : data) (kind : string) : result ndarray :=
  let n := angle_count angles in
  mret (mkarray (float binary32) [n; 2; 2]%nat
          (concat (replicate n ((fun z => R (of_Z binary32 z)) <$> [0; 536; 536; 536])))).

Definition FDK (proj geo angles : data) : result ndarray :=
  mret (ones [4; 4; 4]%nat binary32).

Definition init_multigrid (proj geo angles : data) (alg : string) : result ndarray :=
  mret (ones [4; 4; 4]%nat binary32).

Definition order_subsets (angles blocksize strategy : data) : result (data * data) :=
  mret (DList [angles], DList [DArray (of_ints [0; 1])]).

Definition MQ (res res_prev opts : data) : result data :=
  mret (DList [DFloat binary64 (f64 0)]).

Definition im3DNORM (a : ndarray) (order : Z) : result data :=
  mret (DFloat binary64 (f64 (Z.of_nat (length (adata a))))).

(** The stand-in for the data-minimization step replaces the volume by a
    new array; the one for the regularisation step does nothing. *)
Definition method (name : string)
  : option (gmap string value * list object ->
            result unit * (gmap string value * list object)) :=
  if String.eqb name "art_data_minimizing" then
    Some (fun '(a, h) =>
            (inr (), (<["res" := VRef (length h)]> a,
                      h ++ [OArray (ones [4; 4; 4]%nat binary32)])))
  else if String.eqb name "minimizeTV" then
    Some (fun ah => (inr (), ah))
  else None.

Definition clock (n : nat) : spec_float := f64 (Z.of_nat n).
Definition str (s : scalar) : string := "<float>".
Definition sin (f : fmt) (x : spec_float) : spec_float := x.
Definition cos (f : fmt) (x : spec_float) : spec_float := one f.

#[export] Instance collaborators : Collaborators :=
  Build_Collaborators Ax FDK init_multigrid order_subsets MQ im3DNORM method
    clock str sin cos.

(** The engine on the instance: construction alone, the engine it
    builds, the run of that engine, and the whole of
    [iterativereconalg]. *)
Definition construct (h : list object) (niter : value) (kwargs : gmap string value)
  : result unit * state :=
  __init__ proj geo angles niter kwargs (fresh h).

Definition engine (niter : value) (kwargs : gmap string value) : state :=
  (construct store0 niter kwargs).2.

Definition after_run (niter : value) (kwargs : gmap string value) : state :=
  (run_main_iter (engine niter kwargs)).2.

Definition run (h : list object) (niter : value) (kwargs : gmap string value)
  : result (value * option value) * state :=
  iterativereconalg proj geo angles niter kwargs (fresh h).

(** The state of the constructor after line 106, when the options are
    merged and the angles normalised, before anything is built. *)
Definition configured : state :=
  ((init_options proj geo angles (VInt 3) ∅;; normalise_angles) (fresh store0)).2.

(** A recognised and an unrecognised keyword argument. *)
Definition two_keywords : gmap string value :=
  list_to_map [("blocksize", VInt 5); ("colour", VStr "red")].

(** Keyword arguments that enable both logs. *)
Definition both_logs : gmap string value :=
  list_to_map [("Quameasopts", VList [VStr "RMSE"]); ("computel2", VBool true)].

(** Keyword arguments that supply the four derived quantities. *)
Definition supplied : gmap string value :=
  list_to_map
    [("W", proj); ("V", proj); ("res", proj);
     ("angleblocks", VStr "blocks of the caller");
     ("angle_index", VStr "index of the caller")].

(** The caller's store with one more array at 8, to initialise the
    volume with, and the keyword argument that passes it. *)
Definition store_with (init : ndarray) : list object := store0 ++ [OArray init].

Definition init_array : gmap string value := {[ "init" := VRef 8%nat ]}.

(** The construction of an engine whose [init] option is the array
    [init]. *)
Definition with_init (init : ndarray) : result unit * state :=
  construct (store_with init) (VInt 3) init_array.



(** A geometry whose voxel sizes are the integers 1, 1, 1. *)
Definition whole_store : list object :=
  geo_with (of_ints [4; 4; 4]) (of_ints [1; 1; 1]) "cone"
  ++ [OArray (zeros [2; 2; 2]%nat binary32);
      OArray (floats binary32 [0; 1])].

Definition whole_configured : state :=
  ((init_options proj geo angles (VInt 3) ∅;; normalise_angles) (fresh whole_store)).2.


(** The state of the constructor after the option phase (line 102), and
    after line 106 for a store and keyword arguments of one's choice. *)
Definition optioned : state :=
  (init_options proj geo angles (VInt 3) ∅ (fresh store0)).2.

Definition configured_on (h : list object) (kwargs : gmap string value) : state :=
  ((init_options proj geo angles (VInt 3) kwargs;; normalise_angles) (fresh h)).2.

(** The geometry of the instance, in parallel mode. *)
Definition parallel_store : list object :=
  geo_with (of_ints [4; 4; 4]) (floats binary64 [1; 1; 1]) "parallel"
  ++ [OArray (zeros [2; 2; 2]%nat binary32);
      OArray (floats binary32 [0; 1])].

(** Keyword arguments that choose the initialisation, and a
    data-minimization method that the class does not have. *)
Definition init_fdk : gmap string value := {[ "init" := VStr "FDK" ]}.
Definition init_multigrid_kw : gmap string value := {[ "init" := VStr "multigrid" ]}.
Definition unknown_method : gmap string value := {[ "dataminimizing" := VStr "sart" ]}.

(** Keyword arguments that pass a residual log, and keyword arguments
    that pass the angles (an array of two entries) as [verbose] flag
    along with a keyword that is not recognised. *)
Definition own_log : gmap string value := {[ "l2l" := VList [VInt 7] ]}.

Definition array_verbose : gmap string value :=
  list_to_map [("verbose", VRef 7%nat); ("colour", VStr "red")].

(** The states after line 106 for these choices. *)
Definition parallel_configured : state := configured_on parallel_store ∅.
Definition fdk_configured : state := configured_on store0 init_fdk.
Definition multigrid_configured : state := configured_on store0 init_multigrid_kw.
Definition init_configured (init : ndarray) : state :=
  configured_on (store_with init) init_array.

(** A vector of four entries, and a 4 x 4 image. *)
Definition vector4 : ndarray := floats binary32 [7; 7; 7; 7].
Definition image4x4 : ndarray := zeros [4; 4]%nat binary32.

End Demo.

(** ** Notions the statements use *)

(** The value of [self.verbose] once the keyword arguments are merged. *)
Definition verbose_flag (kwargs : gmap string value) : value :=
  default (VBool true) (kwargs !! "verbose").

Definition unrecognised (kwargs : gmap string value) : list string :=
  filter (fun kw => ¬ recognised kw) (map_to_list kwargs).*1.


(** A computation [preserves] a relation on states when every run of it,
    whether it returns or raises, relates the state it starts in to the
    state it ends in. *)
Definition preserves {A} (P : relation state) (m : M A) : Prop :=
  forall s r s', m s = (r, s') -> P s s'.

(** The attributes outside [ks] are the same in both states. *)
Definition attrs_outside (ks : list string) : relation state :=
  fun s s' => forall k, k ∉ ks -> attrs s' !! k = attrs s !! k.

(** The attributes the constructor sets after the option phase whatever
    the caller passed: the angles, the angle schedule and the two logs. *)
Definition rebuilt : list string :=
  ["angles"; "angleblocks"; "angle_index"; "lq"; "l2l"].

(** The attributes the builders of the constructor may set. *)
Definition built : list string :=
  ["angles"; "W"; "V"; "res"; "angleblocks"; "angle_index"; "lq"; "l2l"].

(** A relation on states that does not look at the store, at what was
    printed or at the clock. *)
Class Tolerant (P : relation state) : Prop := {
  tolerant_heap s h :
    P s (mkstate (attrs s) h (stdout s) (calls s) (clock_reads s));
  tolerant_stdout s out :
    P s (mkstate (attrs s) (heap s) out (calls s) (clock_reads s));
  tolerant_clock s n :
    P s (mkstate (attrs s) (heap s) (stdout s) (calls s) n)
}.

(** The calls of methods among the calls made. *)
Definition is_method_call (e : event) : bool :=
  match e with CallMethod _ => true | _ => false end.

Definition method_calls (s : state) : list event :=
  filter is_method_call (calls s).

(** No method was called between the two states. *)
Definition same_method_calls : relation state :=
  fun s s' => method_calls s' = method_calls s.

(** A relation on states that the builders of the constructor respect:
    they call no method and set no attribute outside [built]. *)
Class BuilderFrame (P : relation state) : Prop := {
  builder_emit e : is_method_call e = false -> preserves P (emit e);
  builder_setattr k v : k ∈ built -> preserves P (setattr k v)
}.

(** An attribute that is set stays set. *)
Definition stays_set (k : string) : relation state :=
  fun s s' => is_Some (attrs s !! k) -> is_Some (attrs s' !! k).

(** *** Ownership of the store

    [n] is the size of the caller's store when a method starts: the
    references below [n] are the caller's, those from [n] on are to what
    the method itself allocated. *)

Definition fresh_value (n : nat) (v : value) : Prop :=
  match v with
  | VRef l => (n <= l)%nat
  | _ => True
  end.

Definition fresh_geometry (n : nat) (g : geometry) : Prop :=
  fresh_value n (DSD g) /\ fresh_value n (DSO g) /\ fresh_value n (nVoxel g) /\
  fresh_value n (sVoxel g) /\ fresh_value n (dVoxel g) /\
  fresh_value n (sDetector g) /\ fresh_value n (offOrigin g) /\
  fresh_value n (mode g).

(** Every geometry the method allocated refers, attribute by attribute,
    to arrays the method allocated. *)
Definition owned (n : nat) (s : state) : Prop :=
  (n <= length (heap s))%nat /\
  forall l g, (n <= l)%nat -> heap s !! l = Some (OGeometry g) -> fresh_geometry n g.

(** The caller's objects are what they were. *)
Definition frame_below (n : nat) : relation state :=
  fun s s' => forall l, (l < n)%nat -> heap s' !! l = heap s !! l.

(** [m] writes only to what the method allocated, and returns values that
    satisfy [Q]. *)
Definition safe (n : nat) {A} (Q : A -> Prop) (m : M A) : Prop :=
  forall s r s', owned n s -> m s = (r, s') ->
    owned n s' /\ frame_below n s s' /\ forall x, r = inr x -> Q x.

Definition fresh_memo (n : nat) (memo : list (loc * loc)) : Prop :=
  Forall (fun p => (n <= p.2)%nat) memo.

(** The number of entries of the coordinate ramp of [set_v] along the
    axis [i], when it can be computed. *)
Definition ramp_length `{!Collaborators} (i : nat) (s : state) : option nat :=
  match (getattr "geo" ≫= fun geo => ramp geo i) s with
  | (inr a, _) => Some (length (adata a))
  | (inl _, _) => None
  end.

(** The state is the same. *)
Definition unchanged : relation state := fun s s' => s' = s.

(** The array an attribute of the engine refers to. *)
Definition array_attr (s : state) (name : string) : option ndarray :=
  v ← attrs s !! name; snd <$> array_at (heap s) v.

(** The geometry is in cone-beam mode: [geo.mode != 'parallel']. *)
Definition cone_beam (s : state) : Prop :=
  exists geo l g,
    attrs s !! "geo" = Some geo /\ geometry_at (heap s) geo = Some (l, g) /\
    str_eq (mode g) "parallel" = false.

(** Neither an attribute nor the list of calls has changed. *)
Definition quiet : relation state :=
  fun s s' => attrs s' = attrs s /\ calls s' = calls s.

(** The methods leave the attributes [ks] of the engine alone. *)
Definition method_frame `{!Collaborators} (ks : list string) : Prop :=
  forall name f a h r a' h',
    method name = Some f -> f (a, h) = (r, (a', h')) ->
    forall k, k ∈ ks -> a' !! k = a !! k.

(** The calls one pass of the loop makes, at index [i]: the
    data-minimization method [dm], then the quality measurement when
    [quality] is set and the pass is not the first, then the projection
    and the norm of the residual when [l2] is set. *)
Definition round_calls (quality l2 : bool) (dm : string) (i : nat) : list event :=
  [CallMethod dm]
  ++ (if quality && (0 <? i)%nat then [CallMeasureQuality] else [])
  ++ (if l2 then [CallAx "ray-voxel"; CallNorm] else []).

(** The entries of a log of the engine. *)
Definition log (s : state) (name : string) : option (list value) :=
  match attrs s !! name with
  | Some (VList l) => Some l
  | _ => None
  end.

(** *** The logs during a run *)

(** What a computation returned, if it did. *)
Definition returned {A} (r : result A) : option A :=
  match r with
  | inr x => Some x
  | inl _ => None
  end.

(** The engine after the first [k] passes of the loop of
    [run_main_iter], started in [s]. *)
Definition after_passes `{!Collaborators} (k : nat) (s : state) : option state :=
  q ← attrs s !! "Quameasopts";
  match iterations q (seq 0 k) None s with
  | (inr _, s') => Some s'
  | (inl _, _) => None
  end.

(** The engine in the pass at index [i], started in [s], at the moment
    the residual is taken: the data-minimization method has returned and
    the quality, if it is tracked, is logged.  [q] and [toc] are the
    locals [Quameasopts] and [toc] of [run_main_iter]. *)
Definition at_residual `{!Collaborators} (q : value) (i : nat)
    (toc : option spec_float) (s : state) : option state :=
  match ('(res_prev, _) ← minimization q i toc; measure_quality res_prev i) s with
  | (inr _, m) => Some m
  | (inl _, _) => None
  end.

(** In the words of the specification: the measured projections minus
    the forward projection of the current volume, in the state [s]. *)
Definition residual_of `{!Collaborators} (s : state) : option ndarray :=
  proj ← attrs s !! "proj";
  res ← attrs s !! "res";
  geo ← attrs s !! "geo";
  angles ← attrs s !! "angles";
  forward ← returned (Ax (snapshot (heap s) res) (snapshot (heap s) geo)
                        (snapshot (heap s) angles) "ray-voxel");
  match array_at (heap s) proj with
  | Some (_, p) => returned (array_op Sub p forward)
  | None => (fun x => scalar_array_op Sub x forward) <$> scalar_of_value proj
  end.

(** Its order-2 norm, as a value in the store of [s]: what one pass
    appends to the residual log. *)
Definition norm_of_residual `{!Collaborators} (s : state) : option value :=
  r ← residual_of s;
  d ← returned (im3DNORM r 2);
  returned (materialize d s).1.

(** The outcome of a computation depends on the store alone, and so does
    the store it leaves. *)
Definition heap_only {A} (m : M A) : Prop :=
  forall s t, heap s = heap t ->
              (m s).1 = (m t).1 /\ heap (m s).2 = heap (m t).2.

(** The calls made so far are still there. *)
Definition calls_extend : relation state :=
  fun s s' => exists t, calls s' = calls s ++ t.

(** *** The weight field *)




(** [min(self.geo.dVoxel / 4)] in a state of the engine, when it can be
    computed. *)
Definition threshold `{!Collaborators} (s : state) : option scalar :=
  match (geo ← getattr "geo";
         '(_, dva) ← geo_attr "dVoxel" dVoxel geo ≫= vector;
         lift (iter (array_scalar_op Div dva (SI 4)) ≫= pymin)) s with
  | (inr t, _) => Some t
  | (inl _, _) => None
  end.



(** Every voxel size of the geometry is above zero. *)
Definition positive_voxels `{!Collaborators} (s : state) : Prop :=
  exists geo l g ld dva,
    attrs s !! "geo" = Some geo /\ geometry_at (heap s) geo = Some (l, g) /\
    array_at (heap s) (dVoxel g) = Some (ld, dva) /\
    forallb (fun x => num_ltb (float binary64) (I 0) x) (adata dva) = true.

(** *** The progress of a run *)

(** Nothing was printed and the clock was not read between the two
    states. *)
Definition silent : relation state :=
  fun s s' => stdout s' = stdout s /\ clock_reads s' = clock_reads s.

(** The line of line 218, for the iteration count [niter] and the clock
    readings [tic] and [toc]:
    ['Esitmated time until completetion (s): ' + str((niter - 1) * (tic - toc))]. *)
Definition estimate `{!Collaborators} (niter : Z) (tic toc : spec_float) : string :=
  "Esitmated time until completetion (s): " +:+
  str (scalar_op Mul (scalar_op Sub (SI niter) (SI 1))
         (scalar_op Sub (SF binary64 tic) (SF binary64 toc))).

(** What a run of [niter] passes prints when the clock was read [k]
    times before it: the progress line in the first pass and the
    estimate in the second. *)
Definition progress `{!Collaborators} (niter : Z) (k : nat) : list string :=
  (if 1 <=? niter then ["Algorithm in progress."] else [])
  ++ (if 2 <=? niter then [estimate niter (clock (S k)) (clock k)] else []).

(** ** Reasoning about the monad *)

#[local] Set Warnings "-clear-no-such-hyp".

Lemma bind_run {A B} (m : M A) (f : A -> M B) (s : state) :
  (m ≫= f) s = match m s with
               | (inl e, s') => (inl e, s')
               | (inr x, s') => f x s'
               end.
Proof. reflexivity. Qed.

(** Unfolding of the monad and of its primitive operations. *)
Ltac mrun :=
  unfold mbind, mret, M_bind, M_ret, result_bind, result_ret, getattr, hasattr,
    setattr, alloc, store, print, emit, lift, throw, get_state, when, truthy,
    load_array, expect_array, vector, load_geometry, pass, or_raise, raise in *;
  cbn [set_attrs set_heap attrs heap stdout calls clock_reads fst snd] in *.

Lemma ret_run {A} (x : A) (s : state) : (mret x : M A) s = (inr x, s).
Proof. reflexivity. Qed.

Lemma bind_ok {A B} (m : M A) (f : A -> M B) (s s' : state) (y : B) :
  (m ≫= f) s = (inr y, s') ->
  exists x s1, m s = (inr x, s1) /\ f x s1 = (inr y, s').
Proof.
  rewrite bind_run. destruct (m s) as [[e|x] s1]; [discriminate|]. eauto.
Qed.

Lemma fmap_ok {A B} (g : A -> B) (m : M A) (s s' : state) (y : B) :
  (g <$> m) s = (inr y, s') ->
  exists x, m s = (inr x, s') /\ y = g x.
Proof.
  unfold fmap, M_fmap. destruct (m s) as [[e|x] s1]; simpl; intros [= <- <-]; eauto.
Qed.


(** A closed membership question on a list of names is decided by
    evaluation. *)
Ltac by_names := apply (bool_decide_unpack _); vm_compute; constructor.

(** ** Induction on values and data *)

Lemma value_ind_nested (P : value -> Prop) :
  P VNone -> (forall b, P (VBool b)) -> (forall z, P (VInt z)) ->
  (forall f x, P (VFloat f x)) -> (forall s, P (VStr s)) ->
  (forall l, Forall P l -> P (VList l)) -> (forall l, P (VRef l)) ->
  forall v, P v.
Proof.
  intros HN HB HI HF HS HL HR.
  fix IH 1.
  intros [|b|z|f x|s|l|l];
    [exact HN | apply HB | apply HI | apply HF | apply HS | | apply HR].
  apply HL. induction l as [|v l IHl]; constructor; [apply IH | exact IHl].
Qed.

Lemma data_ind_nested (P : data -> Prop) :
  P DNone -> (forall b, P (DBool b)) -> (forall z, P (DInt z)) ->
  (forall f x, P (DFloat f x)) -> (forall s, P (DStr s)) ->
  (forall l, Forall P l -> P (DList l)) -> (forall a, P (DArray a)) ->
  (forall a b c d e f g m,
      P a -> P b -> P c -> P d -> P e -> P f -> P g -> P m ->
      P (DGeometry a b c d e f g m)) ->
  P DOpaque ->
  forall d, P d.
Proof.
  intros HN HB HI HF HS HL HA HG HO.
  fix IH 1.
  intros [|b|z|f x|s|l|a|a b c d e f g m|];
    [exact HN | apply HB | apply HI | apply HF | apply HS | | apply HA
    | apply HG; apply IH | exact HO].
  apply HL. induction l as [|v l IHl]; constructor; [apply IH | exact IHl].
Qed.

(** ** What the operations leave alone *)

Section Preserves.

Context (P : relation state) `{!PreOrder P}.

Lemma preserves_ret {A} (x : A) : preserves P (mret x).
Proof. intros s r s' [= <- <-]. reflexivity. Qed.

Lemma preserves_bind {A B} (m : M A) (f : A -> M B) :
  preserves P m -> (forall x, preserves P (f x)) -> preserves P (m ≫= f).
Proof.
  intros Hm Hf s r s'. rewrite bind_run.
  destruct (m s) as [[e|x] s1] eqn:E.
  - intros [= <- <-]. eauto.
  - intros H. transitivity s1; [eapply Hm | eapply Hf]; eauto.
Qed.

Lemma preserves_fmap {A B} (g : A -> B) (m : M A) :
  preserves P m -> preserves P (g <$> m).
Proof.
  intros Hm s r s'. unfold fmap, M_fmap.
  destruct (m s) as [r1 s1] eqn:E. intros [= <- <-]. eauto.
Qed.

(** An operation that only reads the state. *)
Lemma preserves_reader {A} (g : state -> result A) :
  preserves P (fun s => (g s, s)).
Proof. intros s r s' [= <- <-]. reflexivity. Qed.

Lemma preserves_mapM {A B} (f : A -> M B) (l : list A) :
  Forall (fun x => preserves P (f x)) l -> preserves P (mapM f l).
Proof.
  induction 1 as [|x l Hx Hl IH]; cbn [mapM].
  - apply preserves_ret.
  - apply preserves_bind; [done|]. intros y.
    apply preserves_bind; [done|]. intros ys. apply preserves_ret.
Qed.

End Preserves.

#[global] Instance attrs_outside_preorder ks : PreOrder (attrs_outside ks).
Proof.
  split.
  - by intros s k Hk.
  - intros s1 s2 s3 H12 H23 k Hk. rewrite H23, H12; done.
Qed.

#[global] Instance attrs_outside_tolerant ks : Tolerant (attrs_outside ks).
Proof. split; by intros s ? k Hk. Qed.

#[global] Instance same_method_calls_preorder : PreOrder same_method_calls.
Proof.
  split.
  - by intros s.
  - intros s1 s2 s3 H12 H23. unfold same_method_calls in *. congruence.
Qed.

#[global] Instance same_method_calls_tolerant : Tolerant same_method_calls.
Proof. split; by intros s ?. Qed.

Create HintDb frames discriminated.

(** A tactic that follows the structure of a computation. *)
Ltac mpres :=
  lazymatch goal with
  | |- preserves _ (mbind _ _) =>
      apply preserves_bind; [typeclasses eauto | mpres | intros; mpres]
  | |- preserves _ (fmap _ _) =>
      apply preserves_fmap; mpres
  | |- preserves _ (mret _) => apply preserves_ret; typeclasses eauto
  | |- preserves _ (when ?b _) => destruct b; cbn [when]; mpres
  | |- preserves _ (if ?b then _ else _) => destruct b; mpres
  | |- preserves _ (let '(_, _) := ?x in _) => destruct x; mpres
  | |- preserves _ (match ?x with _ => _ end) => destruct x; mpres
  | |- preserves _ (fun s => (_, s)) =>
      apply preserves_reader; typeclasses eauto
  | |- _ => solve [eauto with frames typeclass_instances]
  end.

Section PreservesPrimitives.

Context (P : relation state) `{!PreOrder P, !Tolerant P}.

Lemma preserves_hasattr k : preserves P (hasattr k).
Proof. unfold hasattr. by apply preserves_reader. Qed.
Lemma preserves_getattr k : preserves P (getattr k).
Proof. unfold getattr. by apply preserves_reader. Qed.
Lemma preserves_throw {A} e : preserves P (throw (A:=A) e).
Proof. unfold throw. by apply preserves_reader. Qed.
Lemma preserves_lift {A} (r : result A) : preserves P (lift r).
Proof. unfold lift. by apply preserves_reader. Qed.
Lemma preserves_get_state : preserves P get_state.
Proof. unfold get_state. by apply preserves_reader. Qed.
Lemma preserves_truthy v : preserves P (truthy v).
Proof. unfold truthy. by apply preserves_reader. Qed.
Lemma preserves_pass v : preserves P (pass v).
Proof. unfold pass. by apply preserves_reader. Qed.
Lemma preserves_load_array w v : preserves P (load_array w v).
Proof. unfold load_array. by apply preserves_reader. Qed.
Lemma preserves_expect_array w v : preserves P (expect_array w v).
Proof. unfold expect_array. by apply preserves_reader. Qed.
Lemma preserves_np_shape w v : preserves P (np_shape w v).
Proof.
  unfold np_shape. destruct (np_scalar v).
  - by apply preserves_ret.
  - apply preserves_bind; [done|unfold load_array; by apply preserves_reader|].
    intros [l a]. by apply preserves_ret.
Qed.
Lemma preserves_vector v : preserves P (vector v).
Proof. apply preserves_expect_array. Qed.
Lemma preserves_load_geometry w v : preserves P (load_geometry w v).
Proof. unfold load_geometry. by apply preserves_reader. Qed.
Lemma preserves_number v : preserves P (number v).
Proof. apply preserves_lift. Qed.

Lemma preserves_alloc o : preserves P (alloc o).
Proof. intros s r s' [= <- <-]. apply tolerant_heap. Qed.
Lemma preserves_store l o : preserves P (store l o).
Proof. intros s r s' [= <- <-]. apply tolerant_heap. Qed.
Lemma preserves_print line : preserves P (print line).
Proof. intros s r s' [= <- <-]. apply tolerant_stdout. Qed.

Hint Resolve preserves_hasattr preserves_getattr preserves_throw preserves_lift
  preserves_get_state preserves_truthy preserves_pass preserves_load_array
  preserves_expect_array preserves_np_shape preserves_vector preserves_load_geometry
  preserves_number preserves_alloc preserves_store preserves_print : frames.

Lemma preserves_materialize d : preserves P (materialize d).
Proof.
  induction d using data_ind_nested; cbn [materialize]; try mpres.
  apply preserves_fmap. by apply preserves_mapM.
Qed.

Lemma preserves_copy_all copy l memo :
  Forall (fun v => forall memo, preserves P (copy v memo)) l ->
  preserves P (copy_all copy l memo).
Proof.
  intros Hl. revert memo. induction Hl as [|v l Hv Hl IH]; intros memo;
    cbn [copy_all]; mpres.
Qed.

Lemma preserves_deepcopy_flat v memo : preserves P (deepcopy_flat v memo).
Proof.
  revert memo. induction v using value_ind_nested; intros memo;
    cbn [deepcopy_flat]; try mpres.
  apply preserves_bind; [done| |intros [vs m]; mpres].
  by apply preserves_copy_all.
Qed.

Hint Resolve preserves_materialize preserves_deepcopy_flat : frames.

Lemma preserves_deepcopy v : preserves P (deepcopy v).
Proof. unfold deepcopy. mpres. Qed.

Lemma preserves_geo_attr name proj geo : preserves P (geo_attr name proj geo).
Proof. unfold geo_attr. mpres. Qed.

Lemma preserves_set_geo_attr name upd geo : preserves P (set_geo_attr name upd geo).
Proof. unfold set_geo_attr. mpres. Qed.

Lemma preserves_item_of v i : preserves P (item_of v i).
Proof. unfold item_of. mpres. Qed.

Lemma preserves_time_clock `{!Collaborators} : preserves P time_clock.
Proof. intros s r s' [= <- <-]. apply tolerant_clock. Qed.

End PreservesPrimitives.

#[global] Hint Resolve preserves_hasattr preserves_getattr preserves_throw
  preserves_lift preserves_get_state preserves_truthy preserves_pass
  preserves_load_array preserves_expect_array preserves_np_shape preserves_vector
  preserves_load_geometry preserves_number preserves_alloc preserves_store
  preserves_print preserves_materialize preserves_deepcopy_flat
  preserves_deepcopy preserves_geo_attr preserves_set_geo_attr
  preserves_item_of preserves_time_clock : frames.

#[global] Instance attrs_outside_builder : BuilderFrame (attrs_outside built).
Proof.
  split.
  - by intros e _ s r s' [= <- <-] k Hk.
  - intros k v Hin s r s' [= <- <-] k' Hk'. cbn.
    apply lookup_insert_ne. intros ->. done.
Qed.

#[global] Instance same_method_calls_builder : BuilderFrame same_method_calls.
Proof.
  split.
  - intros e He s r s' [= <- <-]. unfold same_method_calls, method_calls. cbn.
    rewrite filter_app, filter_cons_False, filter_nil, app_nil_r; [done|].
    rewrite He. exact id.
  - by intros k v _ s r s' [= <- <-].
Qed.

#[global] Hint Extern 1 (preserves _ (emit _)) =>
  apply builder_emit; reflexivity : frames.
#[global] Hint Extern 1 (preserves _ (setattr _ _)) =>
  apply builder_setattr; by_names : frames.

(** ** What the builders of the constructor leave alone *)

Section Builders.

Context {ext : Collaborators}.
Context (P : relation state) `{!PreOrder P, !Tolerant P, !BuilderFrame P}.

Lemma preserves_normalise_angles : preserves P normalise_angles.
Proof. unfold normalise_angles. mpres. Qed.

Lemma preserves_set_w : preserves P set_w.
Proof. unfold set_w. mpres. Qed.

Lemma preserves_ramp geo i : preserves P (ramp geo i).
Proof. unfold ramp. mpres. Qed.

Hint Resolve preserves_ramp : frames.

Lemma preserves_set_v : preserves P set_v.
Proof. unfold set_v. mpres. Qed.

Lemma preserves_set_res : preserves P set_res.
Proof. unfold set_res. mpres. Qed.

Lemma preserves_set_angle_index : preserves P set_angle_index.
Proof. unfold set_angle_index. mpres. Qed.

Hint Resolve preserves_normalise_angles preserves_set_w preserves_set_v
  preserves_set_res preserves_set_angle_index : frames.

Lemma preserves_build_state : preserves P build_state.
Proof. unfold build_state. mpres. Qed.

End Builders.

#[global] Hint Resolve preserves_normalise_angles preserves_set_w preserves_ramp
  preserves_set_v preserves_set_res preserves_set_angle_index
  preserves_build_state : frames.
(** ** The keyword arguments of the constructor *)

Lemma warn_unrecognised_run (b : bool) (kws : list string) (s : state) :
  attrs s !! "verbose" = Some (VBool b) ->
  warn_unrecognised kws s =
    (inr (), mkstate (attrs s) (heap s)
               (stdout s ++ (if b then warning <$> filter (fun kw => ¬ recognised kw) kws
                             else []))
               (calls s) (clock_reads s)).
Proof.
  revert s. induction kws as [|kw kws IH]; intros s Hv.
  - cbn. destruct s, b; cbn; by rewrite app_nil_r.
  - cbn [warn_unrecognised]. mrun.
    destruct (recognised kw) eqn:Hk; cbn [negb]; mrun.
    + rewrite filter_cons_False by (rewrite Hk; cbn; tauto).
      by rewrite IH.
    + rewrite filter_cons_True by (rewrite Hk; cbn; tauto).
      rewrite Hv. cbn [truth]. mrun.
      destruct b; mrun.
      * rewrite IH by done. mrun. by rewrite <- app_assoc.
      * by rewrite IH.
Qed.

(** The same for a [verbose] flag of any type that has a truth value. *)
Lemma warn_unrecognised_truth (v : value) (b : bool) (kws : list string) (s : state) :
  attrs s !! "verbose" = Some v -> truth (heap s) v = inr b ->
  warn_unrecognised kws s =
    (inr (), mkstate (attrs s) (heap s)
               (stdout s ++ (if b then warning <$> filter (fun kw => ¬ recognised kw) kws
                             else []))
               (calls s) (clock_reads s)).
Proof.
  revert s. induction kws as [|kw kws IH]; intros s Hv Ht.
  - cbn. destruct s, b; cbn; by rewrite app_nil_r.
  - cbn [warn_unrecognised]. rewrite bind_run.
    destruct (recognised kw) eqn:Hk; cbn [negb].
    + rewrite ret_run, filter_cons_False by (rewrite Hk; cbn; tauto).
      by rewrite IH.
    + rewrite filter_cons_True by (rewrite Hk; cbn; tauto).
      rewrite bind_run. unfold getattr at 1. rewrite Hv. cbn [or_raise].
      rewrite bind_run. unfold truthy at 1. rewrite Ht.
      destruct b; cbn [when].
      * unfold print at 1. rewrite IH by done.
        cbn [attrs heap stdout calls clock_reads]. by rewrite <- app_assoc.
      * rewrite ret_run. by rewrite IH.
Qed.

(** ** Construction, and a run of no iteration *)

#[global] Instance stays_set_preorder k : PreOrder (stays_set k).
Proof.
  split; [intros s H; exact H | intros s1 s2 s3 H12 H23 H; apply H23, H12, H].
Qed.

#[global] Instance stays_set_tolerant k : Tolerant (stays_set k).
Proof. split; intros s ? H; exact H. Qed.

#[global] Instance stays_set_builder k : BuilderFrame (stays_set k).
Proof.
  split.
  - intros e _ s r s' [= <- <-] H. exact H.
  - intros k' v _ s r s' [= <- <-] [w Hw]. cbn.
    destruct (decide (k' = k)) as [->|Hne].
    + rewrite lookup_insert_eq. by eexists.
    + rewrite lookup_insert_ne by done. by eexists.
Qed.

Lemma preserves_warn_unrecognised (P : relation state)
    `{!PreOrder P, !Tolerant P} (kws : list string) :
  preserves P (warn_unrecognised kws).
Proof. induction kws as [|kw kws IH]; cbn [warn_unrecognised]; mpres. Qed.

(** The attributes after the option phase, however it ends. *)
Lemma init_options_attrs (proj geo angles niter : value)
    (kwargs : gmap string value) (s s' : state) (r : result unit) :
  init_options proj geo angles niter kwargs s = (r, s') ->
  attrs s' = kwargs ∪ (options ∪ <["niter" := niter]> (<["geo" := geo]>
               (<["angles" := angles]> (<["proj" := proj]> (attrs s))))).
Proof.
  unfold init_options. mrun. intros H.
  apply (preserves_warn_unrecognised (attrs_outside [])) in H.
  apply map_eq. intros k. rewrite H by apply not_elem_of_nil. reflexivity.
Qed.

(** Inversion of a step that returned. *)
Ltac mstep_auto H :=
  lazymatch type of H with
  | (let '(_, _) := ?p in _) _ = _ => destruct p; mstep_auto H
  | _ =>
      let x := fresh "x" in
      let s := fresh "s" in
      let H1 := fresh "H" in
      let H2 := fresh "H" in
      apply bind_ok in H; destruct H as (x & s & H1 & H2); rename H2 into H
  end.

Ltac mstep_named H x s H1 :=
  lazymatch type of H with
  | (let '(_, _) := ?p in _) _ = _ => destruct p; mstep_named H x s H1
  | _ =>
      let H2 := fresh "Hrest" in
      apply bind_ok in H; destruct H as (x & s & H1 & H2); rename H2 into H
  end.

Tactic Notation "mstep" hyp(H) "as" ident(x) ident(s) ident(H1) :=
  mstep_named H x s H1.

Tactic Notation "mstep" hyp(H) := mstep_auto H.

Lemma hasattr_ok k s b s' :
  hasattr k s = (inr b, s') ->
  s' = s /\ b = bool_decide (is_Some (attrs s !! k)).
Proof. by intros [= <- <-]. Qed.

Lemma getattr_ok k s v s' :
  getattr k s = (inr v, s') -> s' = s /\ attrs s !! k = Some v.
Proof.
  unfold getattr. destruct (attrs s !! k); cbn; intros [= <- <-]; done.
Qed.

Lemma setattr_ok k v s r s' :
  setattr k v s = (r, s') -> r = inr () /\ s' = set_attrs (insert k v) s.
Proof. by intros [= <- <-]. Qed.

Section Construction.

Context {ext : Collaborators}.

(** In an engine that was built, the two logs are empty and the volume
    estimate is set; the attributes the builders do not own are those
    the option phase left. *)
Lemma build_state_ok (s s' : state) :
  build_state s = (inr (), s') ->
  attrs s' !! "lq" = Some (VList []) /\
  attrs s' !! "l2l" = Some (VList []) /\
  is_Some (attrs s' !! "res") /\
  attrs_outside built s s'.
Proof.
  intros H.
  pose proof (preserves_build_state (attrs_outside built) _ _ _ H) as Hframe.
  unfold build_state in H. do 11 mstep H.
  repeat match goal with
         | Hs : setattr _ _ _ = _ |- _ => apply setattr_ok in Hs as [_ ->]
         | Hh : hasattr _ _ = _ |- _ => apply hasattr_ok in Hh as [-> ->]
         end.
  assert (Hres : is_Some (attrs s6 !! "res")); cycle 1.
  { assert (Hp : preserves (stays_set "res")
                   (when (negb (forallb id
                      [bool_decide (is_Some (attrs s6 !! "angleindex"));
                       bool_decide (is_Some (attrs s6 !! "angleblocks"))]))
                      set_angle_index)) by mpres.
    apply Hp in H9. unfold stays_set in H9. apply H9 in Hres.
    cbn [attrs set_attrs]. split_and!; [| | |exact Hframe].
    - by rewrite lookup_insert_ne, lookup_insert_eq.
    - by rewrite lookup_insert_eq.
    - by rewrite !lookup_insert_ne. }
  { clear H9 Hframe. case_bool_decide as Hd; cbn [negb when] in *.
    - match goal with Hr : mret () _ = (_, _) |- _ => injection Hr as _ <- end.
      done.
    - match goal with Hr : set_res _ = _ |- _ =>
        unfold set_res in Hr; do 5 mstep Hr;
        match goal with
        | Hs : setattr "res" _ _ = _ |- _ => apply setattr_ok in Hs as [_ ->]
        end;
        match type of Hr with
        | ?m _ = _ =>
            assert (Hp : preserves (stays_set "res") m) by mpres;
            apply Hp in Hr; unfold stays_set in Hr
        end;
        apply Hr
      end.
      cbn. rewrite lookup_insert_eq. by eexists. }
Qed.

(** What the constructor leaves of the options: the iteration count is
    the argument, and a recognised option is the keyword argument of
    that name or else its default. *)
Lemma constructed_niter proj geo angles niter kwargs s0 s1 :
  kwargs !! "niter" = None ->
  __init__ proj geo angles niter kwargs s0 = (inr (), s1) ->
  attrs s1 !! "niter" = Some niter.
Proof.
  intros Hk H. unfold __init__ in H. mstep H.
  apply init_options_attrs in H0. apply build_state_ok in H as (_ & _ & _ & Hf).
  rewrite Hf by by_names. rewrite H0.
  rewrite lookup_union_r by done. rewrite lookup_union_r by done.
  apply lookup_insert_eq.
Qed.

Lemma constructed_option proj geo angles niter kwargs s0 s1 k d :
  options !! k = Some d -> k ∉ built ->
  __init__ proj geo angles niter kwargs s0 = (inr (), s1) ->
  attrs s1 !! k = Some (default d (kwargs !! k)).
Proof.
  intros Hd Hb H. unfold __init__ in H. mstep H.
  apply init_options_attrs in H0. apply build_state_ok in H as (_ & _ & _ & Hf).
  rewrite Hf by done. rewrite H0.
  destruct (kwargs !! k) as [v|] eqn:Hk; cbn [default].
  - by apply lookup_union_Some_l.
  - rewrite lookup_union_r by done. by apply lookup_union_Some_l.
Qed.

(** C9.  In an engine constructed with [niter = 0], [run_main_iter]
    returns at once in the state it was called in: no call is made, of a
    data-minimization, regularisation or measurement capability or of
    any other, nothing is printed and the store is as it was.  The
    quality log and the residual log are the empty lists the constructor
    left, and [getres] returns the volume estimate of the constructed
    engine. *)
Theorem run_without_iteration proj geo angles kwargs s0 s1 :
  kwargs !! "niter" = None ->
  __init__ proj geo angles (VInt 0) kwargs s0 = (inr (), s1) ->
  run_main_iter s1 = (inr (), s1) /\
  attrs s1 !! "lq" = Some (VList []) /\
  attrs s1 !! "l2l" = Some (VList []) /\
  exists v, attrs s1 !! "res" = Some v /\ getres s1 = (inr v, s1).
Proof.
  intros Hk H.
  pose proof (constructed_niter _ _ _ _ _ _ _ Hk H) as Hn.
  pose proof (constructed_option _ _ _ _ _ _ _ "Quameasopts" VNone
                eq_refl ltac:(by_names) H) as Hq.
  unfold __init__ in H. mstep H.
  apply build_state_ok in H as (Hlq & Hl2 & [v Hres] & _).
  split_and!; [|done|done|].
  - unfold run_main_iter. mrun. rewrite Hq, Hn. reflexivity.
  - exists v. split; [done|]. unfold getres. mrun. by rewrite Hres.
Qed.

End Construction.

(** ** The weight field is computed on a copy of the geometry *)

Lemma preserves_expect_array_heap what v s r s' :
  expect_array what v s = (r, s') -> heap s' = heap s.
Proof. by intros [= _ <-]. Qed.

Section Ownership.

Context (n : nat).

Lemma frame_below_refl s : frame_below n s s.
Proof. by intros l Hl. Qed.

Lemma frame_below_trans s1 s2 s3 :
  frame_below n s1 s2 -> frame_below n s2 s3 -> frame_below n s1 s3.
Proof. intros H12 H23 l Hl. rewrite H23, H12; done. Qed.

Lemma safe_bind {A B} (Q : A -> Prop) (R : B -> Prop) (m : M A) (f : A -> M B) :
  safe n Q m -> (forall x, Q x -> safe n R (f x)) -> safe n R (m ≫= f).
Proof.
  intros Hm Hf s r s' Ho. rewrite bind_run.
  destruct (m s) as [[e|x] s1] eqn:E.
  - intros [= <- <-]. destruct (Hm _ _ _ Ho E) as (Ho1 & Hf1 & _).
    split_and!; [done..|]. intros x [=].
  - intros H. destruct (Hm _ _ _ Ho E) as (Ho1 & Hf1 & Hq).
    destruct (Hf x (Hq x eq_refl) _ _ _ Ho1 H) as (Ho2 & Hf2 & Hr).
    split_and!; [done| |done]. by eapply frame_below_trans.
Qed.

Lemma safe_weaken {A} (Q Q' : A -> Prop) (m : M A) :
  safe n Q m -> (forall x, Q x -> Q' x) -> safe n Q' m.
Proof.
  intros Hm HQ s r s' Ho H. destruct (Hm _ _ _ Ho H) as (? & ? & Hq).
  split_and!; [done..|]. intros x ->. eauto.
Qed.

Lemma safe_reader {A} (Q : A -> Prop) (g : state -> result A) :
  (forall s x, owned n s -> g s = inr x -> Q x) ->
  safe n Q (fun s => (g s, s)).
Proof.
  intros HQ s r s' Ho [= <- <-].
  split_and!; [done|apply frame_below_refl|]. intros x Hx. eauto.
Qed.

Lemma safe_ret {A} (Q : A -> Prop) (x : A) : Q x -> safe n Q (mret x).
Proof.
  intros HQ s r s' Ho [= <- <-].
  split_and!; [done|apply frame_below_refl|]. by intros ? [= <-].
Qed.

(** An operation that leaves the store alone. *)
Lemma safe_same_heap {A} (m : M A) :
  (forall s r s', m s = (r, s') -> heap s' = heap s) ->
  safe n (fun _ => True) m.
Proof.
  intros Hm s r s' [Hl Ho] H. apply Hm in H.
  split_and!; [|by intros l _; rewrite H|done].
  split; rewrite H; done.
Qed.

Lemma owned_alloc s o :
  owned n s ->
  match o with OGeometry g => fresh_geometry n g | OArray _ => True end ->
  owned n (set_heap (fun h => h ++ [o]) s).
Proof.
  intros [Hl Ho] Hfresh. split; cbn.
  - rewrite length_app. lia.
  - intros l g Hn Hlk.
    destruct (decide (l < length (heap s))%nat).
    + rewrite lookup_app_l in Hlk by done. eauto.
    + rewrite lookup_app_r in Hlk by lia.
      destruct (l - length (heap s))%nat; [|done].
      cbn in Hlk. by injection Hlk as ->.
Qed.

Lemma frame_below_alloc s o :
  owned n s -> frame_below n s (set_heap (fun h => h ++ [o]) s).
Proof.
  intros [Hl _] l Hlt. cbn. apply lookup_app_l. lia.
Qed.

Lemma safe_alloc_array a : safe n (fresh_value n) (alloc (OArray a)).
Proof.
  intros s r s' Ho [= <- <-].
  split_and!; [by apply owned_alloc|by apply frame_below_alloc|].
  intros x [= <-]. cbn. apply Ho.
Qed.

Lemma safe_alloc_geometry g :
  fresh_geometry n g -> safe n (fresh_value n) (alloc (OGeometry g)).
Proof.
  intros Hg s r s' Ho [= <- <-].
  split_and!; [by apply owned_alloc|by apply frame_below_alloc|].
  intros x [= <-]. cbn. apply Ho.
Qed.

Lemma safe_store l o :
  (n <= l)%nat ->
  match o with OGeometry g => fresh_geometry n g | OArray _ => True end ->
  safe n (fun _ => True) (store l o).
Proof.
  intros Hl Hfresh s r s' [Hlen Ho] [= <- <-]. split_and!; [split| |done]; cbn.
  - by rewrite length_insert.
  - intros l' g Hn Hlk. destruct (decide (l = l')) as [<-|Hne].
    + apply list_lookup_insert_Some in Hlk as [(_ & -> & _)|[? _]]; done.
    + rewrite list_lookup_insert_ne in Hlk by done. eauto.
  - intros l' Hlt. apply list_lookup_insert_ne. lia.
Qed.

Lemma safe_load_geometry what geo :
  fresh_value n geo ->
  safe n (fun p => (n <= p.1)%nat /\ fresh_geometry n p.2) (load_geometry what geo).
Proof.
  intros Hgeo. apply safe_reader. intros s [l g] [_ Ho] Hload.
  unfold geometry_at in Hload. destruct geo as [| | | | | |l']; try done.
  destruct (heap s !! l') as [[a|g']|] eqn:Hl; try done.
  injection Hload as <- <-. cbn in *. eauto.
Qed.

Lemma safe_geo_attr name (proj : geometry -> value) geo :
  fresh_value n geo ->
  (forall g, fresh_geometry n g -> fresh_value n (proj g)) ->
  safe n (fresh_value n) (geo_attr name proj geo).
Proof.
  intros Hgeo Hproj. unfold geo_attr.
  eapply safe_bind; [by apply safe_load_geometry|].
  intros [l g] [_ Hg]. apply safe_ret. auto.
Qed.

Lemma safe_expect_array what v :
  fresh_value n v ->
  safe n (fun p => (n <= p.1)%nat) (expect_array what v).
Proof.
  intros Hv. apply safe_reader. intros s [l a] _ Hload.
  unfold array_at in Hload. destruct v as [| | | | | |l']; try done.
  destruct (heap s !! l') as [[a'|g']|]; try done.
  by injection Hload as <- <-.
Qed.

Lemma safe_load_array_fresh what v :
  fresh_value n v ->
  safe n (fun p => (n <= p.1)%nat) (load_array what v).
Proof.
  intros Hv. apply safe_reader. intros s [l a] _ Hload.
  unfold array_at in Hload. destruct v as [| | | | | |l']; try done.
  destruct (heap s !! l') as [[a'|g']|]; try done.
  by injection Hload as <- <-.
Qed.

Lemma safe_set_geo_attr name (upd : geometry -> geometry) geo :
  fresh_value n geo ->
  (forall g, fresh_geometry n g -> fresh_geometry n (upd g)) ->
  safe n (fun _ => True) (set_geo_attr name upd geo).
Proof.
  intros Hgeo Hupd. unfold set_geo_attr.
  eapply safe_bind; [by apply safe_load_geometry|].
  intros [l g] [Hl Hg]. apply safe_store; auto.
Qed.

(** *** [copy.deepcopy] allocates what it returns *)

Lemma safe_copy_all copy l memo :
  Forall (fun v => forall memo, fresh_memo n memo ->
            safe n (fun p => fresh_value n p.1 /\ fresh_memo n p.2) (copy v memo)) l ->
  fresh_memo n memo ->
  safe n (fun p => fresh_memo n p.2) (copy_all copy l memo).
Proof.
  intros Hl. revert memo.
  induction Hl as [|v l Hv Hl IH]; intros memo Hmemo; cbn [copy_all].
  - by apply safe_ret.
  - eapply safe_bind; [by apply Hv|]. intros [c memo1] [_ H1].
    eapply safe_bind; [by apply IH|]. intros [cs memo2] H2.
    by apply safe_ret.
Qed.

Lemma safe_deepcopy_flat v memo :
  fresh_memo n memo ->
  safe n (fun p => fresh_value n p.1 /\ fresh_memo n p.2) (deepcopy_flat v memo).
Proof.
  revert memo. induction v as [| | | | |l IH|l] using value_ind_nested;
    intros memo Hmemo; cbn [deepcopy_flat]; try by apply safe_ret.
  - eapply safe_bind; [by apply safe_copy_all|].
    intros [vs memo1] H1. by apply safe_ret.
  - destruct (list_to_map memo !! l) as [l'|] eqn:Hl.
    + apply safe_ret. split; [|done]. cbn.
      apply elem_of_list_to_map_2 in Hl.
      unfold fresh_memo in Hmemo. rewrite Forall_forall in Hmemo.
      apply (Hmemo (l, l')). done.
    + eapply safe_bind; [by apply safe_same_heap, preserves_expect_array_heap|].
      intros [l0 a] _. intros s r s' Ho H.
      mrun. injection H as <- <-.
      split_and!; [by apply owned_alloc|by apply frame_below_alloc|].
      intros x [= <-]. cbn. split; [apply Ho|].
      constructor; [apply Ho|done].
Qed.

Lemma safe_fmap {A B} (Q : B -> Prop) (g : A -> B) (m : M A) :
  safe n (fun x => Q (g x)) m -> safe n Q (g <$> m).
Proof.
  intros Hm s r s' Ho. unfold fmap, M_fmap.
  destruct (m s) as [r1 s1] eqn:E. intros [= <- <-].
  destruct (Hm _ _ _ Ho E) as (? & ? & Hq). split_and!; [done..|].
  intros y Hy. destruct r1 as [e|x]; [done|]. injection Hy as <-. eauto.
Qed.

Lemma safe_deepcopy v : safe n (fresh_value n) (deepcopy v).
Proof.
  unfold deepcopy, get_state.
  eapply safe_bind; [by apply (safe_reader (fun _ => True))|]. intros s _.
  destruct (geometry_at (heap s) v) as [[l g]|].
  - repeat (eapply safe_bind;
            [apply safe_deepcopy_flat; first [done | by constructor]|];
            intros [? ?] [? ?]; cbn [fst snd] in * ).
    apply safe_alloc_geometry. by split_and!.
  - apply safe_fmap. eapply safe_weaken.
    + apply safe_deepcopy_flat. constructor.
    + by intros [? ?] [? _].
Qed.

(** *** The operations that do not write to the store *)

Lemma safe_getattr k : safe n (fun _ => True) (getattr k).
Proof. by apply safe_reader. Qed.

Lemma safe_lift {A} (r : result A) : safe n (fun _ => True) (lift r).
Proof. by apply safe_reader. Qed.

Lemma safe_number v : safe n (fun _ => True) (number v).
Proof. apply safe_lift. Qed.

Lemma safe_pass v : safe n (fun _ => True) (pass v).
Proof. by apply safe_reader. Qed.

Lemma safe_emit e : safe n (fun _ => True) (emit e).
Proof. apply safe_same_heap. by intros s r s' [= _ <-]. Qed.

Lemma safe_setattr k v : safe n (fun _ => True) (setattr k v).
Proof. apply safe_same_heap. by intros s r s' [= _ <-]. Qed.

Lemma safe_expect_array_any what v : safe n (fun _ => True) (expect_array what v).
Proof. by apply safe_reader. Qed.

Lemma safe_load_array what v : safe n (fun _ => True) (load_array what v).
Proof. by apply safe_reader. Qed.

Lemma safe_geo_attr_any name (proj : geometry -> value) geo :
  safe n (fun _ => True) (geo_attr name proj geo).
Proof.
  unfold geo_attr. eapply safe_bind; [by apply (safe_reader (fun _ => True))|].
  intros [l g] _. by apply safe_ret.
Qed.

Lemma safe_item_of v i : safe n (fun _ => True) (item_of v i).
Proof.
  unfold item_of. eapply safe_bind; [apply safe_expect_array_any|].
  intros [l a] _. apply safe_lift.
Qed.

End Ownership.

Create HintDb safe discriminated.

#[global] Hint Resolve safe_alloc_array safe_deepcopy : safe.
#[global] Hint Resolve safe_getattr safe_lift safe_number safe_pass safe_emit
  safe_setattr safe_item_of | 5 : safe.
#[global] Hint Resolve safe_expect_array_any safe_load_array safe_geo_attr_any
  | 9 : safe.

(** A tactic that follows the structure of a computation; a step on what
    the method allocated is tried before the step on anything. *)
Ltac msafe_leaf :=
  first
    [ apply safe_geo_attr;
        [assumption | intros ? ?; unfold fresh_geometry in *; tauto]
    | apply safe_expect_array; assumption
    | apply safe_load_array_fresh; assumption
    | apply safe_store; [assumption | exact Logic.I]
    | apply safe_set_geo_attr;
        [assumption
        | intros ? ?; unfold fresh_geometry in *;
          cbn [DSD DSO nVoxel sVoxel dVoxel sDetector offOrigin mode]; tauto]
    | solve [eauto with safe] ].

Ltac msafe :=
  lazymatch goal with
  | |- safe _ _ (mbind _ _) =>
      eapply safe_bind;
        [msafe
        |let x := fresh "x" in
         let Hx := fresh "Hx" in
         intros x Hx; cbn beta in Hx; msafe]
  | |- safe _ _ (let '(_, _) := ?p in _) =>
      destruct p; cbn [fst snd] in *; msafe
  | |- _ => msafe_leaf
  end.

Section WeightField.

Context {ext : Collaborators}.

(** [set_w] writes only to the objects it allocated. *)
Lemma safe_set_w n : safe n (fun _ => True) set_w.
Proof. unfold set_w. msafe. Qed.

(** C8.  Whether [set_w] returns or raises, every object of the caller's
    store is afterwards what it was before: the geometry object and each
    array it refers to ([sVoxel], [nVoxel], [dVoxel], [sDetector],
    [offOrigin]) are unchanged, and [self.geo] still refers to that
    geometry.  What [set_w] overwrites ([sVoxel], [nVoxel] and [dVoxel]
    of the copy) was allocated by [copy.deepcopy]. *)
Theorem set_w_leaves_the_geometry (s s' : state) (r : result unit) :
  set_w s = (r, s') ->
  (forall (l : loc) o, heap s !! l = Some o -> heap s' !! l = Some o) /\
  attrs s' !! "geo" = attrs s !! "geo" /\
  (forall v l g, geometry_at (heap s) v = Some (l, g) ->
                 geometry_at (heap s') v = Some (l, g)) /\
  (forall v l a, array_at (heap s) v = Some (l, a) ->
                 array_at (heap s') v = Some (l, a)).
Proof.
  intros H.
  assert (Ho : owned (length (heap s)) s).
  { split; [done|]. intros l g Hl Hlk. apply lookup_lt_Some in Hlk. lia. }
  destruct (safe_set_w _ _ _ _ Ho H) as (_ & Hframe & _).
  assert (Hkeep : forall (l : loc) o,
             heap s !! l = Some o -> heap s' !! l = Some o).
  { intros l o Hlk. rewrite Hframe; [done|]. by eapply lookup_lt_Some. }
  split_and!; [done| | |].
  - apply (preserves_set_w (attrs_outside built)) in H. apply H. by_names.
  - intros v l g Hg. destruct v as [| | | | | |l']; try done.
    unfold geometry_at in *.
    destruct (heap s !! l') as [o|] eqn:Hl; [|done].
    by rewrite (Hkeep _ _ Hl).
  - intros v l a Ha. destruct v as [| | | | | |l']; try done.
    unfold array_at in *.
    destruct (heap s !! l') as [o|] eqn:Hl; [|done].
    by rewrite (Hkeep _ _ Hl).
Qed.

End WeightField.

(** ** The shape of the falloff field *)

Lemma broadcast_rev_refl (s : list nat) : broadcast_rev s s = Some s.
Proof.
  induction s as [|a s IH]; [done|]. cbn. rewrite IH. cbn.
  by rewrite Nat.eqb_refl.
Qed.

Lemma broadcast_shapes_refl (s : list nat) : broadcast_shapes s s = Some s.
Proof.
  unfold broadcast_shapes. rewrite broadcast_rev_refl. cbn.
  by rewrite reverse_involutive.
Qed.

(** A grid with a trailing axis of length 1, against a vector of [k]
    entries: the vector runs along the last axis. *)
Lemma broadcast_shapes_grid (a b k : nat) :
  broadcast_shapes [a; b; 1%nat] [k] = Some [a; b; k].
Proof.
  destruct k as [|[|k]]; reflexivity.
Qed.

Lemma array_op_shape op a b c :
  array_op op a b = inr c ->
  broadcast_shapes (ashape a) (ashape b) = Some (ashape c).
Proof.
  unfold array_op. destruct (broadcast_shapes _ _) as [s|]; [|done].
  by intros [= <-].
Qed.

Lemma array_map_shape g a : ashape (array_map g a) = ashape a.
Proof. reflexivity. Qed.

Lemma array_neg_shape a : ashape (array_neg a) = ashape a.
Proof. unfold array_neg. by destruct (adtype a). Qed.

Lemma scalar_array_op_shape op x a : ashape (scalar_array_op op x a) = ashape a.
Proof. reflexivity. Qed.

Lemma array_scalar_op_shape op a x : ashape (array_scalar_op op a x) = ashape a.
Proof. reflexivity. Qed.

Lemma arange_shape start stop step a :
  arange start stop step = inr a -> ashape a = [length (adata a)].
Proof.
  unfold arange. intros H.
  destruct start, stop, step; repeat case_match; try discriminate;
    injection H as <-; cbn [ashape adata];
    by rewrite length_fmap, length_seq.
Qed.

Lemma column0_shape a c k j :
  ashape a = [k; j] -> column0 a = inr c -> ashape c = [k].
Proof.
  unfold column0. intros ->. destruct (j =? 0)%nat; [done|]. by intros [= <-].
Qed.

Lemma expand_dims_shape a c (n m : nat) :
  ashape a = [n; m] -> expand_dims a 2 = inr c -> ashape c = [n; m; 1%nat].
Proof.
  unfold expand_dims, ndim. intros ->. cbn. by intros [= <-].
Qed.

#[global] Instance unchanged_preorder : PreOrder unchanged.
Proof. split; [by intros s | intros s1 s2 s3 H12 H23; unfold unchanged in *; congruence]. Qed.

Lemma lift_ok {A} (r : result A) s x s' :
  lift r s = (inr x, s') -> s' = s /\ r = inr x.
Proof. by intros [= -> <-]. Qed.

Section FalloffField.

Context {ext : Collaborators}.

Lemma ramp_unchanged geo i : preserves unchanged (ramp geo i).
Proof. unfold ramp. mpres. Qed.

Lemma geo_attr_unchanged name proj geo : preserves unchanged (geo_attr name proj geo).
Proof. unfold geo_attr. mpres. Qed.

Lemma geo_attr_ok name proj geo s v s' :
  geo_attr name proj geo s = (inr v, s') ->
  s' = s /\ exists l g, geometry_at (heap s) geo = Some (l, g) /\ v = proj g.
Proof.
  unfold geo_attr. mrun.
  destruct (geometry_at (heap s) geo) as [[l g]|]; [|done].
  intros [= <- <-]. eauto.
Qed.

Lemma expect_array_ok what v s p s' :
  expect_array what v s = (inr p, s') ->
  s' = s /\ array_at (heap s) v = Some p.
Proof.
  unfold expect_array. destruct (array_at (heap s) v); [|done].
  by intros [= <- <-].
Qed.

Lemma alloc_ok o s v s' :
  alloc o s = (inr v, s') ->
  v = VRef (length (heap s)) /\ s' = set_heap (fun h => h ++ [o]) s.
Proof. by intros [= <- <-]. Qed.

(** C3: what the code does.  In cone-beam mode, with the angles an array
    of [K] rows, the falloff field that [set_v] stores has the shape
    [(nx, ny, K)]: [nx] and [ny] are the numbers of entries of the
    coordinate ramps along the axes 1 and 2 of the volume, and the angle
    axis is the last one.  The claim has the angle axis first, and so
    has the other branch of [set_v]: in parallel mode (line 162) the
    field has the shape [(K, n1, n0)]. *)
Theorem set_v_cone_beam_shape (s s' : state) (angles : ndarray) (K c : nat) :
  cone_beam s ->
  array_attr s "angles" = Some angles -> ashape angles = [K; c] ->
  set_v s = (inr (), s') ->
  exists nx ny V,
    ramp_length 1 s = Some nx /\ ramp_length 2 s = Some ny /\
    array_attr s' "V" = Some V /\ ashape V = [nx; ny; K].
Proof.
  intros (geo & lg & g & Hgeo & Hg & Hmode) Hangles Hshape H.
  unfold set_v in H. mstep H. apply getattr_ok in H0 as [-> Hgeo'].
  rewrite Hgeo in Hgeo'. injection Hgeo' as <-.
  mstep H. apply geo_attr_ok in H0 as (-> & l' & g' & Hg' & ->).
  rewrite Hg in Hg'. injection Hg' as <- <-. rewrite Hmode in H.
  cbn [negb] in H.
  (* the two ramps and the grid *)
  mstep H. rename x into xv. pose proof (ramp_unchanged _ _ _ _ _ H0) as ->.
  mstep H. apply fmap_ok in H1 as (yv & Hyv & ->).
  pose proof (ramp_unchanged _ _ _ _ _ Hyv) as ->.
  unfold meshgrid in H. cbn [adata scalar_array_op] in H.
  mstep H. apply lift_ok in H1 as [-> Hxx].
  mstep H. apply lift_ok in H1 as [-> Hyy].
  eapply expand_dims_shape in Hxx; [|reflexivity].
  eapply expand_dims_shape in Hyy; [|reflexivity].
  rewrite length_fmap in Hxx, Hyy.
  (* the angles *)
  mstep H. destruct x1 as [la a]. mstep H1.
  apply getattr_ok in H2 as [-> Hav].
  apply expect_array_ok in H1 as [-> Ha].
  unfold array_attr in Hangles. rewrite Hav in Hangles. cbn in Hangles.
  rewrite Ha in Hangles. injection Hangles as ->.
  mstep H. apply lift_ok in H1 as [-> Hcol].
  eapply column0_shape in Hcol; [|exact Hshape].
  (* the field *)
  mstep H. apply geo_attr_ok in H1 as (-> & _).
  mstep H. apply lift_ok in H1 as [-> Hys]. apply array_op_shape in Hys.
  mstep H. apply lift_ok in H1 as [-> _].
  mstep H. apply lift_ok in H1 as [-> Hxc]. apply array_op_shape in Hxc.
  mstep H. apply lift_ok in H1 as [-> Hden]. apply array_op_shape in Hden.
  mstep H. apply lift_ok in H1 as [-> Hsq]. apply array_op_shape in Hsq.
  mstep H. apply alloc_ok in H1 as [-> ->].
  mstep H. apply setattr_ok in H1 as [_ ->]. apply setattr_ok in H as [_ ->].
  rewrite ?array_map_shape, ?array_neg_shape, ?scalar_array_op_shape,
    ?array_scalar_op_shape in *.
  rewrite Hyy, Hcol, broadcast_shapes_grid in Hys. injection Hys as Hys.
  rewrite Hxx, Hcol, broadcast_shapes_grid in Hxc. injection Hxc as Hxc.
  rewrite <- Hys, <- Hxc, broadcast_shapes_refl in Hden. injection Hden as Hden.
  rewrite broadcast_shapes_refl in Hsq. injection Hsq as Hsq.
  exists (length (adata xv)), (length (adata yv)), (astype binary32 x8).
  unfold ramp_length. mrun. rewrite Hgeo, H0, Hyv.
  split_and!; [done..| |by cbn [astype ashape]; rewrite <- Hsq, <- Hden].
  unfold array_attr. cbn [attrs set_attrs heap set_heap].
  rewrite lookup_insert_eq. cbn. by rewrite lookup_app_r, Nat.sub_diag.
Qed.

End FalloffField.

(** ** The main loop *)

#[global] Instance quiet_preorder : PreOrder quiet.
Proof.
  split.
  - by intros s.
  - intros s1 s2 s3 [Ha Hc] [Ha' Hc']. unfold quiet. split; congruence.
Qed.

#[global] Instance quiet_tolerant : Tolerant quiet.
Proof. split; by intros s ?. Qed.

Lemma truthy_ok v s b s' :
  truthy v s = (inr b, s') -> s' = s /\ truth (heap s) v = inr b.
Proof. by intros [= -> <-]. Qed.

Lemma pass_ok v s d s' : pass v s = (inr d, s') -> s' = s.
Proof. by intros [= _ <-]. Qed.

Lemma emit_ok e s r s' :
  emit e s = (r, s') ->
  r = inr () /\
  s' = mkstate (attrs s) (heap s) (stdout s) (calls s ++ [e]) (clock_reads s).
Proof. by intros [= <- <-]. Qed.

(** A step that returned without setting an attribute or making a call. *)
Ltac mquiet H :=
  lazymatch type of H with
  | ?m _ = _ =>
      let Hq := fresh "Hq" in
      assert (Hq : preserves quiet m) by mpres;
      apply Hq in H; destruct H as [? ?]
  end.

(** *** Computations that depend on the store alone *)

Lemma heap_only_ret {A} (x : A) : heap_only (mret x : M A).
Proof. by intros s t H. Qed.

Lemma heap_only_bind {A B} (m : M A) (f : A -> M B) :
  heap_only m -> (forall x, heap_only (f x)) -> heap_only (m ≫= f).
Proof.
  intros Hm Hf s t H. rewrite !bind_run.
  destruct (Hm s t H) as [Hr Hh].
  destruct (m s) as [[e|x] s1], (m t) as [[e'|x'] t1]; cbn in *;
    simplify_eq; try done.
  by apply Hf.
Qed.

Lemma heap_only_fmap {A B} (g : A -> B) (m : M A) :
  heap_only m -> heap_only (g <$> m).
Proof.
  intros Hm s t H. unfold fmap, M_fmap.
  destruct (Hm s t H) as [Hr Hh].
  destruct (m s) as [r1 s1], (m t) as [r2 t1]; cbn in *. by subst.
Qed.

Lemma heap_only_alloc o : heap_only (alloc o).
Proof. intros s t H. cbn. by rewrite H. Qed.

Lemma heap_only_mapM {A B} (f : A -> M B) (l : list A) :
  Forall (fun x => heap_only (f x)) l -> heap_only (mapM f l).
Proof.
  induction 1 as [|x l Hx Hl IH]; cbn [mapM].
  - apply heap_only_ret.
  - apply heap_only_bind; [done|]. intros y.
    apply heap_only_bind; [done|]. intros ys. apply heap_only_ret.
Qed.

(** What a collaborator returns is put in the store in a way that depends
    on the store alone. *)
Lemma heap_only_materialize d : heap_only (materialize d).
Proof.
  induction d using data_ind_nested; cbn [materialize];
    try apply heap_only_ret; try apply heap_only_alloc.
  - by apply heap_only_fmap, heap_only_mapM.
  - repeat (apply heap_only_bind; [done|intros ?]). apply heap_only_alloc.
Qed.

Section Loop.

Context {ext : Collaborators}.

Lemma residual_inv s r s' :
  residual s = (inr r, s') ->
  attrs s' = attrs s /\ calls s' = calls s ++ [CallAx "ray-voxel"].
Proof.
  intros H. unfold residual in H.
  mstep H as proj s1 Ea. mquiet Ea.
  mstep H as dres s2 Eb. mquiet Eb.
  mstep H as dgeo s3 Ec. mquiet Ec.
  mstep H as dangles s4 Ed. mquiet Ed.
  mstep H as u s5 Ee. apply emit_ok in Ee as [_ ->].
  mquiet H. cbn in *. split; congruence.
Qed.

(** The residual that [residual] returns is the one the specification
    describes: the projections minus the forward projection of [res]. *)
Lemma residual_is_residual_of s r s' :
  residual s = (inr r, s') -> residual_of s = Some r /\ heap s' = heap s.
Proof.
  intros H. unfold residual in H.
  mstep H as proj s1 Ea. apply getattr_ok in Ea as [-> Hproj].
  mstep H as dres s2 Eb. mstep Eb as res t2 Eb'.
  apply getattr_ok in Eb' as [-> Hres]. injection Eb as <- <-.
  mstep H as dgeo s3 Ec. mstep Ec as geo t3 Ec'.
  apply getattr_ok in Ec' as [-> Hgeo]. injection Ec as <- <-.
  mstep H as dangles s4 Ed. mstep Ed as angles t4 Ed'.
  apply getattr_ok in Ed' as [-> Hangles]. injection Ed as <- <-.
  mstep H as u s5 Ee. apply emit_ok in Ee as [_ ->].
  mstep H as ax s6 Ef. apply lift_ok in Ef as [-> Hax].
  mstep H as st s7 Eg. injection Eg as <- <-.
  cbn [heap] in H.
  unfold residual_of. rewrite Hproj, Hres, Hgeo, Hangles. cbn [mbind option_bind].
  rewrite Hax. cbn [returned mbind option_bind].
  destruct (array_at (heap s) proj) as [[lp p]|].
  - unfold lift in H. destruct (array_op Sub p ax) as [e|x]; [done|].
    by injection H as <- <-.
  - destruct (scalar_of_value proj) as [x|]; [|done].
    by injection H as <- <-.
Qed.

(** What one measurement does, when it returns; [m] is the state in
    which the residual is taken. *)
Lemma error_measurement_inv res_prev i s s' :
  error_measurement res_prev i s = (inr (), s') ->
  exists q vc h (b : bool) m,
    measure_quality res_prev i s = (inr (), m) /\
    attrs s !! "Quameasopts" = Some q /\
    attrs s !! "computel2" = Some vc /\ truth h vc = inr b /\
    (forall k, k ∉ ["lq"; "l2l"] -> attrs s' !! k = attrs s !! k) /\
    (if is_not_none q && (0 <? i)%nat
     then exists l v, log s "lq" = Some l /\ log s' "lq" = Some (l ++ [v])
     else attrs s' !! "lq" = attrs s !! "lq") /\
    (if b
     then exists l v, log s "l2l" = Some l /\ log s' "l2l" = Some (l ++ [v]) /\
                      norm_of_residual m = Some v
     else attrs s' !! "l2l" = attrs s !! "l2l") /\
    calls s' = calls s
               ++ (if is_not_none q && (0 <? i)%nat then [CallMeasureQuality] else [])
               ++ (if b then [CallAx "ray-voxel"; CallNorm] else []).
Proof.
  intros H. unfold error_measurement in H.
  mstep H as u s1 Hquality. destruct u. pose proof Hquality as Hmid.
  unfold measure_quality in Hquality.
  mstep Hquality as q s0 Hq. apply getattr_ok in Hq as [-> Hq].
  unfold measure_residual in H.
  (* the quality log *)
  assert (Hlq : (forall k, k ≠ "lq" -> attrs s1 !! k = attrs s !! k) /\
                (if is_not_none q && (0 <? i)%nat
                 then exists l v, log s "lq" = Some l /\
                                  attrs s1 !! "lq" = Some (VList (l ++ [v]))
                 else attrs s1 !! "lq" = attrs s !! "lq") /\
                calls s1 = calls s ++ (if is_not_none q && (0 <? i)%nat
                                       then [CallMeasureQuality] else [])).
  { destruct (is_not_none q && (0 <? i)%nat).
    - mstep Hquality as l sa Ha. mstep Ha as vl sb Hb.
      apply getattr_ok in Hb as [-> Hl].
      destruct vl as [| | | | |l'|]; try done. injection Ha as <- <-.
      mstep Hquality as dres sc Hc. mquiet Hc.
      mstep Hquality as dprev sd Hd. mquiet Hd.
      mstep Hquality as dopts se He. mquiet He.
      mstep Hquality as u2 sf Hf. apply emit_ok in Hf as [_ ->].
      mstep Hquality as v sg Hg. mquiet Hg.
      apply setattr_ok in Hquality as [_ ->].
      cbn in *. split_and!.
      + intros k Hk. rewrite lookup_insert_ne by done. congruence.
      + exists l', v.
        assert (Hl' : attrs s !! "lq" = Some (VList l')) by congruence.
        unfold log. rewrite Hl'. split; [done|]. by rewrite lookup_insert_eq.
      + congruence.
    - injection Hquality as <-. rewrite app_nil_r. done. }
  clear Hquality. destruct Hlq as (Hother & Hlq & Hcalls).
  (* the residual log *)
  mstep H as b s2 Hb. mstep Hb as vc s3 Hc. apply getattr_ok in Hc as [-> Hc].
  apply truthy_ok in Hb as [-> Hb].
  rewrite Hother in Hc by done.
  assert (Hl2 : (forall k, k ≠ "l2l" -> attrs s' !! k = attrs s1 !! k) /\
                (if b
                 then exists l v, attrs s1 !! "l2l" = Some (VList l) /\
                                  attrs s' !! "l2l" = Some (VList (l ++ [v])) /\
                                  norm_of_residual s1 = Some v
                 else attrs s' !! "l2l" = attrs s1 !! "l2l") /\
                calls s' = calls s1 ++ (if b then [CallAx "ray-voxel"; CallNorm]
                                        else [])).
  { destruct b.
    - mstep H as r sa Ha. pose proof Ha as Hres.
      apply residual_inv in Ha as [Haa Hac].
      mstep H as u2 sb Hb'. apply emit_ok in Hb' as [_ ->].
      mstep H as v sc Hc'.
      assert (Hnorm : norm_of_residual s1 = Some v).
      { mstep Hc' as d sx Hd. apply lift_ok in Hd as [-> Hd].
        apply residual_is_residual_of in Hres as [Hres Hheap].
        unfold norm_of_residual. rewrite Hres. cbn [mbind option_bind].
        rewrite Hd. cbn [returned mbind option_bind].
        destruct (heap_only_materialize d s1
                    (mkstate (attrs sa) (heap sa) (stdout sa)
                       (calls sa ++ [CallNorm]) (clock_reads sa))) as [Hv _];
          [by rewrite Hheap|].
        rewrite Hv, Hc'. done. }
      mquiet Hc'.
      mstep H as l sd Hd. mstep Hd as vl se He.
      apply getattr_ok in He as [-> Hl].
      destruct vl as [| | | | |l'|]; try done. injection Hd as <- <-.
      apply setattr_ok in H as [_ ->].
      cbn in *. split_and!.
      + intros k Hk. rewrite lookup_insert_ne by done. congruence.
      + exists l', v.
        assert (Hl' : attrs s1 !! "l2l" = Some (VList l')) by congruence.
        split_and!; [done| |done]. by rewrite lookup_insert_eq.
      + change [CallAx "ray-voxel"; CallNorm]
          with ([CallAx "ray-voxel"] ++ [CallNorm]).
        rewrite app_assoc. congruence.
    - injection H as <-. rewrite app_nil_r. done. }
  clear H. destruct Hl2 as (Hother2 & Hl2 & Hcalls2).
  exists q, vc, (heap s1), b, s1. split_and!; [done..| | | |].
  - intros k Hk. rewrite Hother2, Hother; [done| |];
      intros ->; apply Hk; by_names.
  - rewrite Hother2 by done. destruct (is_not_none q && (0 <? i)%nat); [|done].
    destruct Hlq as (l & v & Hl & Hl'). exists l, v. split; [done|].
    unfold log. by rewrite Hother2, Hl'.
  - destruct b.
    + destruct Hl2 as (l & v & Hl & Hl' & Hn). exists l, v. unfold log.
      rewrite <- Hother, Hl, Hl' by done. done.
    + rewrite Hl2. by apply Hother.
  - rewrite Hcalls2, Hcalls. by rewrite <- app_assoc.
Qed.

(** What one pass of the loop does up to the measurement, when it
    returns: steps that set no attribute and make no call, and the call
    of the data-minimization method. *)
Lemma minimization_inv q i toc s res_prev toc' mid :
  minimization q i toc s = (inr (res_prev, toc'), mid) ->
  exists dm f s3 a h,
    quiet s s3 /\
    attrs s !! "dataminimizing" = Some (VStr dm) /\
    method dm = Some f /\
    f (attrs s3, heap s3) = (inr (), (a, h)) /\
    mid = mkstate a h (stdout s3) (calls s3 ++ [CallMethod dm]) (clock_reads s3).
Proof.
  intros H. unfold minimization in H.
  mstep H as rp s1 Ea. mquiet Ea.
  mstep H as verbose s2 Eb. mquiet Eb.
  mstep H as toc1 s3 Ec. mquiet Ec.
  mstep H as u s4 Ed. mstep Ed as name s5 Ee.
  apply getattr_ok in Ee as [-> Hname].
  unfold call_method in Ed. destruct name as [| | | |dm| |]; try done.
  mstep Ed as shadowed s6 Ef. apply hasattr_ok in Ef as [-> ->].
  destruct (bool_decide _); [done|].
  destruct (method dm) as [f|] eqn:Hf; [|done].
  mstep Ed as u2 s7 Eg. apply emit_ok in Eg as [_ ->].
  unfold run_method in Ed. cbn [attrs heap stdout calls clock_reads] in Ed.
  destruct (f (attrs s3, heap s3)) as [r [a h]] eqn:Hrun.
  injection Ed as -> <-.
  injection H as _ _ <-.
  exists dm, f, s3, a, h. split_and!; try done.
  - split; congruence.
  - congruence.
  - by destruct u.
Qed.

(** What one pass of the loop does, when it returns. *)
Lemma iteration_inv q i toc s toc' s' :
  iteration q i toc s = (inr toc', s') ->
  exists dm f s3 a h res_prev,
    quiet s s3 /\
    attrs s !! "dataminimizing" = Some (VStr dm) /\
    method dm = Some f /\
    f (attrs s3, heap s3) = (inr (), (a, h)) /\
    minimization q i toc s
    = (inr (res_prev, toc'),
       mkstate a h (stdout s3) (calls s3 ++ [CallMethod dm]) (clock_reads s3)) /\
    error_measurement res_prev i
      (mkstate a h (stdout s3) (calls s3 ++ [CallMethod dm]) (clock_reads s3))
    = (inr (), s').
Proof.
  intros H. unfold iteration in H.
  mstep H as p mid Hmin. destruct p as [rp toc1].
  mstep H as u s8 Eh. injection H as <- <-. destruct u.
  destruct (minimization_inv _ _ _ _ _ _ _ Hmin)
    as (dm & f & s3 & a & h & Hq & Hdm & Hf & Hrun & ->).
  by exists dm, f, s3, a, h, rp.
Qed.

(** *** One pass, when the methods leave the engine's attributes alone *)

Lemma iteration_calls q0 (c : bool) dm q i toc s toc' s' :
  method_frame ["Quameasopts"; "computel2"; "dataminimizing"] ->
  attrs s !! "Quameasopts" = Some q0 ->
  attrs s !! "computel2" = Some (VBool c) ->
  attrs s !! "dataminimizing" = Some (VStr dm) ->
  iteration q i toc s = (inr toc', s') ->
  attrs s' !! "Quameasopts" = Some q0 /\
  attrs s' !! "computel2" = Some (VBool c) /\
  attrs s' !! "dataminimizing" = Some (VStr dm) /\
  calls s' = calls s ++ round_calls (is_not_none q0) c dm i.
Proof.
  intros Hframe Hq Hc Hdm H.
  apply iteration_inv in H
    as (dm' & f & s3 & a & h & rp & [Ha3 Hc3] & Hdm' & Hf & Hrun & Hmin & Hmeasure).
  rewrite Hdm in Hdm'. injection Hdm' as <-.
  pose proof (Hframe _ _ _ _ _ _ _ Hf Hrun) as Hkeep.
  apply error_measurement_inv in Hmeasure
    as (q' & vc & h' & b & m & _ & Hq' & Hvc & Hb & Hother & _ & _ & Hcalls).
  cbn [attrs calls] in *.
  rewrite Hkeep, Ha3, Hq in Hq' by by_names. injection Hq' as <-.
  rewrite Hkeep, Ha3, Hc in Hvc by by_names. injection Hvc as <-.
  cbn in Hb. injection Hb as <-.
  split_and!.
  - rewrite Hother, Hkeep, Ha3 by by_names. done.
  - rewrite Hother, Hkeep, Ha3 by by_names. done.
  - rewrite Hother, Hkeep, Ha3 by by_names. done.
  - rewrite Hcalls, Hc3. unfold round_calls. by rewrite <- !app_assoc.
Qed.

Lemma iteration_lq q0 l q i toc s toc' s' :
  method_frame ["Quameasopts"; "lq"] ->
  attrs s !! "Quameasopts" = Some q0 ->
  log s "lq" = Some l ->
  iteration q i toc s = (inr toc', s') ->
  attrs s' !! "Quameasopts" = Some q0 /\
  exists l', log s' "lq" = Some (l ++ l') /\
             length l' = if is_not_none q0 && (0 <? i)%nat then 1%nat else 0%nat.
Proof.
  intros Hframe Hq Hl H.
  apply iteration_inv in H
    as (dm' & f & s3 & a & h & rp & [Ha3 Hc3] & Hdm' & Hf & Hrun & Hmin & Hmeasure).
  pose proof (Hframe _ _ _ _ _ _ _ Hf Hrun) as Hkeep.
  apply error_measurement_inv in Hmeasure
    as (q' & vc & h' & b & m & _ & Hq' & _ & _ & Hother & Hlq & _ & _).
  cbn [attrs calls] in *.
  rewrite Hkeep, Ha3, Hq in Hq' by by_names. injection Hq' as <-.
  split.
  - rewrite Hother, Hkeep, Ha3 by by_names. done.
  - unfold log in *. cbn [attrs] in Hlq.
    rewrite Hkeep, Ha3 in Hlq by by_names.
    destruct (is_not_none q0 && (0 <? i)%nat).
    + destruct Hlq as (l1 & v & Hl1 & Hl'). rewrite Hl in Hl1.
      injection Hl1 as <-. exists [v]. by rewrite Hl'.
    + exists []. by rewrite Hlq, Hl, app_nil_r.
Qed.

Lemma iteration_l2l (c : bool) l q i toc s toc' s' :
  method_frame ["computel2"; "l2l"] ->
  attrs s !! "computel2" = Some (VBool c) ->
  log s "l2l" = Some l ->
  iteration q i toc s = (inr toc', s') ->
  attrs s' !! "computel2" = Some (VBool c) /\
  exists l', log s' "l2l" = Some (l ++ l') /\
             length l' = (if c then 1%nat else 0%nat) /\
             forall v, v ∈ l' ->
                       exists m, at_residual q i toc s = Some m /\
                                 norm_of_residual m = Some v.
Proof.
  intros Hframe Hc Hl H.
  apply iteration_inv in H
    as (dm' & f & s3 & a & h & rp & [Ha3 Hc3] & Hdm' & Hf & Hrun & Hmin & Hmeasure).
  pose proof (Hframe _ _ _ _ _ _ _ Hf Hrun) as Hkeep.
  apply error_measurement_inv in Hmeasure
    as (q' & vc & h' & b & m & Hm & _ & Hvc & Hb & Hother & _ & Hl2 & _).
  cbn [attrs calls] in *.
  rewrite Hkeep, Ha3, Hc in Hvc by by_names. injection Hvc as <-.
  cbn in Hb. injection Hb as <-.
  split.
  - rewrite Hother, Hkeep, Ha3 by by_names. done.
  - unfold log in *. cbn [attrs] in Hl2.
    rewrite Hkeep, Ha3 in Hl2 by by_names.
    destruct c.
    + destruct Hl2 as (l1 & v & Hl1 & Hl' & Hn). rewrite Hl in Hl1.
      injection Hl1 as <-. exists [v]. rewrite Hl'.
      split_and!; [done..|]. intros v' ->%list_elem_of_singleton.
      exists m. split; [|done].
      unfold at_residual. rewrite bind_run, Hmin. by rewrite Hm.
    + exists []. rewrite Hl2, Hl, app_nil_r.
      split_and!; [done..|]. by intros v Hv%elem_of_nil.
Qed.

End Loop.

(** ** The whole run *)

Lemma filter_positive_seq (k n : nat) :
  (0 < k)%nat -> filter (fun i => (0 < i)%nat) (seq k n) = seq k n.
Proof.
  revert k. induction n as [|n IH]; intros k Hk; [done|]. cbn [seq].
  rewrite filter_cons_True by done. rewrite IH by lia. done.
Qed.

Lemma count_later_passes (n : nat) :
  length (filter (fun i => (0 < i)%nat) (seq 0 n)) = (n - 1)%nat.
Proof.
  destruct n as [|n]; [done|]. cbn [seq].
  rewrite filter_cons_False by lia.
  rewrite filter_positive_seq, length_seq by lia. lia.
Qed.

Section Run.

Context {ext : Collaborators}.

Lemma iterations_calls q0 (c : bool) dm q range toc s s' :
  method_frame ["Quameasopts"; "computel2"; "dataminimizing"] ->
  attrs s !! "Quameasopts" = Some q0 ->
  attrs s !! "computel2" = Some (VBool c) ->
  attrs s !! "dataminimizing" = Some (VStr dm) ->
  iterations q range toc s = (inr (), s') ->
  calls s' = calls s ++ concat (round_calls (is_not_none q0) c dm <$> range).
Proof.
  intros Hframe. revert toc s.
  induction range as [|i range IH]; intros toc s Hq Hc Hdm H; cbn [iterations] in H.
  - injection H as <-. cbn. by rewrite app_nil_r.
  - mstep H as toc1 s1 Hi.
    eapply iteration_calls in Hi as (Hq1 & Hc1 & Hdm1 & Hcalls); [|done..].
    rewrite (IH _ _ Hq1 Hc1 Hdm1 H), Hcalls. cbn. by rewrite <- app_assoc.
Qed.

Lemma iterations_lq q0 l q range toc s s' :
  method_frame ["Quameasopts"; "lq"] ->
  attrs s !! "Quameasopts" = Some q0 ->
  log s "lq" = Some l ->
  iterations q range toc s = (inr (), s') ->
  attrs s' !! "Quameasopts" = Some q0 /\
  exists l', log s' "lq" = Some (l ++ l') /\
             length l' = if is_not_none q0
                         then length (filter (fun i => (0 < i)%nat) range)
                         else 0%nat.
Proof.
  intros Hframe. revert toc s l.
  induction range as [|i range IH]; intros toc s l Hq Hl H; cbn [iterations] in H.
  - injection H as <-. split; [done|].
    exists []. rewrite app_nil_r. by destruct (is_not_none q0).
  - mstep H as toc1 s1 Hi.
    eapply iteration_lq in Hi as (Hq1 & l1 & Hl1 & Hn1); [|done..].
    destruct (IH _ _ _ Hq1 Hl1 H) as (Hq2 & l2 & Hl2 & Hn2).
    split; [done|].
    exists (l1 ++ l2). rewrite app_assoc. split; [done|].
    rewrite length_app, Hn1, Hn2.
    destruct (is_not_none q0); cbn [andb]; [|done].
    destruct i as [|i].
    + rewrite filter_cons_False by lia. done.
    + rewrite filter_cons_True by lia. done.
Qed.

Lemma iterations_l2l (c : bool) l q range toc s s' :
  method_frame ["computel2"; "l2l"] ->
  attrs s !! "computel2" = Some (VBool c) ->
  log s "l2l" = Some l ->
  iterations q range toc s = (inr (), s') ->
  attrs s' !! "computel2" = Some (VBool c) /\
  exists l', log s' "l2l" = Some (l ++ l') /\
             length l' = (if c then length range else 0%nat).
Proof.
  intros Hframe. revert toc s l.
  induction range as [|i range IH]; intros toc s l Hc Hl H; cbn [iterations] in H.
  - injection H as <-. split; [done|].
    exists []. rewrite app_nil_r. by destruct c.
  - mstep H as toc1 s1 Hi.
    eapply iteration_l2l in Hi as (Hc1 & l1 & Hl1 & Hn1 & _); [|done..].
    destruct (IH _ _ _ Hc1 Hl1 H) as (Hc2 & l2 & Hl2 & Hn2).
    split; [done|].
    exists (l1 ++ l2). rewrite app_assoc. split; [done|].
    rewrite length_app, Hn1, Hn2. by destruct c.
Qed.

(** A run of the passes [r1 ++ r2] is a run of [r1] followed by a run of
    [r2]. *)
Lemma iterations_app q r1 r2 toc s s' :
  iterations q (r1 ++ r2) toc s = (inr (), s') ->
  exists s1 toc1,
    iterations q r1 toc s = (inr (), s1) /\
    iterations q r2 toc1 s1 = (inr (), s').
Proof.
  revert toc s. induction r1 as [|i r1 IH]; intros toc s H;
    cbn [app iterations] in *.
  - by exists s, toc.
  - mstep H as toc1 s1 Hi. destruct (IH _ _ H) as (s2 & toc2 & H1 & H2).
    exists s2, toc2. split; [|done]. by rewrite bind_run, Hi.
Qed.

(** The first [k] of [n] passes. *)
Lemma iterations_first q (k n : nat) s s' :
  (k <= n)%nat ->
  iterations q (seq 0 n) None s = (inr (), s') ->
  exists sk toc,
    iterations q (seq 0 k) None s = (inr (), sk) /\
    iterations q (seq k (n - k)) toc sk = (inr (), s').
Proof.
  intros Hk H.
  replace n with (k + (n - k))%nat in H at 1 by lia.
  rewrite seq_app in H. by apply iterations_app in H.
Qed.

(** The loop of [run_main_iter], once the attributes it reads first are
    known. *)
Lemma run_main_iter_inv q (niter : Z) s s' :
  attrs s !! "Quameasopts" = Some q ->
  attrs s !! "niter" = Some (VInt niter) ->
  run_main_iter s = (inr (), s') ->
  iterations q (seq 0 (Z.to_nat niter)) None s = (inr (), s').
Proof.
  intros Hq Hn H. unfold run_main_iter in H.
  mstep H as q' s1 E1. apply getattr_ok in E1 as [-> Hq'].
  rewrite Hq in Hq'. injection Hq' as <-.
  mstep H as range s2 E2. mstep E2 as n s3 E3.
  apply getattr_ok in E3 as [-> Hn']. rewrite Hn in Hn'. injection Hn' as <-.
  cbn in E2. by injection E2 as <- <-.
Qed.

(** C1, as the code has it.  In an engine built with iteration count
    [niter] whose [dataminimizing] option names the method [dm],
    [run_main_iter] makes [niter] passes when it returns, and the calls
    it makes are, pass after pass, the method [dm] followed by the
    measurements of [error_measurement]: the quality measurement from
    the second pass on when [Quameasopts] is set, the projection and the
    norm of the residual when [computel2] is set.  The method that the
    [regularisation] option names is not called. *)
Theorem run_main_iter_calls proj geo angles (niter : Z) kwargs (c : bool) dm s0 s1 s2 :
  method_frame ["Quameasopts"; "computel2"; "dataminimizing"] ->
  kwargs !! "niter" = None ->
  default (VBool false) (kwargs !! "computel2") = VBool c ->
  default (VStr "art_data_minimizing") (kwargs !! "dataminimizing") = VStr dm ->
  __init__ proj geo angles (VInt niter) kwargs s0 = (inr (), s1) ->
  run_main_iter s1 = (inr (), s2) ->
  let quality := is_not_none (default VNone (kwargs !! "Quameasopts")) in
  calls s2 = calls s1
             ++ concat (round_calls quality c dm <$> seq 0 (Z.to_nat niter)) /\
  method_calls s2 = method_calls s1 ++ replicate (Z.to_nat niter) (CallMethod dm).
Proof.
  intros Hframe Hk Hc Hdm Hinit Hrun quality.
  pose proof (constructed_niter _ _ _ _ _ _ _ Hk Hinit) as Hn.
  pose proof (constructed_option _ _ _ _ _ _ _ "Quameasopts" VNone
                eq_refl ltac:(by_names) Hinit) as Hq.
  pose proof (constructed_option _ _ _ _ _ _ _ "computel2" (VBool false)
                eq_refl ltac:(by_names) Hinit) as Hc'.
  pose proof (constructed_option _ _ _ _ _ _ _ "dataminimizing"
                (VStr "art_data_minimizing") eq_refl ltac:(by_names) Hinit) as Hdm'.
  rewrite Hc in Hc'. rewrite Hdm in Hdm'.
  apply (run_main_iter_inv _ _ _ _ Hq Hn) in Hrun.
  pose proof (iterations_calls _ _ _ _ _ _ _ _ Hframe Hq Hc' Hdm' Hrun) as Hcalls.
  split; [exact Hcalls|].
  unfold method_calls. rewrite Hcalls, filter_app. f_equal.
  replace (replicate (Z.to_nat niter) (CallMethod dm))
    with (replicate (length (seq 0 (Z.to_nat niter))) (CallMethod dm))
    by (by rewrite length_seq).
  generalize (seq 0 (Z.to_nat niter)) as range.
  induction range as [|i range IH]; [reflexivity|].
  cbn [fmap list_fmap concat length replicate].
  rewrite filter_app, IH.
  change (CallMethod dm :: ?l) with ([CallMethod dm] ++ l). f_equal.
  unfold round_calls. destruct (_ && (0 <? i)%nat), c; reflexivity.
Qed.

Lemma constructed_logs proj geo angles niter kwargs s0 s1 :
  __init__ proj geo angles niter kwargs s0 = (inr (), s1) ->
  log s1 "lq" = Some [] /\ log s1 "l2l" = Some [].
Proof.
  intros H. unfold __init__ in H. mstep H as u sa Ha.
  apply build_state_ok in H as (Hlq & Hl2 & _). unfold log.
  by rewrite Hlq, Hl2.
Qed.

(** C5.  Build an engine with iteration count [niter] and run it.  With
    quality tracking enabled ([Quameasopts] is not [None]) the quality
    log has [niter - 1] entries after the run (none for a run of no
    pass); with quality tracking disabled it is empty.  The first pass
    appends no entry and every later pass appends one: after the first
    [k] passes the log holds the first [k - 1] entries of the final log,
    so it is empty after the first pass. *)
Theorem quality_log_length proj geo angles (niter : Z) kwargs s0 s1 s2 :
  method_frame ["Quameasopts"; "lq"] ->
  kwargs !! "niter" = None ->
  __init__ proj geo angles (VInt niter) kwargs s0 = (inr (), s1) ->
  run_main_iter s1 = (inr (), s2) ->
  exists lq,
    log s2 "lq" = Some lq /\
    Z.of_nat (length lq) =
      (if is_not_none (default VNone (kwargs !! "Quameasopts"))
       then Z.max 0 (niter - 1) else 0) /\
    forall k : nat,
      Z.of_nat k <= Z.max 0 niter ->
      exists sk, after_passes k s1 = Some sk /\
                 log sk "lq" = Some (take (k - 1) lq).
Proof.
  intros Hframe Hk Hinit Hrun.
  pose proof (constructed_niter _ _ _ _ _ _ _ Hk Hinit) as Hn.
  pose proof (constructed_option _ _ _ _ _ _ _ "Quameasopts" VNone
                eq_refl ltac:(by_names) Hinit) as Hq.
  destruct (constructed_logs _ _ _ _ _ _ _ Hinit) as [Hlq _].
  apply (run_main_iter_inv _ _ _ _ Hq Hn) in Hrun.
  destruct (iterations_lq _ _ _ _ _ _ _ Hframe Hq Hlq Hrun) as (_ & l & Hl & Hlen).
  exists l. split_and!; [exact Hl| |].
  { rewrite Hlen. destruct (is_not_none _); [|done].
    rewrite count_later_passes. lia. }
  intros k Hkn.
  assert (Hle : (k <= Z.to_nat niter)%nat) by lia.
  destruct (iterations_first _ k _ _ _ Hle Hrun) as (sk & toc & H1 & H2).
  exists sk. split.
  { unfold after_passes. rewrite Hq. cbn [mbind option_bind]. by rewrite H1. }
  destruct (iterations_lq _ _ _ _ _ _ _ Hframe Hq Hlq H1) as (Hqk & lk & Hlk & Hnk).
  destruct (iterations_lq _ _ _ _ _ _ _ Hframe Hqk Hlk H2) as (_ & lr & Hlr & Hnr).
  rewrite Hl in Hlr. injection Hlr as ->. rewrite Hlk. f_equal.
  cbn [app]. destruct (is_not_none _).
  - rewrite count_later_passes in Hnk. by rewrite take_app_length'.
  - destruct lk; [|done]. destruct lr; [|done]. by destruct (k - 1)%nat.
Qed.

(** C6.  Build an engine with iteration count [niter] and run it.  With
    residual tracking enabled ([computel2] is true) the residual log has
    [niter] entries after the run, and with residual tracking disabled it
    is empty.  Every pass appends one entry: after the first [k] passes
    the log holds the first [k] entries of the final log.  The entry at
    index [k] is the value of the order-2 norm [im3DNORM(., 2)] of the
    measured projections minus the forward projection
    [Ax(res, geo, angles, 'ray-voxel')] of the current volume, taken in
    the pass at index [k] when the data-minimization method has
    returned. *)
Theorem residual_log_length proj geo angles (niter : Z) kwargs (c : bool) s0 s1 s2 :
  method_frame ["computel2"; "l2l"] ->
  kwargs !! "niter" = None ->
  default (VBool false) (kwargs !! "computel2") = VBool c ->
  __init__ proj geo angles (VInt niter) kwargs s0 = (inr (), s1) ->
  run_main_iter s1 = (inr (), s2) ->
  exists l2l,
    log s2 "l2l" = Some l2l /\
    Z.of_nat (length l2l) = (if c then Z.max 0 niter else 0) /\
    (forall k : nat,
       Z.of_nat k <= Z.max 0 niter ->
       exists sk, after_passes k s1 = Some sk /\
                  log sk "l2l" = Some (take k l2l)) /\
    (forall (k : nat) v,
       l2l !! k = Some v ->
       exists sk toc m,
         after_passes k s1 = Some sk /\
         at_residual (default VNone (kwargs !! "Quameasopts")) k toc sk = Some m /\
         norm_of_residual m = Some v).
Proof.
  intros Hframe Hk Hc Hinit Hrun.
  pose proof (constructed_niter _ _ _ _ _ _ _ Hk Hinit) as Hn.
  pose proof (constructed_option _ _ _ _ _ _ _ "Quameasopts" VNone
                eq_refl ltac:(by_names) Hinit) as Hq.
  pose proof (constructed_option _ _ _ _ _ _ _ "computel2" (VBool false)
                eq_refl ltac:(by_names) Hinit) as Hc'.
  rewrite Hc in Hc'.
  destruct (constructed_logs _ _ _ _ _ _ _ Hinit) as [_ Hl2].
  apply (run_main_iter_inv _ _ _ _ Hq Hn) in Hrun.
  destruct (iterations_l2l _ _ _ _ _ _ _ Hframe Hc' Hl2 Hrun)
    as (_ & l & Hl & Hlen).
  cbn [app] in Hl. rewrite length_seq in Hlen.
  assert (Hpasses : forall k : nat, (k <= Z.to_nat niter)%nat ->
            exists sk toc lr,
              iterations (default VNone (kwargs !! "Quameasopts")) (seq 0 k) None s1
              = (inr (), sk) /\
              iterations (default VNone (kwargs !! "Quameasopts"))
                (seq k (Z.to_nat niter - k)) toc sk = (inr (), s2) /\
              attrs sk !! "computel2" = Some (VBool c) /\
              log sk "l2l" = Some (take k l) /\
              l = take k l ++ lr /\
              length (take k l) = (if c then k else 0%nat)).
  { intros k Hkn.
    destruct (iterations_first _ k _ _ _ Hkn Hrun) as (sk & toc & H1 & H2).
    destruct (iterations_l2l _ _ _ _ _ _ _ Hframe Hc' Hl2 H1)
      as (Hck & lk & Hlk & Hnk).
    destruct (iterations_l2l _ _ _ _ _ _ _ Hframe Hck Hlk H2)
      as (_ & lr & Hlr & Hnr).
    rewrite Hl in Hlr. injection Hlr as ->. cbn [app] in *.
    rewrite length_seq in Hnk.
    assert (Htake : take k (lk ++ lr) = lk).
    { destruct c.
      - by rewrite take_app_length'.
      - destruct lk; [|done]. destruct lr; [|done]. by destruct k. }
    exists sk, toc, lr. rewrite Htake. by split_and!. }
  exists l. split_and!; [exact Hl| | |].
  - rewrite Hlen. destruct c; lia.
  - intros k Hkn. destruct (Hpasses k ltac:(lia)) as (sk & toc & lr & H1 & _ & _ & Hlk & _).
    exists sk. split; [|done].
    unfold after_passes. rewrite Hq. cbn [mbind option_bind]. by rewrite H1.
  - intros k v Hv. pose proof (lookup_lt_Some _ _ _ Hv) as Hlt.
    destruct c; [|rewrite Hlen in Hlt; lia]. rewrite Hlen in Hlt.
    destruct (Hpasses k ltac:(lia)) as (sk & toc & lr & H1 & H2 & Hck & Hlk & Hsplit & Hnk).
    exists sk, toc.
    replace (Z.to_nat niter - k)%nat with (S (Z.to_nat niter - S k)) in H2 by lia.
    cbn [seq iterations] in H2. mstep H2 as toc1 sk' Hi.
    eapply iteration_l2l in Hi as (Hc1 & l1 & Hl1 & Hn1 & Hnorm); [|done..].
    destruct (iterations_l2l _ _ _ _ _ _ _ Hframe Hc1 Hl1 H2) as (_ & l3 & Hl3 & _).
    rewrite Hl in Hl3. injection Hl3 as Hl3.
    destruct l1 as [|x [|? ?]]; try done.
    assert (Hx : l !! k = Some x).
    { rewrite Hl3 at 1. rewrite <- app_assoc. cbn [app].
      apply list_lookup_middle. by rewrite Hnk. }
    rewrite Hv in Hx. injection Hx as ->.
    destruct (Hnorm x) as (m & Hm & Hvm); [by apply list_elem_of_singleton|].
    exists m. split_and!; [|done..].
    unfold after_passes. rewrite Hq. cbn [mbind option_bind]. by rewrite H1.
Qed.

End Run.

(** ** Which builders the constructor runs *)

Lemma attrs_outside_setattr ks k v :
  k ∈ ks -> preserves (attrs_outside ks) (setattr k v).
Proof.
  intros Hin s r s' [= <- <-] k' Hk'. cbn.
  apply lookup_insert_ne. by intros ->.
Qed.

Lemma attrs_outside_emit ks e : preserves (attrs_outside ks) (emit e).
Proof. by intros s r s' [= <- <-] k Hk. Qed.

#[global] Hint Extern 0 (preserves (attrs_outside _) (setattr _ _)) =>
  apply attrs_outside_setattr; by_names : frames.
#[global] Hint Resolve attrs_outside_emit : frames.

(** The calls made grow by [t]. *)
Lemma emit_calls e s r s' : emit e s = (r, s') -> calls s' = calls s ++ [e].
Proof. by intros [= _ <-]. Qed.

#[global] Instance calls_extend_preorder : PreOrder calls_extend.
Proof.
  split.
  - intros s. exists []. by rewrite app_nil_r.
  - intros s1 s2 s3 [t Ht] [t' Ht']. exists (t ++ t').
    by rewrite Ht', Ht, app_assoc.
Qed.

#[global] Instance calls_extend_tolerant : Tolerant calls_extend.
Proof. split; intros s ?; exists []; cbn; by rewrite app_nil_r. Qed.

#[global] Instance calls_extend_builder : BuilderFrame calls_extend.
Proof.
  split.
  - intros e _ s r s' [= <- <-]. by exists [e].
  - intros k v _ s r s' [= <- <-]. exists []. cbn. by rewrite app_nil_r.
Qed.

Section Skipping.

Context {ext : Collaborators}.

Lemma normalise_angles_attrs : preserves (attrs_outside ["angles"]) normalise_angles.
Proof. unfold normalise_angles. mpres. Qed.

Lemma set_w_attrs : preserves (attrs_outside ["W"]) set_w.
Proof. unfold set_w. mpres. Qed.

Lemma set_v_attrs : preserves (attrs_outside ["V"]) set_v.
Proof. unfold set_v. mpres. Qed.

Lemma set_res_attrs : preserves (attrs_outside ["res"]) set_res.
Proof. unfold set_res. mpres. Qed.

Lemma set_angle_index_attrs :
  preserves (attrs_outside ["angleblocks"; "angle_index"]) set_angle_index.
Proof. unfold set_angle_index. mpres. Qed.

(** A builder that runs only when the attribute [name] is missing, and
    sets no other attribute, keeps an attribute that is set. *)
Lemma guarded_builder_keeps name (builder : M unit) k v s r s' :
  preserves (attrs_outside [name]) builder ->
  attrs s !! k = Some v ->
  when (negb (bool_decide (is_Some (attrs s !! name)))) builder s = (r, s') ->
  attrs s' !! k = Some v.
Proof.
  intros Hb Hk H. destruct (decide (k = name)) as [->|Hne].
  - rewrite bool_decide_true in H by (by eexists). by injection H as _ <-.
  - destruct (negb _); cbn [when] in H.
    + apply Hb in H. rewrite H; [done|]. set_solver.
    + by injection H as _ <-.
Qed.

(** The part of C2 that holds: a weight field, a falloff field or a
    volume estimate that the caller supplies as a keyword argument is
    the attribute of that name in the engine built, its builder was not
    run. *)
Lemma supplied_quantity_is_kept proj geo angles niter kwargs k v s0 s1 :
  k ∈ ["W"; "V"; "res"] ->
  kwargs !! k = Some v ->
  __init__ proj geo angles niter kwargs s0 = (inr (), s1) ->
  attrs s1 !! k = Some v.
Proof.
  intros Hin Hk H. unfold __init__ in H. mstep H as u sa Ha.
  apply init_options_attrs in Ha.
  assert (Hsa : attrs sa !! k = Some v).
  { rewrite Ha. by apply lookup_union_Some_l. }
  clear Ha. unfold build_state in H.
  mstep H as u1 s1' E1. apply normalise_angles_attrs in E1.
  rewrite <- E1 in Hsa by (intros Hx; set_solver).
  mstep H as hw s2 E2. apply hasattr_ok in E2 as [-> ->].
  mstep H as u2 s3 E3.
  eapply guarded_builder_keeps in E3; [|apply set_w_attrs|exact Hsa].
  mstep H as hv s4 E4. apply hasattr_ok in E4 as [-> ->].
  mstep H as u3 s5 E5.
  eapply guarded_builder_keeps in E5; [|apply set_v_attrs|exact E3].
  mstep H as hr s6 E6. apply hasattr_ok in E6 as [-> ->].
  mstep H as u4 s7 E7.
  eapply guarded_builder_keeps in E7; [|apply set_res_attrs|exact E5].
  mstep H as hi s8 E8. apply hasattr_ok in E8 as [-> ->].
  mstep H as hb s9 E9. apply hasattr_ok in E9 as [-> ->].
  mstep H as u5 s10 E10.
  assert (Hs10 : attrs s10 !! k = Some v).
  { destruct (negb _); cbn [when] in E10.
    - apply set_angle_index_attrs in E10. rewrite E10; [done|]. set_solver.
    - by injection E10 as _ <-. }
  mstep H as u6 s11 E11. apply setattr_ok in E11 as [_ ->].
  apply setattr_ok in H as [_ ->]. cbn.
  rewrite !lookup_insert_ne by (intros <-; set_solver). done.
Qed.

(** The builders and the last two lines of the constructor keep every
    attribute but the ones in [rebuilt]. *)
Lemma build_state_keeps k v s s' :
  k ∉ rebuilt ->
  attrs s !! k = Some v ->
  build_state s = (inr (), s') ->
  attrs s' !! k = Some v.
Proof.
  intros Hk Hs H. unfold build_state in H.
  mstep H as u1 s1 E1. apply normalise_angles_attrs in E1.
  rewrite <- E1 in Hs by (intros Hx; apply Hk; set_solver).
  mstep H as hw s2 E2. apply hasattr_ok in E2 as [-> ->].
  mstep H as u2 s3 E3.
  eapply guarded_builder_keeps in E3; [|apply set_w_attrs|exact Hs].
  mstep H as hv s4 E4. apply hasattr_ok in E4 as [-> ->].
  mstep H as u3 s5 E5.
  eapply guarded_builder_keeps in E5; [|apply set_v_attrs|exact E3].
  mstep H as hr s6 E6. apply hasattr_ok in E6 as [-> ->].
  mstep H as u4 s7 E7.
  eapply guarded_builder_keeps in E7; [|apply set_res_attrs|exact E5].
  mstep H as hi s8 E8. apply hasattr_ok in E8 as [-> ->].
  mstep H as hb s9 E9. apply hasattr_ok in E9 as [-> ->].
  mstep H as u5 s10 E10.
  assert (Hs10 : attrs s10 !! k = Some v).
  { destruct (negb _); cbn [when] in E10.
    - apply set_angle_index_attrs in E10. rewrite E10; [done|].
      intros Hx. apply Hk. set_solver.
    - by injection E10 as _ <-. }
  mstep H as u6 s11 E11. apply setattr_ok in E11 as [_ ->].
  apply setattr_ok in H as [_ ->]. cbn.
  rewrite !lookup_insert_ne by (intros <-; apply Hk; set_solver). done.
Qed.

Lemma set_angle_index_calls s s' :
  set_angle_index s = (inr (), s') -> CallOrderSubsets ∈ calls s'.
Proof.
  intros H. unfold set_angle_index in H.
  mstep H as da sa Ea. mquiet Ea.
  mstep H as db sb Eb. mquiet Eb.
  mstep H as dc sc Ec. mquiet Ec.
  mstep H as u sd Ed. apply emit_calls in Ed.
  match type of H with
  | ?m _ = _ => assert (Hp : preserves calls_extend m) by mpres; apply Hp in H
  end.
  destruct H as [t ->]. rewrite Ed. set_solver.
Qed.

(** The defect behind C2: the guard of [set_angle_index] asks for an
    attribute [angleindex], while the builder sets, and the allowed
    keywords name, [angle_index].  Unless the caller passes a keyword
    [angleindex], the schedule is built, also when [angleblocks] and
    [angle_index] were supplied. *)
Lemma angle_schedule_is_rebuilt proj geo angles niter kwargs h s1 :
  kwargs !! "angleindex" = None ->
  __init__ proj geo angles niter kwargs (fresh h) = (inr (), s1) ->
  CallOrderSubsets ∈ calls s1.
Proof.
  intros Hk H. unfold __init__ in H. mstep H as u sa Ha.
  apply init_options_attrs in Ha.
  assert (Hsa : attrs sa !! "angleindex" = None).
  { rewrite Ha. rewrite lookup_union_r by done. rewrite lookup_union_r by done.
    by rewrite !lookup_insert_ne. }
  clear Ha. unfold build_state in H.
  mstep H as u1 s1' E1.
  apply (preserves_normalise_angles (attrs_outside built)) in E1.
  mstep H as hw s2 E2. apply hasattr_ok in E2 as [-> ->].
  mstep H as u2 s3 E3.
  mstep H as hv s4 E4. apply hasattr_ok in E4 as [-> ->].
  mstep H as u3 s5 E5.
  mstep H as hr s6 E6. apply hasattr_ok in E6 as [-> ->].
  mstep H as u4 s7 E7.
  mstep H as hi s8 E8. apply hasattr_ok in E8 as [-> ->].
  mstep H as hb s9 E9. apply hasattr_ok in E9 as [-> ->].
  mstep H as u5 s10 E10.
  mstep H as u6 s11 E11. apply setattr_ok in E11 as [_ ->].
  apply setattr_ok in H as [_ ->]. cbn [calls set_attrs].
  repeat match goal with
         | E : when ?b ?m ?s = _ |- _ =>
             lazymatch m with
             | set_angle_index => fail
             | _ =>
                 let Hp := fresh "Hp" in
                 assert (Hp : preserves (attrs_outside built) (when b m)) by mpres;
                 apply Hp in E
             end
         end.
  assert (Hs7 : attrs s7 !! "angleindex" = None).
  { unfold attrs_outside in *. rewrite E7, E5, E3, E1 by by_names. exact Hsa. }
  rewrite bool_decide_false in E10 by (rewrite Hs7; by intros [? ?]).
  cbn in E10. destruct u5. by apply set_angle_index_calls in E10.
Qed.

End Skipping.

(** ** The keyword arguments in the engine built *)

Section Keywords.

Context {ext : Collaborators}.

(** C10, as the code has it.  Whatever the keyword arguments are,
    recognised or not, the option phase of the constructor (lines 85 to
    102) does not raise when the [verbose] flag has a truth value [b]
    (every value has one but an array of more than one element): every
    keyword argument is then an instance attribute with the value
    passed, in place of the default of that name if there is one, the
    defaults of the other names are kept, and what is printed is one
    warning per unrecognised keyword when [b] is true and nothing when
    it is false.  In the engine that the constructor returns, a keyword
    argument is still the attribute of its name unless the name is one
    of those the constructor sets afterwards: [angles], [angleblocks],
    [angle_index] and the logs [lq] and [l2l]. *)
Theorem init_options_keeps_every_keyword
    (proj geo angles niter : value) (kwargs : gmap string value)
    (b : bool) (s : state) :
  truth (heap s) (verbose_flag kwargs) = inr b ->
  exists s',
    init_options proj geo angles niter kwargs s = (inr (), s') /\
    (forall kw v, kwargs !! kw = Some v -> attrs s' !! kw = Some v) /\
    (forall kw v, kwargs !! kw = None -> options !! kw = Some v ->
                  attrs s' !! kw = Some v) /\
    stdout s' = stdout s ++ (if b then warning <$> unrecognised kwargs else []) /\
    heap s' = heap s /\ calls s' = calls s /\
    (forall s1 kw v,
       __init__ proj geo angles niter kwargs s = (inr (), s1) ->
       kwargs !! kw = Some v -> kw ∉ rebuilt -> attrs s1 !! kw = Some v).
Proof.
  intros Hflag.
  assert (Hv : forall d : gmap string value,
             (kwargs ∪ (options ∪ d)) !! "verbose" = Some (verbose_flag kwargs)).
  { intros d. unfold verbose_flag.
    destruct (kwargs !! "verbose") as [v|] eqn:Hk; cbn [default].
    - by apply lookup_union_Some_l.
    - rewrite lookup_union_r by done. by apply lookup_union_Some_l. }
  assert (Hrun : init_options proj geo angles niter kwargs s
                 = (inr (),
                    mkstate (kwargs ∪ (options ∪ <["niter" := niter]>
                               (<["geo" := geo]> (<["angles" := angles]>
                                  (<["proj" := proj]> (attrs s))))))
                      (heap s)
                      (stdout s ++ (if b then warning <$> unrecognised kwargs else []))
                      (calls s) (clock_reads s))).
  { unfold init_options. mrun.
    rewrite (warn_unrecognised_truth (verbose_flag kwargs) b);
      [reflexivity|apply Hv|exact Hflag]. }
  eexists. split; [exact Hrun|].
  cbn [attrs heap stdout calls].
  split_and!; try reflexivity.
  - intros kw v Hk. by apply lookup_union_Some_l.
  - intros kw v Hk Ho. rewrite lookup_union_r by done.
    by apply lookup_union_Some_l.
  - intros s1 kw v Hinit Hk Hkw. unfold __init__ in Hinit.
    rewrite bind_run, Hrun in Hinit.
    eapply build_state_keeps; [exact Hkw| |exact Hinit].
    by apply lookup_union_Some_l.
Qed.

End Keywords.
(** ** The weight field is finite and not below zero *)







(** *** The shift to the right *)





Section Rounding.

Variables prec emax : Z.
Hypothesis prec_pos : 0 < prec.
Hypothesis emax_big : 2 <= emax.





End Rounding.

(** *** One weight *)





(** *** The array of weights *)



(** *** The steps of [set_w] *)





Section Weights.

Context {ext : Collaborators}.




End Weights.

(** ** The constructor, builder by builder *)

Lemma load_array_ok what v s p s' :
  load_array what v s = (inr p, s') -> s' = s /\ array_at (heap s) v = Some p.
Proof.
  unfold load_array. destruct (array_at (heap s) v); [|done].
  by intros [= <- <-].
Qed.

(** Evaluation of the steps whose outcome is known. *)
Ltac mgo :=
  repeat (first
            [ rewrite bind_run
            | rewrite ret_run
            | progress unfold getattr, hasattr, pass, emit, lift, alloc, setattr,
                print, get_state, truthy, set_attrs, set_heap, mret, result_ret,
                M_ret
            | progress cbn [attrs heap stdout calls clock_reads or_raise when
                              truth]
            | rewrite lookup_insert_eq
            | rewrite lookup_insert_ne by done
            | match goal with
              | H : attrs _ !! _ = Some _ |- _ => rewrite H
              end ];
          cbn beta iota).

(** *** The angles *)

Lemma triples_of_vector (f : fmt) (l : list num) :
  concat (zip_with (fun x (yz : num * num) =>
                      [R (to_float f x); R (to_float f yz.1); R (to_float f yz.2)])
            l (zip (replicate (length l) (R (S754_zero false)))
                 (replicate (length l) (R (S754_zero false)))))
  = concat ((fun x => [R (to_float f x); R (S754_zero false);
                       R (S754_zero false)]) <$> l).
Proof. induction l as [|x l IH]; [done|]. cbn. by rewrite IH. Qed.

Section Angles.

Context {ext : Collaborators}.

(** Lines 103 to 106.  A vector of [n] angles becomes a new array of [n]
    rows [(angle, 0, 0)], in binary32 for binary32 angles and in binary64
    for the others, and [self.angles] refers to the new array; the
    caller's vector is left as it is. *)
Theorem angles_vector_becomes_triples (s : state) (l : loc) (a : ndarray) (n : nat) :
  attrs s !! "angles" = Some (VRef l) ->
  heap s !! l = Some (OArray a) ->
  ashape a = [n] -> length (adata a) = n ->
  let f := match adtype a with float binary32 => binary32 | _ => binary64 end in
  let t := mkarray (float f) [n; 3%nat]
             (concat ((fun x => [R (to_float f x); R (S754_zero false);
                                 R (S754_zero false)]) <$> adata a)) in
  normalise_angles s
  = (inr (), mkstate (<["angles" := VRef (length (heap s))]> (attrs s))
               (heap s ++ [OArray t]) (stdout s) (calls s) (clock_reads s)).
Proof.
  intros Hangles Hl Hshape Hlen f t. unfold normalise_angles.
  rewrite bind_run. unfold getattr at 1. rewrite Hangles. cbn [or_raise].
  rewrite bind_run. unfold np_shape. cbn [np_scalar].
  rewrite bind_run. unfold load_array at 1, array_at. rewrite Hl. cbn [or_raise].
  rewrite ret_run, Hshape. cbn [length Nat.eqb].
  rewrite bind_run. unfold load_array at 1, array_at. rewrite Hl. cbn [or_raise].
  rewrite Hshape. cbn [take].
  assert (Hv : vstack3_T a (zeros [n] binary32) (zeros [n] binary32) = inr t).
  { unfold vstack3_T, ndim. rewrite Hshape.
    cbn [zeros full ashape adata adtype length Nat.eqb andb negb size_of fold_right].
    rewrite length_replicate, Nat.mul_1_r, Hlen, Nat.eqb_refl. cbn [andb negb].
    subst t f. rewrite <- Hlen at 2 3.
    destruct (adtype a) as [|[]]; cbn [promote wider];
      by rewrite triples_of_vector. }
  rewrite bind_run. unfold lift at 1. rewrite Hv.
  reflexivity.
Qed.

End Angles.

(** The option phase, run. *)
Lemma init_options_run `{!Collaborators} (proj geo angles niter : value)
    (kwargs : gmap string value) (b : bool) (s : state) :
  verbose_flag kwargs = VBool b ->
  init_options proj geo angles niter kwargs s
  = (inr (),
     mkstate (kwargs ∪ (options ∪ <["niter" := niter]> (<["geo" := geo]>
                (<["angles" := angles]> (<["proj" := proj]> (attrs s))))))
       (heap s)
       (stdout s ++ (if b then warning <$> unrecognised kwargs else []))
       (calls s) (clock_reads s)).
Proof.
  intros Hflag. unfold init_options. mrun.
  assert (Hv : forall d : gmap string value,
             (kwargs ∪ (options ∪ d)) !! "verbose" = Some (VBool b)).
  { intros d. unfold verbose_flag in Hflag.
    destruct (kwargs !! "verbose") as [v|] eqn:Hk; simpl in Hflag.
    - subst v. by apply lookup_union_Some_l.
    - rewrite lookup_union_r by done. injection Hflag as <-.
      by apply lookup_union_Some_l. }
  by rewrite (warn_unrecognised_run b) by apply Hv.
Qed.

Section AnglesChecked.

Context {ext : Collaborators}.

(** The constructor needs the angles to have the attribute [ndim], as
    an array and a NumPy scalar do: for anything else the test
    [self.angles.ndim == 1] of line 103 raises an [AttributeError],
    before any quantity is built: no collaborator is called and nothing
    is put in the store. *)
Theorem angles_must_be_an_array (proj geo angles niter : value)
    (kwargs : gmap string value) (b : bool) (s0 : state) :
  verbose_flag kwargs = VBool b ->
  kwargs !! "angles" = None ->
  array_at (heap s0) angles = None ->
  np_scalar angles = false ->
  exists s1,
    __init__ proj geo angles niter kwargs s0 = (inl (AttributeError "ndim"), s1) /\
    calls s1 = calls s0 /\ heap s1 = heap s0 /\
    forall k, k ∈ ["W"; "V"; "res"; "angleblocks"; "angle_index"; "lq"; "l2l"] ->
              attrs s0 !! k = None -> attrs s1 !! k = kwargs !! k.
Proof.
  intros Hflag Hk Ha Hnp. unfold __init__. rewrite bind_run.
  rewrite (init_options_run _ _ _ _ _ b) by done.
  eexists. split_and!.
  - unfold build_state. rewrite bind_run. unfold normalise_angles.
    rewrite bind_run. unfold getattr at 1. cbn [attrs].
    rewrite lookup_union_r by done. rewrite lookup_union_r by by vm_compute.
    rewrite lookup_insert_ne, lookup_insert_ne, lookup_insert_eq by done.
    cbn [or_raise]. rewrite bind_run. unfold np_shape. rewrite Hnp.
    rewrite bind_run. unfold load_array. cbn [heap].
    rewrite Ha. reflexivity.
  - reflexivity.
  - reflexivity.
  - intros k Hin Hnone. cbn [attrs].
    destruct (kwargs !! k) as [v|] eqn:Hkw.
    + by apply lookup_union_Some_l.
    + rewrite lookup_union_r by done. rewrite lookup_union_r.
      * rewrite !lookup_insert_ne by (intros <-; set_solver). done.
      * revert Hin. clear. intros Hin.
        repeat (apply elem_of_cons in Hin as [->|Hin]; [by vm_compute|]).
        by apply elem_of_nil in Hin.
Qed.

End AnglesChecked.

(** *** The falloff field of a parallel beam *)

Section Parallel.

Context {ext : Collaborators}.

(** Lines 161 to 164.  In parallel mode the falloff field is an array of
    ones, in binary32, of shape [(K, n1, n0)]: [K] is the number of
    angles and [n0], [n1] are the numbers of voxels along the axes 0 and
    1 of the volume.  The array is new, and [V] is the only attribute
    set. *)
Theorem set_v_parallel_is_ones (s : state) (geo : value) (lg la lv : loc)
    (g : geometry) (angles nv : ndarray) (K : nat) (rest : list nat) (n0 n1 : Z) :
  attrs s !! "geo" = Some geo ->
  geometry_at (heap s) geo = Some (lg, g) ->
  str_eq (mode g) "parallel" = true ->
  attrs s !! "angles" = Some (VRef la) ->
  heap s !! la = Some (OArray angles) ->
  ashape angles = K :: rest ->
  array_at (heap s) (nVoxel g) = Some (lv, nv) ->
  ndim nv = 1%nat ->
  adata nv !! 0%nat = Some (I n0) -> adata nv !! 1%nat = Some (I n1) ->
  0 <= n0 -> 0 <= n1 ->
  set_v s
  = (inr (),
     mkstate (<["V" := VRef (length (heap s))]> (attrs s))
       (heap s ++ [OArray (ones [K; Z.to_nat n1; Z.to_nat n0] binary32)])
       (stdout s) (calls s) (clock_reads s)).
Proof.
  intros Hgeo Hg Hmode Hangles Hla Hshape Hnv Hdim H0 H1 Hn0 Hn1.
  unfold set_v. rewrite bind_run. unfold getattr at 1. rewrite Hgeo. cbn [or_raise].
  rewrite bind_run. unfold geo_attr at 1, load_geometry.
  rewrite bind_run, Hg. cbn [or_raise]. rewrite ret_run, Hmode. cbn [negb].
  rewrite bind_run, bind_run. unfold getattr at 1. rewrite Hangles. cbn [or_raise].
  unfold np_shape. cbn [np_scalar]. rewrite bind_run.
  unfold load_array at 1, array_at. rewrite Hla. cbn [or_raise].
  rewrite ret_run, Hshape. cbn [lookup list_lookup or_raise].
  rewrite bind_run. unfold lift at 1.
  assert (Hitem : forall i z, adata nv !! i = Some (I z) ->
            (geo_attr "nVoxel" nVoxel geo ≫= (fun v => item_of v i)) s
            = (inr (SI z), s)).
  { intros i z Hi. rewrite bind_run. unfold geo_attr, load_geometry.
    rewrite bind_run, Hg. cbn [or_raise]. rewrite ret_run.
    unfold item_of, vector, expect_array. rewrite bind_run, Hnv. cbn [or_raise].
    unfold lift, item. rewrite Hdim, Hi. by destruct (adtype nv). }
  rewrite bind_run, (Hitem 1%nat n1 H1), bind_run, (Hitem 0%nat n0 H0).
  rewrite bind_run. unfold lift at 1, shape_of_vector.
  cbn [ndim ashape length Nat.eqb negb adata mapM num_of].
  destruct (Z.ltb_spec n1 0) as [|_]; [lia|].
  destruct (Z.ltb_spec n0 0) as [|_]; [lia|].
  destruct (Z.ltb_spec (Z.of_nat K) 0) as [|_]; [lia|].
  cbn. rewrite Nat2Z.id. reflexivity.
Qed.

End Parallel.

(** *** The volume estimate *)

Section Volume.

Context {ext : Collaborators}.

(** The first five lines of [set_res], run: the volume estimate is a new
    array of zeros with the shape of the volume, and the options [init]
    and [verbose] are read. *)
Ltac set_res_start Hgeo Hg Hnv Hshape Hinit Hverbose :=
  unfold set_res;
  rewrite bind_run; unfold getattr at 1; rewrite Hgeo; cbn [or_raise];
  rewrite bind_run, bind_run; unfold geo_attr at 1, load_geometry;
  rewrite bind_run, Hg; cbn [or_raise]; rewrite ret_run;
  unfold vector, expect_array at 1; rewrite Hnv; cbn [or_raise];
  rewrite bind_run; unfold lift at 1; rewrite Hshape;
  rewrite bind_run; unfold alloc at 1; rewrite bind_run; unfold setattr at 1;
  unfold set_attrs, set_heap; cbn [attrs heap stdout calls clock_reads];
  rewrite bind_run; unfold getattr at 1; cbn [attrs];
  rewrite lookup_insert_ne, Hinit by done; cbn [or_raise];
  rewrite bind_run; unfold getattr at 1; cbn [attrs];
  rewrite lookup_insert_ne, Hverbose by done; cbn [or_raise].

(** Lines 171 to 190 for an [init] option that is neither ['multigrid'],
    nor ['FDK'], nor an array ([None] by default): the volume estimate
    is a new binary32 array of zeros with the shape [geo.nVoxel]; no
    collaborator is called and nothing is printed. *)
Theorem set_res_starts_from_zeros (s : state) (geo init verbose : value)
    (lg lv : loc) (g : geometry) (nv : ndarray) (shape : list nat) :
  attrs s !! "geo" = Some geo ->
  geometry_at (heap s) geo = Some (lg, g) ->
  array_at (heap s) (nVoxel g) = Some (lv, nv) ->
  shape_of_vector nv = inr shape ->
  attrs s !! "init" = Some init ->
  attrs s !! "verbose" = Some verbose ->
  str_eq init "multigrid" = false -> str_eq init "FDK" = false ->
  (forall l, init <> VRef l) ->
  set_res s
  = (inr (),
     mkstate (<["res" := VRef (length (heap s))]> (attrs s))
       (heap s ++ [OArray (zeros shape binary32)])
       (stdout s) (calls s) (clock_reads s)).
Proof.
  intros Hgeo Hg Hnv Hshape Hinit Hverbose Hm Hf Href.
  set_res_start Hgeo Hg Hnv Hshape Hinit Hverbose.
  rewrite Hm, Hf. mgo. unfold get_state. mgo. unfold is_ndarray.
  rewrite bool_decide_false; [done|].
  destruct init; try by intros [? ?]. by destruct (Href l).
Qed.

(** Lines 181 and 182.  With [init = 'FDK'] the volume estimate is the
    array that [FDK(self.proj, self.geo, self.angles)] returns; [FDK] is
    called once and nothing is printed. *)
Theorem set_res_from_fdk (s : state) (geo verbose vproj vangles : value)
    (lg lv : loc) (g : geometry) (nv r : ndarray) (shape : list nat) :
  attrs s !! "geo" = Some geo ->
  geometry_at (heap s) geo = Some (lg, g) ->
  array_at (heap s) (nVoxel g) = Some (lv, nv) ->
  shape_of_vector nv = inr shape ->
  attrs s !! "init" = Some (VStr "FDK") ->
  attrs s !! "verbose" = Some verbose ->
  attrs s !! "proj" = Some vproj -> attrs s !! "angles" = Some vangles ->
  let h := heap s ++ [OArray (zeros shape binary32)] in
  FDK (snapshot h vproj) (snapshot h geo) (snapshot h vangles) = inr r ->
  set_res s
  = (inr (),
     mkstate (<["res" := VRef (S (length (heap s)))]> (attrs s))
       (h ++ [OArray r]) (stdout s) (calls s ++ [CallFDK]) (clock_reads s)).
Proof.
  intros Hgeo Hg Hnv Hshape Hinit Hverbose Hproj Hangles h Hfdk. subst h.
  set_res_start Hgeo Hg Hnv Hshape Hinit Hverbose.
  cbn [str_eq String.eqb Ascii.eqb Bool.eqb]. mgo.
  rewrite Hfdk. mgo. unfold is_ndarray. cbn [array_at].
  rewrite bool_decide_false by (by intros [? ?]). mgo.
  rewrite insert_insert_eq, length_app, Nat.add_1_r. reflexivity.
Qed.

(** Lines 174 to 180.  With [init = 'multigrid'] the volume estimate is
    the array that [init_multigrid(self.proj, self.geo, self.angles,
    alg='SART')] returns; [init_multigrid] is called once, and when
    [verbose] is true two lines are printed before the call and one
    after it. *)
Theorem set_res_from_multigrid (s : state) (geo vproj vangles : value) (b : bool)
    (lg lv : loc) (g : geometry) (nv r : ndarray) (shape : list nat) :
  attrs s !! "geo" = Some geo ->
  geometry_at (heap s) geo = Some (lg, g) ->
  array_at (heap s) (nVoxel g) = Some (lv, nv) ->
  shape_of_vector nv = inr shape ->
  attrs s !! "init" = Some (VStr "multigrid") ->
  attrs s !! "verbose" = Some (VBool b) ->
  attrs s !! "proj" = Some vproj -> attrs s !! "angles" = Some vangles ->
  let h := heap s ++ [OArray (zeros shape binary32)] in
  init_multigrid (snapshot h vproj) (snapshot h geo) (snapshot h vangles) "SART"
  = inr r ->
  set_res s
  = (inr (),
     mkstate (<["res" := VRef (S (length (heap s)))]> (attrs s))
       (h ++ [OArray r])
       (stdout s
        ++ (if b then ["init multigrid in progress...";
                       "default blocksize=1 for init_multigrid(OS_SART)";
                       "init multigrid complete."]
            else []))
       (calls s ++ [CallMultigrid]) (clock_reads s)).
Proof.
  intros Hgeo Hg Hnv Hshape Hinit Hverbose Hproj Hangles h Hmg. subst h.
  set_res_start Hgeo Hg Hnv Hshape Hinit Hverbose.
  cbn [str_eq String.eqb Ascii.eqb Bool.eqb]. mgo.
  destruct b; mgo; rewrite Hmg; mgo;
    unfold is_ndarray; cbn [array_at];
    rewrite bool_decide_false by (by intros [? ?]); mgo;
    rewrite insert_insert_eq, length_app, Nat.add_1_r, <- ?app_assoc, ?app_nil_r;
    reflexivity.
Qed.

(** The comparison of line 185 on an array of three axes and a vector of
    three numbers of voxels. *)
Lemma shape_eq_all_volume (nv : ndarray) (n0 n1 n2 : Z) (a0 a1 a2 : nat) :
  ashape nv = [3%nat] -> adata nv = [I n0; I n1; I n2] ->
  shape_eq_all nv [a0; a1; a2]
  = inr (bool_decide ([n0; n1; n2] = Z.of_nat <$> [a0; a1; a2])).
Proof.
  intros Hs Hd. unfold shape_eq_all, of_ints.
  cbn [fmap list_fmap length ashape]. rewrite Hs.
  change (broadcast_shapes [3%nat] [3%nat]) with (Some [3%nat]).
  cbn iota beta. f_equal. unfold broadcast_to. rewrite Hs, Hd.
  cbn.
  destruct (Z.eqb_spec n0 (Z.of_nat a0)), (Z.eqb_spec n1 (Z.of_nat a1)),
    (Z.eqb_spec n2 (Z.of_nat a2)); cbn;
    first [by rewrite bool_decide_true by congruence
          |by rewrite bool_decide_false by congruence].
Qed.

(** Lines 184 to 190 for an [init] array of three axes.  When its shape
    is the shape of the volume, [self.res] refers to the caller's array
    itself (no copy is made); when it is not, [set_res] raises the
    [ValueError], and the engine is left with the volume estimate of
    zeros. *)
Theorem set_res_checks_a_volume (s : state) (geo verbose : value)
    (lg lv li : loc) (g : geometry) (nv a : ndarray) (shape : list nat)
    (n0 n1 n2 : Z) (a0 a1 a2 : nat) :
  attrs s !! "geo" = Some geo ->
  geometry_at (heap s) geo = Some (lg, g) ->
  array_at (heap s) (nVoxel g) = Some (lv, nv) ->
  ashape nv = [3%nat] -> adata nv = [I n0; I n1; I n2] ->
  shape_of_vector nv = inr shape ->
  attrs s !! "init" = Some (VRef li) ->
  heap s !! li = Some (OArray a) ->
  ashape a = [a0; a1; a2] ->
  attrs s !! "verbose" = Some verbose ->
  let h := heap s ++ [OArray (zeros shape binary32)] in
  set_res s
  = if bool_decide ([n0; n1; n2] = Z.of_nat <$> [a0; a1; a2])
    then (inr (),
          mkstate (<["res" := VRef li]> (attrs s)) h
            (stdout s) (calls s) (clock_reads s))
    else (inl (ValueError "wrong dimension of array for initialisation"),
          mkstate (<["res" := VRef (length (heap s))]> (attrs s)) h
            (stdout s) (calls s) (clock_reads s)).
Proof.
  intros Hgeo Hg Hnv Hs Hd Hshape Hinit Hli Ha Hverbose h. subst h.
  assert (Hkeep : forall (l : loc) o,
             heap s !! l = Some o ->
             (heap s ++ [OArray (zeros shape binary32)]) !! (l : loc) = Some o).
  { intros l o Hl. by apply lookup_app_l_Some. }
  assert (Hinit' : array_at (heap s ++ [OArray (zeros shape binary32)]) (VRef li)
                   = Some (li, a)).
  { unfold array_at. by rewrite (Hkeep _ _ Hli). }
  assert (Hnv' : array_at (heap s ++ [OArray (zeros shape binary32)]) (nVoxel g)
                 = Some (lv, nv)).
  { unfold array_at in *. destruct (nVoxel g) as [| | | | | |l']; try done.
    destruct (heap s !! l') as [o|] eqn:Hl'; [|done].
    by rewrite (Hkeep _ _ Hl'). }
  assert (Hg' : geometry_at (heap s ++ [OArray (zeros shape binary32)]) geo
                = Some (lg, g)).
  { unfold geometry_at in *. destruct geo as [| | | | | |l']; try done.
    destruct (heap s !! l') as [o|] eqn:Hl'; [|done].
    by rewrite (Hkeep _ _ Hl'). }
  set_res_start Hgeo Hg Hnv Hshape Hinit Hverbose.
  cbn [str_eq]. mgo. unfold is_ndarray. cbn [heap].
  rewrite Hinit', bool_decide_true by (by eexists). mgo.
  unfold load_array. cbn [heap]. rewrite Hinit'. mgo.
  unfold geo_attr, load_geometry. mgo. rewrite Hg'. mgo.
  unfold expect_array. cbn [heap]. rewrite Hnv'. mgo.
  rewrite Ha, (shape_eq_all_volume nv n0 n1 n2 a0 a1 a2 Hs Hd).
  destruct (bool_decide _); mgo; [|done].
  by rewrite insert_insert_eq.
Qed.

End Volume.

(** ** The constructor as a whole *)

Section Constructor.

Context {ext : Collaborators}.

Lemma init_options_method_calls proj geo angles niter kwargs :
  preserves same_method_calls (init_options proj geo angles niter kwargs).
Proof.
  unfold init_options.
  repeat (apply preserves_bind; [typeclasses eauto| |intros _]);
    try (by intros s r s' [= <- <-]).
  apply preserves_warn_unrecognised; typeclasses eauto.
Qed.

(** The constructor runs no pass of the reconstruction: whether it
    returns or raises, it calls no method of the engine, neither the
    data-minimization step nor the regularisation step. *)
Theorem construction_calls_no_method proj geo angles niter kwargs s0 r s1 :
  __init__ proj geo angles niter kwargs s0 = (r, s1) ->
  method_calls s1 = method_calls s0.
Proof.
  revert s0 r s1. change (preserves same_method_calls
                            (__init__ proj geo angles niter kwargs)).
  unfold __init__. apply preserves_bind; [typeclasses eauto| |intros _].
  - apply init_options_method_calls.
  - apply preserves_build_state; typeclasses eauto.
Qed.

(** In an engine constructed with an iteration count that is no number
    ([None], a string or a list) or that is a Python [float], the run is
    rejected by [range(self.niter)] when it starts, with a [TypeError]
    and before anything is done: the engine is as the constructor left
    it.  (A NumPy scalar is not refused: [range] converts it.) *)
Theorem run_rejects_a_count_that_is_no_integer proj geo angles niter kwargs s0 s1 :
  kwargs !! "niter" = None ->
  match niter with
  | VNone | VFloat binary64 _ | VStr _ | VList _ => True
  | _ => False
  end ->
  __init__ proj geo angles niter kwargs s0 = (inr (), s1) ->
  run_main_iter s1
  = (inl (TypeError "range() integer end argument expected"), s1).
Proof.
  intros Hk Hniter H.
  pose proof (constructed_niter _ _ _ _ _ _ _ Hk H) as Hn.
  pose proof (constructed_option _ _ _ _ _ _ _ "Quameasopts" VNone
                eq_refl ltac:(by_names) H) as Hq.
  unfold run_main_iter. mgo. by destruct niter as [| | |[]| | |].
Qed.

(** When the [dataminimizing] option names no method of the class, a run
    of at least one pass raises the [AttributeError] of
    [getattr(self, self.dataminimizing)] in its first pass, after the
    progress line when [verbose] is true: no method is called, nothing is
    measured and the engine is otherwise as the constructor left it.
    (Stated for the default [Quameasopts = None].) *)
Theorem run_raises_for_an_unknown_method proj geo angles (niter : Z) kwargs
    (b : bool) dm s0 s1 :
  kwargs !! "niter" = None -> 1 <= niter ->
  kwargs !! "Quameasopts" = None ->
  verbose_flag kwargs = VBool b ->
  default (VStr "art_data_minimizing") (kwargs !! "dataminimizing") = VStr dm ->
  method dm = None -> attrs s1 !! dm = None ->
  __init__ proj geo angles (VInt niter) kwargs s0 = (inr (), s1) ->
  run_main_iter s1
  = (inl (AttributeError dm),
     mkstate (attrs s1) (heap s1)
       (stdout s1 ++ (if b then ["Algorithm in progress."] else []))
       (calls s1)
       (clock_reads s1 + (if b then 1 else 0))%nat).
Proof.
  intros Hk Hniter Hq Hflag Hdm Hmethod Hattr H.
  pose proof (constructed_niter _ _ _ _ _ _ _ Hk H) as Hn.
  pose proof (constructed_option _ _ _ _ _ _ _ "Quameasopts" VNone
                eq_refl ltac:(by_names) H) as Hq'.
  pose proof (constructed_option _ _ _ _ _ _ _ "verbose" (VBool true)
                eq_refl ltac:(by_names) H) as Hv.
  pose proof (constructed_option _ _ _ _ _ _ _ "dataminimizing"
                (VStr "art_data_minimizing") eq_refl ltac:(by_names) H) as Hd.
  rewrite Hq in Hq'. cbn [default] in Hq'. rewrite Hdm in Hd.
  fold (verbose_flag kwargs) in Hv. rewrite Hflag in Hv.
  unfold run_main_iter. mgo. unfold py_range. mgo.
  destruct (Z.to_nat niter) as [|n] eqn:En; [lia|].
  cbn [seq iterations]. unfold iteration, minimization. mgo. cbn [is_not_none]. mgo.
  destruct b; mgo.
  - cbn [Nat.eqb]. mgo. unfold fmap, M_fmap, time_clock. mgo.
    unfold fmap, result_fmap. mgo. unfold call_method. mgo. rewrite Hattr, bool_decide_false by (by intros [? ?]).
    rewrite Hmethod. unfold throw. by rewrite Nat.add_1_r.
  - unfold call_method. mgo. rewrite Hattr, bool_decide_false by (by intros [? ?]).
    rewrite Hmethod. unfold throw. rewrite app_nil_r, Nat.add_0_r.
    by destruct s1.
Qed.

End Constructor.

(** ** The function [iterativereconalg] *)

Section Function.

Context {ext : Collaborators}.

Lemma iterations_residual_log (c : bool) l q range toc s s' :
  method_frame ["computel2"; "l2l"] ->
  attrs s !! "computel2" = Some (VBool c) ->
  log s "l2l" = Some l ->
  iterations q range toc s = (inr (), s') ->
  attrs s' !! "computel2" = Some (VBool c) /\
  exists l', log s' "l2l" = Some (l ++ l') /\
             length l' = if c then length range else 0%nat.
Proof.
  intros Hframe. revert toc s l.
  induction range as [|i range IH]; intros toc s l Hc Hl H; cbn [iterations] in H.
  - injection H as <-. split; [done|]. exists []. rewrite app_nil_r. by destruct c.
  - mstep H as toc1 s1 Hi.
    eapply iteration_l2l in Hi as (Hc1 & l1 & Hl1 & Hn1 & _); [|done..].
    destruct (IH _ _ _ Hc1 Hl1 H) as (Hc2 & l2 & Hl2 & Hn2).
    split; [done|]. exists (l1 ++ l2). rewrite app_assoc. split; [done|].
    rewrite length_app, Hn1, Hn2. by destruct c.
Qed.

(** Lines 248 to 254.  The function built by [decorator] constructs an
    engine, runs it and returns the volume estimate of the engine after
    the run; the residual log is returned with it exactly when
    [computel2] is true, and has then one entry for each pass. *)
Theorem iterativereconalg_returns proj geo angles (niter : Z) kwargs (c : bool)
    s0 v o s2 :
  method_frame ["computel2"; "l2l"] ->
  kwargs !! "niter" = None ->
  default (VBool false) (kwargs !! "computel2") = VBool c ->
  iterativereconalg proj geo angles (VInt niter) kwargs s0 = (inr (v, o), s2) ->
  attrs s2 !! "res" = Some v /\
  if c
  then exists l2l, o = Some (VList l2l) /\ log s2 "l2l" = Some l2l /\
                   Z.of_nat (length l2l) = Z.max 0 niter
  else o = None.
Proof.
  intros Hframe Hk Hc H. unfold iterativereconalg in H.
  mstep H as u s1 Hinit. mstep H as u' s2' Hrun. destruct u, u'.
  pose proof (constructed_niter _ _ _ _ _ _ _ Hk Hinit) as Hn.
  pose proof (constructed_option _ _ _ _ _ _ _ "Quameasopts" VNone
                eq_refl ltac:(by_names) Hinit) as Hq.
  pose proof (constructed_option _ _ _ _ _ _ _ "computel2" (VBool false)
                eq_refl ltac:(by_names) Hinit) as Hc'.
  rewrite Hc in Hc'.
  destruct (constructed_logs _ _ _ _ _ _ _ Hinit) as [_ Hl2].
  apply (run_main_iter_inv _ _ _ _ Hq Hn) in Hrun.
  destruct (iterations_residual_log _ _ _ _ _ _ _ Hframe Hc' Hl2 Hrun)
    as (Hc2 & l & Hl & Hlen).
  mstep H as b s3 Hb. mstep Hb as vc s4 Hvc.
  apply getattr_ok in Hvc as [-> Hvc]. rewrite Hc2 in Hvc. injection Hvc as <-.
  apply truthy_ok in Hb as [-> Hb]. cbn in Hb. injection Hb as <-.
  destruct c.
  - mstep H as res s5 Hres. apply getattr_ok in Hres as [-> Hres].
    mstep H as l2 s6 Hl2'. apply getattr_ok in Hl2' as [-> Hl2'].
    injection H as <- <- <-. split; [done|].
    unfold log in Hl. rewrite Hl2' in Hl.
    destruct l2 as [| | | | |l2|]; try done. injection Hl as ->.
    exists l. split_and!; [done| |].
    + unfold log. by rewrite Hl2'.
    + rewrite Hlen, length_seq. lia.
  - mstep H as res s5 Hres. apply getattr_ok in Hres as [-> Hres].
    by injection H as <- <- <-.
Qed.

End Function.

(** ** What a constructed engine holds *)

Section Complete.

Context {ext : Collaborators}.

Ltac last_setattr H :=
  repeat mstep H;
  apply setattr_ok in H as [_ ->]; cbn [attrs set_attrs];
  rewrite lookup_insert_eq; by eexists.

Ltac carry k Hk H :=
  lazymatch type of H with
  | ?m _ = _ =>
      let Hp := fresh "Hp" in
      assert (Hp : preserves (stays_set k) m) by mpres;
      apply (Hp _ _ _ H) in Hk; clear Hp
  end.

Lemma set_w_sets s s' : set_w s = (inr (), s') -> is_Some (attrs s' !! "W").
Proof. intros H. unfold set_w in H. last_setattr H. Qed.

Lemma set_v_sets s s' : set_v s = (inr (), s') -> is_Some (attrs s' !! "V").
Proof.
  intros H. unfold set_v in H. do 2 mstep H.
  destruct (negb _); last_setattr H.
Qed.

Lemma set_angle_index_sets s s' :
  set_angle_index s = (inr (), s') ->
  is_Some (attrs s' !! "angleblocks") /\ is_Some (attrs s' !! "angle_index").
Proof.
  intros H. unfold set_angle_index in H. repeat mstep H.
  apply setattr_ok in H as [_ ->].
  match goal with
  | Hs : setattr "angleblocks" _ _ = _ |- _ => apply setattr_ok in Hs as [_ ->]
  end.
  cbn [attrs set_attrs]. split.
  - rewrite lookup_insert_ne, lookup_insert_eq by done. by eexists.
  - rewrite lookup_insert_eq. by eexists.
Qed.

(** A builder that runs when its attribute is missing leaves the
    attribute set. *)
Lemma guarded_builder_sets (name : string) (builder : M unit) (s s' : state) :
  (forall s s', builder s = (inr (), s') -> is_Some (attrs s' !! name)) ->
  when (negb (bool_decide (is_Some (attrs s !! name)))) builder s = (inr (), s') ->
  is_Some (attrs s' !! name).
Proof.
  intros Hb. case_bool_decide as Hd; cbn [negb when].
  - by intros [= <-].
  - apply Hb.
Qed.

(** The engine that the constructor returns is complete: the four
    arguments, the weight field, the falloff field, the volume estimate
    and the blocks of angles are all set, whichever of them the caller
    supplied; the two logs are empty lists, also when the caller passed
    keyword arguments of these names; and each of the eleven options is
    the keyword argument of its name or else the default.  The index of
    the angles, [angle_index], is set as well unless the engine has an
    attribute [angleindex], the name that the guard of line 113 tests:
    with keyword arguments [angleindex] and [angleblocks] the builder is
    skipped, and [angle_index] is set only if the caller passed it. *)
Theorem constructed_engine_is_complete proj geo angles niter kwargs s0 s1 :
  __init__ proj geo angles niter kwargs s0 = (inr (), s1) ->
  Forall (fun k => is_Some (attrs s1 !! k))
    ["proj"; "angles"; "geo"; "niter"; "W"; "V"; "res"; "angleblocks"] /\
  (attrs s1 !! "angleindex" = None -> is_Some (attrs s1 !! "angle_index")) /\
  attrs s1 !! "lq" = Some (VList []) /\
  attrs s1 !! "l2l" = Some (VList []) /\
  forall k d, options !! k = Some d ->
              attrs s1 !! k = Some (default d (kwargs !! k)).
Proof.
  intros H. pose proof H as Hinit. unfold __init__ in H. mstep H as u sa Ha.
  apply init_options_attrs in Ha.
  pose proof (build_state_ok _ _ H) as (Hlq & Hl2 & Hres & _).
  assert (Hargs : forall k, k ∈ ["proj"; "angles"; "geo"; "niter"] ->
                            is_Some (attrs s1 !! k)).
  { intros k Hk.
    apply (preserves_build_state (stays_set k) _ _ _ H).
    rewrite Ha. apply lookup_union_is_Some. right.
    apply lookup_union_is_Some. right.
    repeat (apply elem_of_cons in Hk as [->|Hk];
            [rewrite ?lookup_insert_eq, ?lookup_insert_ne by done;
             rewrite ?lookup_insert_eq; by eexists|]).
    by apply elem_of_nil in Hk. }
  unfold build_state in H.
  mstep H as u1 s1' E1.
  mstep H as hw s2 E2. apply hasattr_ok in E2 as [-> ->].
  mstep H as u2 s3 E3. destruct u2.
  apply (guarded_builder_sets "W") in E3; [|apply set_w_sets].
  carry "W" E3 H.
  mstep H as hv s4 E4. apply hasattr_ok in E4 as [-> ->].
  mstep H as u3 s5 E5. destruct u3.
  apply (guarded_builder_sets "V") in E5; [|apply set_v_sets].
  carry "V" E5 H.
  mstep H as hr s6 E6. apply hasattr_ok in E6 as [-> ->].
  mstep H as u4 s7 E7.
  mstep H as hi s8 E8. apply hasattr_ok in E8 as [-> ->].
  mstep H as hb s9 E9. apply hasattr_ok in E9 as [-> ->].
  mstep H as u5 s10 E10. destruct u5.
  assert (Hschedule : is_Some (attrs s10 !! "angleblocks") /\
                      (is_Some (attrs s10 !! "angleindex") \/
                       is_Some (attrs s10 !! "angle_index"))).
  { cbn [forallb id] in E10.
    destruct (bool_decide (is_Some (attrs s7 !! "angleindex"))) eqn:Hi;
      [destruct (bool_decide (is_Some (attrs s7 !! "angleblocks"))) eqn:Hb|];
      cbn [andb negb when] in E10.
    - injection E10 as <-.
      apply bool_decide_eq_true in Hi, Hb. auto.
    - apply set_angle_index_sets in E10 as [? ?]. auto.
    - apply set_angle_index_sets in E10 as [? ?]. auto. }
  destruct Hschedule as [Hblocks Hindex].
  carry "angleblocks" Hblocks H.
  assert (Hindex' : is_Some (attrs s1 !! "angleindex") \/
                    is_Some (attrs s1 !! "angle_index")).
  { destruct Hindex as [Hi|Hi]; [left; carry "angleindex" Hi H
                                |right; carry "angle_index" Hi H]; done. }
  split_and!; [|..|done|done|].
  - repeat (constructor; [first [done | apply Hargs; by_names]|]). constructor.
  - intros Hnone. destruct Hindex' as [[? Hi]|Hi]; [congruence|done].
  - intros k d Hd. refine (constructed_option _ _ _ _ _ _ _ k d Hd _ Hinit).
    intros Hin. revert Hd. clear -Hin.
    repeat (apply elem_of_cons in Hin as [->|Hin]; [by vm_compute|]).
    by apply elem_of_nil in Hin.
Qed.

End Complete.

(** ** The constructor and the caller's store *)

Section OwnershipMore.

Context (n : nat).

Lemma safe_hasattr k : safe n (fun _ => True) (hasattr k).
Proof. by apply safe_reader. Qed.

Lemma safe_truthy v : safe n (fun _ => True) (truthy v).
Proof. by apply safe_reader. Qed.

Lemma safe_throw {A} e : safe n (fun _ => True) (throw (A:=A) e).
Proof. by apply safe_reader. Qed.

Lemma safe_get_state : safe n (fun _ => True) get_state.
Proof. by apply safe_reader. Qed.

Lemma safe_print line : safe n (fun _ => True) (print line).
Proof. apply safe_same_heap. by intros s r s' [= _ <-]. Qed.

Lemma safe_update (f : gmap string value -> gmap string value) :
  safe n (fun _ => True) (fun s => (inr (), set_attrs f s)).
Proof. apply safe_same_heap. by intros s r s' [= _ <-]. Qed.

Lemma safe_any {A} (Q : A -> Prop) (m : M A) :
  safe n Q m -> safe n (fun _ => True) m.
Proof. intros Hm. by eapply safe_weaken. Qed.

Lemma safe_fmap_any {A B} (g : A -> B) (m : M A) :
  safe n (fun _ => True) m -> safe n (fun _ => True) (g <$> m).
Proof. intros Hm. by apply safe_fmap. Qed.

Lemma safe_mapM {A B} (Q : B -> Prop) (f : A -> M B) (l : list A) :
  Forall (fun x => safe n Q (f x)) l -> safe n (Forall Q) (mapM f l).
Proof.
  induction 1 as [|x l Hx Hl IH]; cbn [mapM].
  - by apply safe_ret.
  - eapply safe_bind; [done|]. intros y Hy.
    eapply safe_bind; [done|]. intros ys Hys. apply safe_ret. by constructor.
Qed.

(** What a collaborator returns is put in new objects. *)
Lemma safe_materialize d : safe n (fresh_value n) (materialize d).
Proof.
  induction d as [| | | | |l IH| | |] using data_ind_nested;
    cbn [materialize]; try by apply safe_ret.
  - apply safe_fmap. eapply safe_weaken; [by apply safe_mapM|done].
  - apply safe_alloc_array.
  - repeat (eapply safe_bind; [done|]; intros ? ?).
    apply safe_alloc_geometry. by split_and!.
Qed.

End OwnershipMore.

#[global] Hint Resolve safe_hasattr safe_truthy safe_throw safe_get_state
  safe_print safe_update safe_materialize | 5 : safe.

(** The tactic of [set_w], with the branches of the other builders. *)
Ltac msafe_all :=
  lazymatch goal with
  | |- safe _ _ (mbind _ _) =>
      eapply safe_bind;
        [msafe_all
        |let x := fresh "x" in
         let Hx := fresh "Hx" in
         intros x Hx; cbn beta in Hx; msafe_all]
  | |- safe _ _ (let '(_, _) := ?p in _) =>
      destruct p; cbn [fst snd] in *; msafe_all
  | |- safe _ _ (when ?b _) => destruct b; cbn [when]; msafe_all
  | |- safe _ _ (if ?b then _ else _) => destruct b; msafe_all
  | |- safe _ _ (match ?x with _ => _ end) => destruct x; msafe_all
  | |- safe _ _ (fmap _ _) => apply safe_fmap_any; eapply safe_any; msafe_all
  | |- safe _ _ (mret _) =>
      first [apply (safe_ret _ (fun _ => True)); exact Logic.I
            |apply safe_ret; exact Logic.I]
  | |- _ => first [msafe_leaf | eapply safe_any; msafe_leaf]
  end.

Section StoreFrame.

Context {ext : Collaborators}.

Lemma safe_ramp n geo i : safe n (fun _ => True) (ramp geo i).
Proof. unfold ramp. msafe_all. Qed.

Hint Resolve safe_ramp : safe.

Lemma safe_np_shape n what v : safe n (fun _ => True) (np_shape what v).
Proof. unfold np_shape. msafe_all. Qed.

Hint Resolve safe_np_shape : safe.

Lemma safe_normalise_angles n : safe n (fun _ => True) normalise_angles.
Proof. unfold normalise_angles. msafe_all. Qed.

Lemma safe_set_v n : safe n (fun _ => True) set_v.
Proof. unfold set_v. msafe_all. Qed.

Lemma safe_set_res n : safe n (fun _ => True) set_res.
Proof. unfold set_res. msafe_all. Qed.

Lemma safe_set_angle_index n : safe n (fun _ => True) set_angle_index.
Proof. unfold set_angle_index. msafe_all. Qed.

Lemma safe_warn_unrecognised n kws : safe n (fun _ => True) (warn_unrecognised kws).
Proof.
  induction kws as [|kw kws IH]; cbn [warn_unrecognised]; [by apply safe_ret|].
  eapply safe_bind; [|intros _ _; exact IH].
  destruct (negb (recognised kw)); msafe_all.
Qed.

Hint Resolve safe_warn_unrecognised safe_normalise_angles safe_set_w safe_set_v
  safe_set_res safe_set_angle_index : safe.

Lemma safe_init n proj geo angles niter kwargs :
  safe n (fun _ => True) (__init__ proj geo angles niter kwargs).
Proof. unfold __init__, init_options, build_state. msafe_all. Qed.

(** The constructor writes to no object of its caller: whether it
    returns or raises, the arrays and the geometry that were in the
    store when it was called are afterwards what they were.  What the
    engine computes (the angles as triples, [W], [V], the volume
    estimate, the angle schedule) is put in new objects. *)
Theorem construction_leaves_the_store proj geo angles niter kwargs s0 r s1 :
  __init__ proj geo angles niter kwargs s0 = (r, s1) ->
  forall (l : loc) o, heap s0 !! l = Some o -> heap s1 !! l = Some o.
Proof.
  intros H l o Hl.
  assert (Ho : owned (length (heap s0)) s0).
  { split; [done|]. intros l' g Hl' Hlk. apply lookup_lt_Some in Hlk. lia. }
  destruct (safe_init _ _ _ _ _ _ _ _ _ Ho H) as (_ & Hframe & _).
  rewrite Hframe; [done|]. by eapply lookup_lt_Some.
Qed.

End StoreFrame.

(** ** The projection behind the weight field *)

Section UnitVolume.

Context {ext : Collaborators}.

Lemma set_geo_attr_ok name upd geo s u s' :
  set_geo_attr name upd geo s = (inr u, s') ->
  exists (l : loc) g,
    geo = VRef l /\ heap s !! l = Some (OGeometry g) /\
    s' = set_heap (insert l (OGeometry (upd g))) s.
Proof.
  unfold set_geo_attr. intros H. mstep H as p s1 E. destruct p as [l g].
  unfold load_geometry in E.
  destruct (geometry_at (heap s) geo) as [[l' g']|] eqn:Hg; [|done].
  injection E as <- <- <-. unfold store in H. injection H as <-.
  unfold geometry_at in Hg. destruct geo as [| | | | | |l0]; try done.
  destruct (heap s !! l0) as [[a|g0]|] eqn:Hl0; try done.
  injection Hg as <- <-. eauto.
Qed.

(** Lines 126 to 128.  [set_w] calls the projector once, in the
    ['ray-voxel'] mode, on a binary32 volume of ones of 2 x 2 x 2
    voxels (the number of voxels it gave to its copy of the geometry),
    and calls no other collaborator. *)
Theorem set_w_projects_a_unit_volume (s s' : state) :
  set_w s = (inr (), s') ->
  calls s' = calls s ++ [CallAx "ray-voxel"] /\
  exists dgeox dangles w,
    Ax (DArray (ones [2; 2; 2]%nat binary32)) dgeox dangles "ray-voxel" = inr w.
Proof.
  intros H.
  assert (Hcalls : calls s' = calls s ++ [CallAx "ray-voxel"]).
  { revert H. unfold set_w. intros H.
    repeat (mstep H;
            match goal with
            | E : emit _ _ = _ |- _ => apply emit_ok in E as [_ ->]
            | E : ?m _ = (inr _, _) |- _ =>
                let Hq := fresh "Hq" in
                assert (Hq : preserves quiet m) by mpres;
                apply Hq in E; destruct E as [_ E]
            end).
    apply setattr_ok in H as [_ ->]. cbn in *. congruence. }
  split; [done|]. clear Hcalls. unfold set_w in H.
  do 12 mstep H.
  mstep H as nvx t11 Ea. apply alloc_ok in Ea as [-> ->].
  mstep H as u1 t12 Eb.
  apply set_geo_attr_ok in Eb as (lx & g1 & -> & Hg1 & ->).
  mstep H as p1 t13 Ec. mstep Ec as v1 t13' Ec'.
  apply geo_attr_ok in Ec' as (-> & _). apply expect_array_ok in Ec as [-> _].
  destruct p1 as [? sv].
  mstep H as p2 t14 Ed. mstep Ed as v2 t14' Ed'.
  apply geo_attr_ok in Ed' as (-> & _). apply expect_array_ok in Ed as [-> _].
  destruct p2 as [? nva].
  mstep H as dvx t15 Ee. mstep Ee as q t15' Ee'. apply lift_ok in Ee' as [-> _].
  apply alloc_ok in Ee as [-> ->].
  mstep H as u2 t16 Ef.
  apply set_geo_attr_ok in Ef as (lx' & g2 & Hl & Hg2 & ->).
  injection Hl as <-.
  mstep H as p3 t17 Eg. mstep Eg as v3 t17' Eg'.
  apply geo_attr_ok in Eg' as (-> & lx3 & g3 & Hg3 & ->).
  apply expect_array_ok in Eg as [-> Hnv]. destruct p3 as [? nva'].
  mstep H as shp t18 Eh. apply lift_ok in Eh as [-> Hshape].
  mstep H as dgeox t19 Ei. mstep H as dangles t20 Ej. mstep H as u3 t21 Ek.
  mstep H as wp t22 El. apply lift_ok in El as [-> HAx].
  exists dgeox, dangles, wp.
  unfold set_heap in *. cbn [heap attrs stdout calls clock_reads] in *.
  set (h := heap s11) in *.
  set (ints := OArray (of_ints [2; 2; 2])) in *.
  assert (Hlx : (lx < length h)%nat).
  { apply lookup_lt_Some in Hg1 as Hlt. rewrite length_app in Hlt. cbn in Hlt.
    destruct (decide (lx = length h)) as [->|]; [|lia].
    rewrite lookup_app_r, Nat.sub_diag in Hg1 by done. done. }
  rewrite lookup_app_l in Hg2 by (rewrite length_insert, length_app; cbn; lia).
  rewrite list_lookup_insert_eq in Hg2 by (rewrite length_app; cbn; lia).
  injection Hg2 as <-. cbn [nVoxel DSD DSO sVoxel dVoxel sDetector offOrigin mode] in *.
  unfold geometry_at in Hg3.
  rewrite list_lookup_insert_eq in Hg3
    by (rewrite length_app, length_insert, length_app; cbn; lia).
  injection Hg3 as <- <-. cbn [nVoxel] in Hnv. unfold array_at in Hnv.
  rewrite list_lookup_insert_ne in Hnv by lia.
  rewrite lookup_app_l in Hnv by (rewrite length_insert, length_app; cbn; lia).
  rewrite list_lookup_insert_ne in Hnv by lia.
  rewrite lookup_app_r, Nat.sub_diag in Hnv by done. cbn in Hnv.
  injection Hnv as <- <-. vm_compute in Hshape. injection Hshape as <-.
  exact HAx.
Qed.

End UnitVolume.

(** ** What a run prints *)

#[global] Instance silent_preorder : PreOrder silent.
Proof.
  split.
  - by intros s.
  - intros s1 s2 s3 [Ha Hc] [Ha' Hc']. unfold silent. split; congruence.
Qed.

Section Silent.

Ltac silent_reader := intros; apply preserves_reader; typeclasses eauto.
Ltac silent_write := intros; intros s r s' [= <- <-]; by split.

Lemma silent_hasattr k : preserves silent (hasattr k).
Proof. silent_reader. Qed.
Lemma silent_getattr k : preserves silent (getattr k).
Proof. silent_reader. Qed.
Lemma silent_throw {A} e : preserves silent (throw (A:=A) e).
Proof. silent_reader. Qed.
Lemma silent_lift {A} (r : result A) : preserves silent (lift r).
Proof. silent_reader. Qed.
Lemma silent_get_state : preserves silent get_state.
Proof. silent_reader. Qed.
Lemma silent_truthy v : preserves silent (truthy v).
Proof. silent_reader. Qed.
Lemma silent_pass v : preserves silent (pass v).
Proof. silent_reader. Qed.
Lemma silent_load_array w v : preserves silent (load_array w v).
Proof. silent_reader. Qed.
Lemma silent_expect_array w v : preserves silent (expect_array w v).
Proof. silent_reader. Qed.
Lemma silent_alloc o : preserves silent (alloc o).
Proof. silent_write. Qed.
Lemma silent_emit e : preserves silent (emit e).
Proof. silent_write. Qed.
Lemma silent_setattr k v : preserves silent (setattr k v).
Proof. silent_write. Qed.

Hint Resolve silent_hasattr silent_getattr silent_throw silent_lift
  silent_get_state silent_truthy silent_pass silent_load_array
  silent_expect_array silent_alloc silent_emit silent_setattr : frames.

Lemma silent_materialize d : preserves silent (materialize d).
Proof.
  induction d using data_ind_nested; cbn [materialize]; try mpres.
  apply preserves_fmap, preserves_mapM; first [typeclasses eauto | done].
Qed.

Lemma silent_deepcopy_flat v memo : preserves silent (deepcopy_flat v memo).
Proof.
  revert memo. induction v using value_ind_nested; intros memo;
    cbn [deepcopy_flat]; try mpres.
  apply preserves_bind; [typeclasses eauto| |intros [vs m]; mpres].
  revert memo. induction H as [|v l Hv Hl IH]; intros memo; cbn [copy_all]; mpres.
Qed.

Hint Resolve silent_materialize silent_deepcopy_flat : frames.

Lemma silent_deepcopy v : preserves silent (deepcopy v).
Proof. unfold deepcopy. mpres. Qed.

Lemma silent_appendable v : preserves silent (appendable v).
Proof. unfold appendable. mpres. Qed.

Hint Resolve silent_deepcopy silent_appendable : frames.

Context {ext : Collaborators}.

Lemma silent_residual : preserves silent residual.
Proof. unfold residual. mpres. Qed.

Hint Resolve silent_residual : frames.

(** A measurement prints nothing and does not read the clock. *)
Lemma silent_error_measurement res_prev i :
  preserves silent (error_measurement res_prev i).
Proof. unfold error_measurement, measure_quality, measure_residual. mpres. Qed.

End Silent.

#[global] Hint Resolve silent_hasattr silent_getattr silent_throw silent_lift
  silent_get_state silent_truthy silent_pass silent_load_array
  silent_expect_array silent_alloc silent_emit silent_setattr
  silent_materialize silent_deepcopy_flat silent_deepcopy silent_appendable
  silent_residual silent_error_measurement : frames.

Section Progress.

Context {ext : Collaborators}.

Ltac msilent H :=
  lazymatch type of H with
  | ?m _ = _ =>
      let Hs := fresh "Hs" in
      assert (Hs : preserves silent m) by mpres;
      apply Hs in H; destruct H as [? ?]
  end.

(** What one pass prints, and the clock readings it keeps. *)
Lemma iteration_prints (b : bool) (n : Z) q i toc s toc' s' :
  method_frame ["verbose"; "niter"] ->
  attrs s !! "verbose" = Some (VBool b) ->
  attrs s !! "niter" = Some (VInt n) ->
  iteration q i toc s = (inr toc', s') ->
  attrs s' !! "verbose" = Some (VBool b) /\
  attrs s' !! "niter" = Some (VInt n) /\
  match b, i with
  | true, 0%nat =>
      stdout s' = stdout s ++ ["Algorithm in progress."] /\
      clock_reads s' = S (clock_reads s) /\
      toc' = Some (clock (clock_reads s))
  | true, 1%nat =>
      exists t, toc = Some t /\
        stdout s' = stdout s ++ [estimate n (clock (clock_reads s)) t] /\
        clock_reads s' = S (clock_reads s) /\ toc' = toc
  | _, _ => stdout s' = stdout s /\ clock_reads s' = clock_reads s /\ toc' = toc
  end.
Proof.
  intros Hframe Hv Hn H. unfold iteration in H.
  mstep H as p mid Hmin. destruct p as [rp tocm]. unfold minimization in Hmin.
  mstep Hmin as res_prev s1 Ea.
  assert (Ha : quiet s s1 /\ silent s s1).
  { split; [mquiet Ea; by split|msilent Ea; by split]. }
  clear Ea. destruct Ha as [[Ha1 _] [Ho1 Hc1]].
  mstep Hmin as verbose s2 Eb. mstep Eb as vv s2' Eb'.
  apply getattr_ok in Eb' as [-> Hv']. apply truthy_ok in Eb as [-> Eb].
  rewrite Ha1, Hv in Hv'. injection Hv' as <-. cbn in Eb. injection Eb as <-.
  mstep Hmin as toc1 s3 Ec.
  (* the method and the measurement *)
  assert (Htail : attrs s' !! "verbose" = attrs s3 !! "verbose" /\
                  attrs s' !! "niter" = attrs s3 !! "niter" /\
                  stdout s' = stdout s3 /\ clock_reads s' = clock_reads s3 /\
                  toc' = toc1).
  { mstep Hmin as u s4 Ed. mstep Ed as name s5 Ee.
    apply getattr_ok in Ee as [-> Hname].
    unfold call_method in Ed. destruct name as [| | | |dm| |]; try done.
    mstep Ed as shadowed s6 Ef. apply hasattr_ok in Ef as [-> ->].
    destruct (bool_decide _); [done|].
    destruct (method dm) as [f|] eqn:Hf; [|done].
    mstep Ed as u2 s7 Eg. apply emit_ok in Eg as [_ ->].
    unfold run_method in Ed. cbn [attrs heap stdout calls clock_reads] in Ed.
    destruct (f (attrs s3, heap s3)) as [r [a h]] eqn:Hrun.
    injection Ed as -> <-.
    pose proof (Hframe _ _ _ _ _ _ _ Hf Hrun) as Hkeep.
    injection Hmin as <- <- <-.
    mstep H as u3 s8 Eh. injection H as <- <-. destruct u3.
    pose proof (silent_error_measurement _ _ _ _ _ Eh) as [Ho Hc].
    apply error_measurement_inv in Eh
      as (? & ? & ? & ? & ? & _ & _ & _ & _ & Hother & _).
    cbn [attrs stdout clock_reads] in *.
    rewrite !Hother, !Hkeep by by_names. done. }
  clear H Hmin. destruct Htail as (Hv3 & Hn3 & Ho3 & Hc3 & ->).
  rewrite Hv3, Hn3, Ho3, Hc3. clear Hv3 Hn3 Ho3 Hc3 s'.
  rewrite <- Ha1 in Hv, Hn. rewrite <- Ho1, <- Hc1. clear Ha1 Ho1 Hc1 s.
  destruct b; [|mrun; by simplify_eq].
  destruct i as [|[|i]]; cbn [Nat.eqb] in Ec.
  - unfold time_clock in Ec. mrun. unfold fmap, M_fmap in Ec. cbn in Ec.
    by simplify_eq.
  - unfold time_clock in Ec. mrun. rewrite Hn in Ec. cbn in Ec.
    destruct toc as [t|]; [|done]. cbn in Ec. simplify_eq.
    split_and!; [done..|]. exists t. split_and!; done.
  - mrun. by simplify_eq.
Qed.

(** The passes after the second print nothing, and neither does any pass
    when [verbose] is false. *)
Lemma iterations_silent (b : bool) (n : Z) q range toc s s' :
  method_frame ["verbose"; "niter"] ->
  attrs s !! "verbose" = Some (VBool b) ->
  attrs s !! "niter" = Some (VInt n) ->
  (b = true -> Forall (fun i => (2 <= i)%nat) range) ->
  iterations q range toc s = (inr (), s') ->
  stdout s' = stdout s /\ clock_reads s' = clock_reads s.
Proof.
  intros Hframe. revert toc s.
  induction range as [|i range IH]; intros toc s Hv Hn Hlate H;
    cbn [iterations] in H.
  - by injection H as <-.
  - mstep H as toc1 s1 Hi.
    apply (iteration_prints b n) in Hi as (Hv1 & Hn1 & Hi); [|done..].
    assert (Hs : stdout s1 = stdout s /\ clock_reads s1 = clock_reads s).
    { destruct b; [|by destruct Hi as (? & ? & _)].
      specialize (Hlate eq_refl). apply Forall_cons in Hlate as [Hge _].
      destruct i as [|[|i]]; [lia|lia|]. by destruct Hi as (? & ? & _). }
    destruct Hs as [<- <-]. eapply IH; [done..| |exact H].
    intros Hb. specialize (Hlate Hb). by apply Forall_cons in Hlate as [_ ?].
Qed.

(** A run prints the progress line in its first pass and the estimate of
    the time left in its second, each after one reading of the clock,
    when [verbose] is true, and nothing when it is false; the passes and
    the measurements print nothing else.  (The methods themselves are
    outside this file.) *)
Theorem run_prints_its_progress proj geo angles (niter : Z) kwargs (b : bool)
    s0 s1 s2 :
  method_frame ["verbose"; "niter"] ->
  kwargs !! "niter" = None ->
  verbose_flag kwargs = VBool b ->
  __init__ proj geo angles (VInt niter) kwargs s0 = (inr (), s1) ->
  run_main_iter s1 = (inr (), s2) ->
  stdout s2 = stdout s1 ++ (if b then progress niter (clock_reads s1) else []) /\
  clock_reads s2
  = (clock_reads s1 + (if b then Z.to_nat (Z.min 2 (Z.max 0 niter)) else 0))%nat.
Proof.
  intros Hframe Hk Hflag Hinit Hrun.
  pose proof (constructed_niter _ _ _ _ _ _ _ Hk Hinit) as Hn.
  pose proof (constructed_option _ _ _ _ _ _ _ "Quameasopts" VNone
                eq_refl ltac:(by_names) Hinit) as Hq.
  pose proof (constructed_option _ _ _ _ _ _ _ "verbose" (VBool true)
                eq_refl ltac:(by_names) Hinit) as Hv.
  fold (verbose_flag kwargs) in Hv. rewrite Hflag in Hv.
  apply (run_main_iter_inv _ _ _ _ Hq Hn) in Hrun.
  destruct b; cycle 1.
  { apply (iterations_silent false niter) in Hrun as [-> ->]; [|done..].
    by rewrite app_nil_r, Nat.add_0_r. }
  unfold progress.
  destruct (Z.to_nat niter) as [|[|m]] eqn:En; cbn [seq iterations] in Hrun.
  - injection Hrun as <-.
    destruct (Z.leb_spec 1 niter); [lia|]. destruct (Z.leb_spec 2 niter); [lia|].
    cbn. rewrite app_nil_r. split; [done|].
    replace (Z.min 2 (Z.max 0 niter)) with 0%Z by lia. cbn. lia.
  - mstep Hrun as toc1 sa Ha. injection Hrun as <-.
    apply (iteration_prints true niter) in Ha as (_ & _ & -> & -> & _); [|done..].
    destruct (Z.leb_spec 1 niter); [|lia]. destruct (Z.leb_spec 2 niter); [lia|].
    cbn. split; [done|].
    replace (Z.min 2 (Z.max 0 niter)) with 1%Z by lia. cbn. lia.
  - mstep Hrun as toc1 sa Ha. mstep Hrun as toc2 sb Hb.
    apply (iteration_prints true niter) in Ha as (Hva & Hna & Hoa & Hca & ->);
      [|done..].
    apply (iteration_prints true niter) in Hb
      as (Hvb & Hnb & t & [= <-] & Hob & Hcb & ->); [|done..].
    apply (iterations_silent true niter) in Hrun as [-> ->]; [|done..|].
    + rewrite Hob, Hoa, Hcb, Hca.
      destruct (Z.leb_spec 1 niter); [|lia]. destruct (Z.leb_spec 2 niter); [|lia].
      rewrite <- app_assoc. split; [done|].
      replace (Z.min 2 (Z.max 0 niter)) with 2%Z by lia. cbn. lia.
    + intros _. apply Forall_forall. intros i Hi%elem_of_seq. lia.
Qed.

End Progress.

(** *** The angle schedule *)

(** One step of a computation, whatever its outcome. *)
Ltac estep H x s1 E :=
  rewrite bind_run in H;
  lazymatch type of H with
  | match ?m ?s with _ => _ end = _ =>
      destruct (m s) as [[?|x] s1] eqn:E;
      [injection H as <- <-|]
  end.

Section Schedule.

Context {ext : Collaborators}.

(** Lines 197 to 199.  [set_angle_index] sets the blocks of angles and
    their index together or not at all: when it returns, it has called
    [order_subsets] once and these two attributes are the only ones it
    has set; when it raises, for a missing option or because
    [order_subsets] raised, no attribute has changed. *)
Theorem angle_schedule_is_set_whole (s s' : state) (r : result unit) :
  set_angle_index s = (r, s') ->
  match r with
  | inr _ =>
      exists blocks index,
        attrs s'
        = <["angle_index" := index]> (<["angleblocks" := blocks]> (attrs s)) /\
        calls s' = calls s ++ [CallOrderSubsets]
  | inl _ => attrs s' = attrs s
  end.
Proof.
  intros H. unfold set_angle_index in H.
  estep H da t1 Ea; mquiet Ea; [done|].
  estep H db t2 Eb; mquiet Eb; [congruence|].
  estep H dc t3 Ec; mquiet Ec; [congruence|].
  estep H u t4 Ed; apply emit_ok in Ed as [? ->]; [done|].
  estep H p t5 Ee; mquiet Ee; [cbn in *; congruence|]. destruct p as [ab ai].
  estep H vb t6 Ef; mquiet Ef; [cbn in *; congruence|].
  estep H vi t7 Eg; mquiet Eg; [cbn in *; congruence|].
  estep H u2 t8 Eh; apply setattr_ok in Eh as [? ->]; [done|].
  apply setattr_ok in H as [-> ->]. exists vb, vi.
  cbn in *. split; [|congruence].
  do 2 f_equal. congruence.
Qed.

End Schedule.

(** ** The engine on the small instance *)

#[local] Existing Instance Demo.collaborators.

(** The stand-ins for the methods set no attribute but [res]. *)
Lemma demo_method_frame (ks : list string) : "res" ∉ ks -> method_frame ks.
Proof.
  intros Hres name f a h r a' h' Hf Hrun k Hk.
  cbn [method Demo.collaborators] in Hf. unfold Demo.method in Hf.
  destruct (String.eqb name "art_data_minimizing").
  - injection Hf as <-. injection Hrun as _ <- _.
    apply lookup_insert_ne. by intros <-.
  - destruct (String.eqb name "minimizeTV"); [|done].
    injection Hf as <-. by injection Hrun as _ <- _.
Qed.

(** What a run of three passes with both logs leaves. *)
Example demo_run :
  exists res lq l2l,
    (Demo.run Demo.store0 (VInt 3) Demo.both_logs).1
    = inr (res, Some (VList l2l)) /\
    log (Demo.run Demo.store0 (VInt 3) Demo.both_logs).2 "lq" = Some lq /\
    length lq = 2%nat /\ length l2l = 3%nat /\
    stdout (Demo.run Demo.store0 (VInt 3) Demo.both_logs).2
    = ["Algorithm in progress.";
       "Esitmated time until completetion (s): <float>"].
Proof.
  do 3 eexists. split_and!.
  - vm_compute. reflexivity.
  - vm_compute. reflexivity.
  - reflexivity.
  - reflexivity.
  - vm_compute. reflexivity.
Qed.

(** *** C10 at work: a recognised and an unrecognised keyword *)

Lemma init_options_keeps_every_keyword_witness :
  exists s',
    init_options Demo.proj Demo.geo Demo.angles (VInt 3) Demo.two_keywords
      (fresh Demo.store0)
    = (inr (), s') /\
    attrs s' !! "blocksize" = Some (VInt 5) /\
    attrs s' !! "colour" = Some (VStr "red") /\
    attrs s' !! "lmbda" = Some (VInt 1) /\
    stdout s' = [warning "colour"] /\
    attrs (Demo.engine (VInt 3) Demo.two_keywords) !! "colour" = Some (VStr "red").
Proof.
  assert (Hflag : truth (heap (fresh Demo.store0)) (verbose_flag Demo.two_keywords)
                  = inr true)
    by (vm_compute; reflexivity).
  destruct (init_options_keeps_every_keyword Demo.proj Demo.geo Demo.angles (VInt 3)
              Demo.two_keywords true (fresh Demo.store0) Hflag)
    as (s' & Hrun & Hkw & Hdef & Hout & _ & _ & Hbuilt).
  exists s'. split_and!.
  - exact Hrun.
  - apply Hkw. vm_compute. reflexivity.
  - apply Hkw. vm_compute. reflexivity.
  - apply Hdef; vm_compute; reflexivity.
  - rewrite Hout. vm_compute. reflexivity.
  - apply Hbuilt.
    + vm_compute. reflexivity.
    + vm_compute. reflexivity.
    + by_names.
Defined.

(** The claim fails on the instance.  A residual log passed as the
    keyword argument [l2l] is stored by line 97 and replaced by the empty
    list at line 116: the engine built does not hold the value passed.
    And with the angles (an array of two entries) passed as [verbose]
    flag, the unrecognised keyword [colour] makes the constructor raise:
    the flag has no truth value. *)
Lemma keyword_is_not_kept :
  Demo.own_log !! "l2l" = Some (VList [VInt 7]) /\
  Demo.construct Demo.store0 (VInt 3) Demo.own_log
  = (inr (), Demo.engine (VInt 3) Demo.own_log) /\
  attrs (Demo.engine (VInt 3) Demo.own_log) !! "l2l" = Some (VList []) /\
  attrs (Demo.engine (VInt 3) Demo.own_log) !! "l2l" <> Demo.own_log !! "l2l" /\
  recognised "colour" = false /\
  (Demo.construct Demo.store0 (VInt 3) Demo.array_verbose).1
  = inl (ValueError
           "The truth value of an array with more than one element is ambiguous").
Proof.
  split_and!.
  - vm_compute. reflexivity.
  - vm_compute. reflexivity.
  - vm_compute. reflexivity.
  - vm_compute. discriminate.
  - vm_compute. reflexivity.
  - vm_compute. reflexivity.
Qed.

(** *** C9 at work *)

Lemma run_without_iteration_witness :
  run_main_iter (Demo.engine (VInt 0) ∅) = (inr (), Demo.engine (VInt 0) ∅) /\
  attrs (Demo.engine (VInt 0) ∅) !! "lq" = Some (VList []) /\
  attrs (Demo.engine (VInt 0) ∅) !! "l2l" = Some (VList []) /\
  exists v, attrs (Demo.engine (VInt 0) ∅) !! "res" = Some v /\
            getres (Demo.engine (VInt 0) ∅) = (inr v, Demo.engine (VInt 0) ∅).
Proof.
  apply (run_without_iteration Demo.proj Demo.geo Demo.angles ∅ (fresh Demo.store0)).
  - vm_compute. reflexivity.
  - vm_compute. reflexivity.
Defined.

(** *** C8 at work: the copy changes, the caller's geometry does not *)

Lemma set_w_leaves_the_geometry_witness :
  (forall (l : loc) o, heap Demo.configured !! l = Some o ->
                       heap (set_w Demo.configured).2 !! l = Some o) /\
  attrs (set_w Demo.configured).2 !! "geo" = attrs Demo.configured !! "geo" /\
  (forall v l g, geometry_at (heap Demo.configured) v = Some (l, g) ->
                 geometry_at (heap (set_w Demo.configured).2) v = Some (l, g)) /\
  (forall v l a, array_at (heap Demo.configured) v = Some (l, a) ->
                 array_at (heap (set_w Demo.configured).2) v = Some (l, a)).
Proof.
  apply (set_w_leaves_the_geometry Demo.configured (set_w Demo.configured).2
           (set_w Demo.configured).1).
  vm_compute. reflexivity.
Defined.

(** The size of the volume is 4 in the caller's geometry and 536 (the
    distance from the origin to the detector) in the copy [set_w] works
    on. *)
Example set_w_writes_to_the_copy :
  (set_w Demo.configured).1 = inr () /\
  (adata <$> (snd <$> array_at (heap (set_w Demo.configured).2) (VRef 1%nat)))
  = Some ((fun z => R (of_Z binary64 z)) <$> [4; 4; 4]) /\
  (adata <$> (snd <$> array_at (heap (set_w Demo.configured).2) (VRef 10%nat)))
  = Some ((fun z => R (of_Z binary64 z)) <$> [536; 536; 536]).
Proof. vm_compute. split_and!; reflexivity. Qed.

(** *** C3 at work *)

Lemma set_v_cone_beam_shape_witness :
  exists nx ny V,
    ramp_length 1 Demo.configured = Some nx /\
    ramp_length 2 Demo.configured = Some ny /\
    array_attr (set_v Demo.configured).2 "V" = Some V /\
    ashape V = [nx; ny; 2%nat].
Proof.
  apply (set_v_cone_beam_shape Demo.configured (set_v Demo.configured).2
           (mkarray (float binary32) [2; 3]%nat
              (R <$> [S754_zero false; S754_zero false; S754_zero false;
                      of_Z binary32 1; S754_zero false; S754_zero false]))
           2 3).
  - exists Demo.geo, 5%nat. eexists. split_and!; vm_compute; reflexivity.
  - vm_compute. reflexivity.
  - reflexivity.
  - vm_compute. reflexivity.
Defined.

(** The claim fails on the instance: two angles and a volume of 4 x 4 x 4
    voxels give a field of shape (4, 4, 2), not (2, 4, 4). *)
Lemma cone_beam_shape_counterexample :
  exists V angles nvoxel,
    Demo.construct Demo.store0 (VInt 3) ∅ = (inr (), Demo.engine (VInt 3) ∅) /\
    cone_beam (Demo.engine (VInt 3) ∅) /\
    array_attr (Demo.engine (VInt 3) ∅) "angles" = Some angles /\
    ashape angles = [2; 3]%nat /\
    array_at (heap (Demo.engine (VInt 3) ∅)) (VRef 0%nat) = Some (0%nat, nvoxel) /\
    adata nvoxel = [I 4; I 4; I 4] /\
    array_attr (Demo.engine (VInt 3) ∅) "V" = Some V /\
    ashape V = [4; 4; 2]%nat /\
    ashape V <> [2; 4; 4]%nat.
Proof.
  do 3 eexists. split_and!.
  - vm_compute. reflexivity.
  - exists Demo.geo, 5%nat. eexists. split_and!; vm_compute; reflexivity.
  - vm_compute. reflexivity.
  - reflexivity.
  - vm_compute. reflexivity.
  - reflexivity.
  - vm_compute. reflexivity.
  - reflexivity.
  - discriminate.
Qed.

(** *** C1 at work *)

Lemma run_main_iter_calls_witness :
  calls (Demo.after_run (VInt 3) Demo.both_logs)
  = calls (Demo.engine (VInt 3) Demo.both_logs)
    ++ concat (round_calls true true "art_data_minimizing" <$> seq 0 3) /\
  method_calls (Demo.after_run (VInt 3) Demo.both_logs)
  = method_calls (Demo.engine (VInt 3) Demo.both_logs)
    ++ replicate 3 (CallMethod "art_data_minimizing").
Proof.
  apply (run_main_iter_calls Demo.proj Demo.geo Demo.angles 3 Demo.both_logs true
           "art_data_minimizing" (fresh Demo.store0)
           (Demo.engine (VInt 3) Demo.both_logs)
           (Demo.after_run (VInt 3) Demo.both_logs)).
  - apply demo_method_frame. by_names.
  - vm_compute. reflexivity.
  - vm_compute. reflexivity.
  - vm_compute. reflexivity.
  - vm_compute. reflexivity.
  - vm_compute. reflexivity.
Defined.

(** The claim fails on the instance.  The engine is built with the
    defaults, so its [regularisation] option names [minimizeTV], a method
    the engine has; a run of two passes calls the data-minimization
    method twice and [minimizeTV] never. *)
Lemma regularisation_is_not_called :
  Demo.construct Demo.store0 (VInt 2) ∅ = (inr (), Demo.engine (VInt 2) ∅) /\
  attrs (Demo.engine (VInt 2) ∅) !! "dataminimizing"
  = Some (VStr "art_data_minimizing") /\
  attrs (Demo.engine (VInt 2) ∅) !! "regularisation" = Some (VStr "minimizeTV") /\
  is_Some (method "minimizeTV") /\
  run_main_iter (Demo.engine (VInt 2) ∅) = (inr (), Demo.after_run (VInt 2) ∅) /\
  calls (Demo.after_run (VInt 2) ∅)
  = calls (Demo.engine (VInt 2) ∅)
    ++ [CallMethod "art_data_minimizing"; CallMethod "art_data_minimizing"] /\
  CallMethod "minimizeTV" ∉ calls (Demo.after_run (VInt 2) ∅).
Proof.
  split_and!.
  - vm_compute. reflexivity.
  - vm_compute. reflexivity.
  - vm_compute. reflexivity.
  - vm_compute. by eexists.
  - vm_compute. reflexivity.
  - vm_compute. reflexivity.
  - by_names.
Qed.

(** *** C5 and C6 at work *)

Lemma quality_log_length_witness :
  exists lq,
    log (Demo.after_run (VInt 3) Demo.both_logs) "lq" = Some lq /\
    Z.of_nat (length lq) =
      (if is_not_none (default VNone (Demo.both_logs !! "Quameasopts"))
       then Z.max 0 (3 - 1) else 0) /\
    forall k : nat,
      Z.of_nat k <= Z.max 0 3 ->
      exists sk, after_passes k (Demo.engine (VInt 3) Demo.both_logs) = Some sk /\
                 log sk "lq" = Some (take (k - 1) lq).
Proof.
  apply (quality_log_length Demo.proj Demo.geo Demo.angles 3 Demo.both_logs
           (fresh Demo.store0) (Demo.engine (VInt 3) Demo.both_logs)).
  - apply demo_method_frame. by_names.
  - vm_compute. reflexivity.
  - vm_compute. reflexivity.
  - vm_compute. reflexivity.
Defined.

Lemma residual_log_length_witness :
  exists l2l,
    log (Demo.after_run (VInt 3) Demo.both_logs) "l2l" = Some l2l /\
    Z.of_nat (length l2l) = Z.max 0 3 /\
    (forall k : nat,
       Z.of_nat k <= Z.max 0 3 ->
       exists sk, after_passes k (Demo.engine (VInt 3) Demo.both_logs) = Some sk /\
                  log sk "l2l" = Some (take k l2l)) /\
    (forall (k : nat) v,
       l2l !! k = Some v ->
       exists sk toc m,
         after_passes k (Demo.engine (VInt 3) Demo.both_logs) = Some sk /\
         at_residual (default VNone (Demo.both_logs !! "Quameasopts")) k toc sk
         = Some m /\
         norm_of_residual m = Some v).
Proof.
  apply (residual_log_length Demo.proj Demo.geo Demo.angles 3 Demo.both_logs true
           (fresh Demo.store0) (Demo.engine (VInt 3) Demo.both_logs)).
  - apply demo_method_frame. by_names.
  - vm_compute. reflexivity.
  - vm_compute. reflexivity.
  - vm_compute. reflexivity.
  - vm_compute. reflexivity.
Defined.

(** *** C2 at work: what the caller supplies *)

Lemma angle_schedule_is_rebuilt_witness :
  CallOrderSubsets ∈ calls (Demo.engine (VInt 3) Demo.supplied).
Proof.
  apply (angle_schedule_is_rebuilt Demo.proj Demo.geo Demo.angles (VInt 3)
           Demo.supplied Demo.store0).
  - vm_compute. reflexivity.
  - vm_compute. reflexivity.
Defined.

(** The caller supplies all four quantities.  The builders of [W], [V]
    and [res] are skipped: the projector is not called and the three
    attributes are the caller's.  The builder of the angle schedule runs
    all the same, and both [angleblocks] and [angle_index] are
    overwritten by what [order_subsets] returns. *)
Lemma supplied_schedule_is_overwritten :
  Demo.construct Demo.store0 (VInt 3) Demo.supplied
  = (inr (), Demo.engine (VInt 3) Demo.supplied) /\
  Demo.supplied !! "angleblocks" = Some (VStr "blocks of the caller") /\
  Demo.supplied !! "angle_index" = Some (VStr "index of the caller") /\
  attrs (Demo.engine (VInt 3) Demo.supplied) !! "W" = Demo.supplied !! "W" /\
  attrs (Demo.engine (VInt 3) Demo.supplied) !! "V" = Demo.supplied !! "V" /\
  attrs (Demo.engine (VInt 3) Demo.supplied) !! "res" = Demo.supplied !! "res" /\
  calls (Demo.engine (VInt 3) Demo.supplied) = [CallOrderSubsets] /\
  attrs (Demo.engine (VInt 3) Demo.supplied) !! "angleblocks"
  = Some (VList [VRef 9%nat]) /\
  attrs (Demo.engine (VInt 3) Demo.supplied) !! "angle_index"
  = Some (VList [VRef 10%nat]).
Proof. split_and!; vm_compute; reflexivity. Qed.

(** *** C4 at work: the check of the shape of [init] *)

(** The defect behind C4: [set_res] compares the shape of [init] with
    the numbers of voxels by broadcasting, not as tuples.  The volume
    has 4 x 4 x 4 voxels.  A vector of four entries passed as [init] has
    another shape, (4,), and is adopted as the volume estimate all the
    same: (4,) is broadcast against the three numbers of voxels, and each
    of them is 4.  No error is raised, and the engine built holds a
    volume estimate of one axis. *)
Lemma vector_is_adopted_as_volume :
  (Demo.with_init Demo.vector4).1 = inr () /\
  array_attr (Demo.with_init Demo.vector4).2 "init" = Some Demo.vector4 /\
  ashape Demo.vector4 = [4%nat] /\
  ((geo_attr "nVoxel" nVoxel Demo.geo ≫= vector) (Demo.with_init Demo.vector4).2).1
  = inr (0%nat, of_ints [4; 4; 4]) /\
  attrs (Demo.with_init Demo.vector4).2 !! "res"
  = attrs (Demo.with_init Demo.vector4).2 !! "init" /\
  array_attr (Demo.with_init Demo.vector4).2 "res" = Some Demo.vector4.
Proof. split_and!; vm_compute; reflexivity. Qed.

(** An image of 4 x 4 entries passed as [init] is rejected, but not with
    the [ValueError] of [set_res]: the comparison of the shapes cannot be
    broadcast, gives [False], and [False.all()] raises an
    [AttributeError]. *)
Lemma image_is_rejected_with_another_error :
  (Demo.with_init Demo.image4x4).1 = inl (AttributeError "all").
Proof. vm_compute. reflexivity. Qed.

(** An array of three axes passed as [init] is adopted when its shape is
    that of the volume and rejected with the [ValueError] when it is
    not. *)
Lemma volume_of_three_axes_is_checked :
  (Demo.with_init (ones [4; 4; 4]%nat binary32)).1 = inr () /\
  attrs (Demo.with_init (ones [4; 4; 4]%nat binary32)).2 !! "res"
  = attrs (Demo.with_init (ones [4; 4; 4]%nat binary32)).2 !! "init" /\
  (Demo.with_init (ones [4; 4; 5]%nat binary32)).1
  = inl (ValueError "wrong dimension of array for initialisation").
Proof. split_and!; vm_compute; reflexivity. Qed.

(** *** C7 at work *)




(** The same happens when the voxel sizes are the integers 1, 1, 1: in
    Python 2 the quotient [dVoxel / 4] of an integer array is the floor
    of the quotient, which is 0. *)
Example integer_voxels_give_infinite_weights :
  positive_voxels Demo.whole_configured /\
  threshold Demo.whole_configured = Some (SI 0) /\
  (set_w Demo.whole_configured).1 = inr () /\
  (adata <$> array_attr (set_w Demo.whole_configured).2 "W")
  = Some (concat (replicate 2
            (R (S754_infinity false)
             :: replicate 3 (R (S754_finite false 16025997 (-33)))))).
Proof.
  split_and!.
  - exists Demo.geo, 5%nat. do 3 eexists.
    split_and!; vm_compute; reflexivity.
  - vm_compute. reflexivity.
  - vm_compute. reflexivity.
  - vm_compute. reflexivity.
Qed.

(** ** The constructor and the run on the small instance *)

(** *** What the caller supplies is kept *)

Lemma supplied_quantity_is_kept_witness :
  attrs (Demo.engine (VInt 3) Demo.supplied) !! "W" = Some Demo.proj.
Proof.
  apply (supplied_quantity_is_kept Demo.proj Demo.geo Demo.angles (VInt 3)
           Demo.supplied "W" Demo.proj (fresh Demo.store0)).
  - by_names.
  - vm_compute. reflexivity.
  - vm_compute. reflexivity.
Defined.

(** *** The angles *)

(** The two angles 0 and 1 of the instance become the rows (0, 0, 0) and
    (1, 0, 0) of a new array at 8. *)
Lemma angles_vector_becomes_triples_witness :
  normalise_angles Demo.optioned
  = (inr (),
     mkstate (<["angles" := VRef (length (heap Demo.optioned))]> (attrs Demo.optioned))
       (heap Demo.optioned
        ++ [OArray (mkarray (float binary32) [2; 3]%nat
                      (concat ((fun x => [R (to_float binary32 x);
                                          R (S754_zero false); R (S754_zero false)])
                               <$> adata (Demo.floats binary32 [0; 1]))))])
       (stdout Demo.optioned) (calls Demo.optioned) (clock_reads Demo.optioned)).
Proof.
  apply (angles_vector_becomes_triples Demo.optioned 7%nat
           (Demo.floats binary32 [0; 1]) 2).
  - vm_compute. reflexivity.
  - vm_compute. reflexivity.
  - reflexivity.
  - reflexivity.
Defined.

(** A number passed for the angles. *)
Lemma angles_must_be_an_array_witness :
  exists s1,
    __init__ Demo.proj Demo.geo (VInt 5) (VInt 3) ∅ (fresh Demo.store0)
    = (inl (AttributeError "ndim"), s1) /\
    calls s1 = calls (fresh Demo.store0) /\
    heap s1 = heap (fresh Demo.store0) /\
    forall k, k ∈ ["W"; "V"; "res"; "angleblocks"; "angle_index"; "lq"; "l2l"] ->
              attrs (fresh Demo.store0) !! k = None ->
              attrs s1 !! k = (∅ : gmap string value) !! k.
Proof.
  apply (angles_must_be_an_array Demo.proj Demo.geo (VInt 5) (VInt 3) ∅ true
           (fresh Demo.store0)).
  - vm_compute. reflexivity.
  - vm_compute. reflexivity.
  - vm_compute. reflexivity.
  - reflexivity.
Defined.

(** *** The falloff field in parallel mode *)

Lemma set_v_parallel_is_ones_witness :
  set_v Demo.parallel_configured
  = (inr (),
     mkstate
       (<["V" := VRef (length (heap Demo.parallel_configured))]>
          (attrs Demo.parallel_configured))
       (heap Demo.parallel_configured
        ++ [OArray (ones [2%nat; Z.to_nat 4; Z.to_nat 4] binary32)])
       (stdout Demo.parallel_configured) (calls Demo.parallel_configured)
       (clock_reads Demo.parallel_configured)).
Proof.
  eapply (set_v_parallel_is_ones Demo.parallel_configured Demo.geo 5%nat 8%nat 0%nat
            _ _ (of_ints [4; 4; 4]) 2 [3%nat] 4 4).
  - vm_compute. reflexivity.
  - vm_compute. reflexivity.
  - vm_compute. reflexivity.
  - vm_compute. reflexivity.
  - vm_compute. reflexivity.
  - vm_compute. reflexivity.
  - vm_compute. reflexivity.
  - reflexivity.
  - reflexivity.
  - reflexivity.
  - lia.
  - lia.
Defined.

(** *** The volume estimate *)

Lemma set_res_starts_from_zeros_witness :
  set_res Demo.configured
  = (inr (),
     mkstate (<["res" := VRef (length (heap Demo.configured))]> (attrs Demo.configured))
       (heap Demo.configured ++ [OArray (zeros [4; 4; 4]%nat binary32)])
       (stdout Demo.configured) (calls Demo.configured)
       (clock_reads Demo.configured)).
Proof.
  eapply (set_res_starts_from_zeros Demo.configured Demo.geo VNone (VBool true)
            5%nat 0%nat _ (of_ints [4; 4; 4]) [4; 4; 4]%nat).
  - vm_compute. reflexivity.
  - vm_compute. reflexivity.
  - vm_compute. reflexivity.
  - vm_compute. reflexivity.
  - vm_compute. reflexivity.
  - vm_compute. reflexivity.
  - reflexivity.
  - reflexivity.
  - discriminate.
Defined.

Lemma set_res_from_fdk_witness :
  set_res Demo.fdk_configured
  = (inr (),
     mkstate
       (<["res" := VRef (S (length (heap Demo.fdk_configured)))]>
          (attrs Demo.fdk_configured))
       ((heap Demo.fdk_configured ++ [OArray (zeros [4; 4; 4]%nat binary32)])
        ++ [OArray (ones [4; 4; 4]%nat binary32)])
       (stdout Demo.fdk_configured) (calls Demo.fdk_configured ++ [CallFDK])
       (clock_reads Demo.fdk_configured)).
Proof.
  eapply (set_res_from_fdk Demo.fdk_configured Demo.geo (VBool true) Demo.proj
            (VRef 8%nat) 5%nat 0%nat _ (of_ints [4; 4; 4])
            (ones [4; 4; 4]%nat binary32) [4; 4; 4]%nat).
  - vm_compute. reflexivity.
  - vm_compute. reflexivity.
  - vm_compute. reflexivity.
  - vm_compute. reflexivity.
  - vm_compute. reflexivity.
  - vm_compute. reflexivity.
  - vm_compute. reflexivity.
  - vm_compute. reflexivity.
  - vm_compute. reflexivity.
Defined.

Lemma set_res_from_multigrid_witness :
  set_res Demo.multigrid_configured
  = (inr (),
     mkstate
       (<["res" := VRef (S (length (heap Demo.multigrid_configured)))]>
          (attrs Demo.multigrid_configured))
       ((heap Demo.multigrid_configured ++ [OArray (zeros [4; 4; 4]%nat binary32)])
        ++ [OArray (ones [4; 4; 4]%nat binary32)])
       (stdout Demo.multigrid_configured
        ++ ["init multigrid in progress...";
            "default blocksize=1 for init_multigrid(OS_SART)";
            "init multigrid complete."])
       (calls Demo.multigrid_configured ++ [CallMultigrid])
       (clock_reads Demo.multigrid_configured)).
Proof.
  eapply (set_res_from_multigrid Demo.multigrid_configured Demo.geo Demo.proj
            (VRef 8%nat) true 5%nat 0%nat _ (of_ints [4; 4; 4])
            (ones [4; 4; 4]%nat binary32) [4; 4; 4]%nat).
  - vm_compute. reflexivity.
  - vm_compute. reflexivity.
  - vm_compute. reflexivity.
  - vm_compute. reflexivity.
  - vm_compute. reflexivity.
  - vm_compute. reflexivity.
  - vm_compute. reflexivity.
  - vm_compute. reflexivity.
  - vm_compute. reflexivity.
Defined.

(** An array of 4 x 4 x 5 entries for a volume of 4 x 4 x 4 voxels. *)
Lemma set_res_checks_a_volume_witness :
  set_res (Demo.init_configured (ones [4; 4; 5]%nat binary32))
  = (inl (ValueError "wrong dimension of array for initialisation"),
     mkstate
       (<["res" := VRef (length (heap (Demo.init_configured
                                         (ones [4; 4; 5]%nat binary32))))]>
          (attrs (Demo.init_configured (ones [4; 4; 5]%nat binary32))))
       (heap (Demo.init_configured (ones [4; 4; 5]%nat binary32))
        ++ [OArray (zeros [4; 4; 4]%nat binary32)])
       (stdout (Demo.init_configured (ones [4; 4; 5]%nat binary32)))
       (calls (Demo.init_configured (ones [4; 4; 5]%nat binary32)))
       (clock_reads (Demo.init_configured (ones [4; 4; 5]%nat binary32)))).
Proof.
  eapply (set_res_checks_a_volume (Demo.init_configured (ones [4; 4; 5]%nat binary32))
            Demo.geo (VBool true) 5%nat 0%nat 8%nat _ (of_ints [4; 4; 4])
            (ones [4; 4; 5]%nat binary32) [4; 4; 4]%nat 4 4 4 4 4 5).
  - vm_compute. reflexivity.
  - vm_compute. reflexivity.
  - vm_compute. reflexivity.
  - reflexivity.
  - reflexivity.
  - vm_compute. reflexivity.
  - vm_compute. reflexivity.
  - vm_compute. reflexivity.
  - reflexivity.
  - vm_compute. reflexivity.
Defined.

(** *** Construction *)

Lemma construction_calls_no_method_witness :
  method_calls (Demo.engine (VInt 3) ∅) = method_calls (fresh Demo.store0).
Proof.
  apply (construction_calls_no_method Demo.proj Demo.geo Demo.angles (VInt 3) ∅
           (fresh Demo.store0) (inr ())).
  vm_compute. reflexivity.
Defined.

Lemma constructed_engine_is_complete_witness :
  Forall (fun k => is_Some (attrs (Demo.engine (VInt 3) ∅) !! k))
    ["proj"; "angles"; "geo"; "niter"; "W"; "V"; "res"; "angleblocks"] /\
  (attrs (Demo.engine (VInt 3) ∅) !! "angleindex" = None ->
   is_Some (attrs (Demo.engine (VInt 3) ∅) !! "angle_index")) /\
  attrs (Demo.engine (VInt 3) ∅) !! "lq" = Some (VList []) /\
  attrs (Demo.engine (VInt 3) ∅) !! "l2l" = Some (VList []) /\
  forall k d, options !! k = Some d ->
              attrs (Demo.engine (VInt 3) ∅) !! k
              = Some (default d ((∅ : gmap string value) !! k)).
Proof.
  apply (constructed_engine_is_complete Demo.proj Demo.geo Demo.angles (VInt 3) ∅
           (fresh Demo.store0)).
  vm_compute. reflexivity.
Defined.

(** The projections of the caller, at 6 in the store, after the
    construction. *)
Lemma construction_leaves_the_store_witness :
  heap (Demo.engine (VInt 3) ∅) !! 6%nat
  = Some (OArray (zeros [2; 2; 2]%nat binary32)).
Proof.
  apply (construction_leaves_the_store Demo.proj Demo.geo Demo.angles (VInt 3) ∅
           (fresh Demo.store0) (inr ()) (Demo.engine (VInt 3) ∅)).
  - vm_compute. reflexivity.
  - vm_compute. reflexivity.
Defined.

Lemma set_w_projects_a_unit_volume_witness :
  calls (set_w Demo.configured).2 = calls Demo.configured ++ [CallAx "ray-voxel"] /\
  exists dgeox dangles w,
    Ax (DArray (ones [2; 2; 2]%nat binary32)) dgeox dangles "ray-voxel" = inr w.
Proof.
  apply (set_w_projects_a_unit_volume Demo.configured (set_w Demo.configured).2).
  vm_compute. reflexivity.
Defined.

(** The schedule of the instance. *)
Lemma angle_schedule_is_set_whole_witness :
  exists blocks index,
    attrs (set_angle_index Demo.configured).2
    = <["angle_index" := index]> (<["angleblocks" := blocks]> (attrs Demo.configured)) /\
    calls (set_angle_index Demo.configured).2
    = calls Demo.configured ++ [CallOrderSubsets].
Proof.
  apply (angle_schedule_is_set_whole Demo.configured
           (set_angle_index Demo.configured).2 (inr ())).
  vm_compute. reflexivity.
Defined.

(** *** The run *)

(** An iteration count of three and a half. *)
Lemma run_rejects_a_count_that_is_no_integer_witness :
  run_main_iter
    (Demo.engine (VFloat binary64 (S754_finite false 7 (-1))) ∅)
  = (inl (TypeError "range() integer end argument expected"),
     Demo.engine (VFloat binary64 (S754_finite false 7 (-1))) ∅).
Proof.
  apply (run_rejects_a_count_that_is_no_integer Demo.proj Demo.geo Demo.angles
           (VFloat binary64 (S754_finite false 7 (-1))) ∅ (fresh Demo.store0)).
  - vm_compute. reflexivity.
  - exact Logic.I.
  - vm_compute. reflexivity.
Defined.

(** The class of the instance has no method [sart]. *)
Lemma run_raises_for_an_unknown_method_witness :
  run_main_iter (Demo.engine (VInt 3) Demo.unknown_method)
  = (inl (AttributeError "sart"),
     mkstate (attrs (Demo.engine (VInt 3) Demo.unknown_method))
       (heap (Demo.engine (VInt 3) Demo.unknown_method))
       (stdout (Demo.engine (VInt 3) Demo.unknown_method) ++ ["Algorithm in progress."])
       (calls (Demo.engine (VInt 3) Demo.unknown_method))
       (clock_reads (Demo.engine (VInt 3) Demo.unknown_method) + 1)%nat).
Proof.
  apply (run_raises_for_an_unknown_method Demo.proj Demo.geo Demo.angles 3
           Demo.unknown_method true "sart" (fresh Demo.store0)).
  - vm_compute. reflexivity.
  - lia.
  - vm_compute. reflexivity.
  - vm_compute. reflexivity.
  - vm_compute. reflexivity.
  - vm_compute. reflexivity.
  - vm_compute. reflexivity.
  - vm_compute. reflexivity.
Defined.

(** Three passes with both logs: the volume estimate is returned with a
    residual log of three entries. *)
Lemma iterativereconalg_returns_witness :
  attrs (Demo.run Demo.store0 (VInt 3) Demo.both_logs).2 !! "res"
  = Some (VRef 28%nat) /\
  exists l2l,
    Some (VList (replicate 3 (VFloat binary64
                                (S754_finite false 4503599627370496 (-49)))))
    = Some (VList l2l) /\
    log (Demo.run Demo.store0 (VInt 3) Demo.both_logs).2 "l2l" = Some l2l /\
    Z.of_nat (length l2l) = Z.max 0 3.
Proof.
  apply (iterativereconalg_returns Demo.proj Demo.geo Demo.angles 3 Demo.both_logs
           true (fresh Demo.store0) (VRef 28%nat)
           (Some (VList (replicate 3 (VFloat binary64
                                        (S754_finite false 4503599627370496 (-49))))))
           (Demo.run Demo.store0 (VInt 3) Demo.both_logs).2).
  - apply demo_method_frame. by_names.
  - vm_compute. reflexivity.
  - vm_compute. reflexivity.
  - vm_compute. reflexivity.
Defined.

(** Three passes of a verbose engine: two lines and two readings of the
    clock. *)
Lemma run_prints_its_progress_witness :
  stdout (Demo.after_run (VInt 3) ∅)
  = stdout (Demo.engine (VInt 3) ∅) ++ progress 3 (clock_reads (Demo.engine (VInt 3) ∅)) /\
  clock_reads (Demo.after_run (VInt 3) ∅)
  = (clock_reads (Demo.engine (VInt 3) ∅) + Z.to_nat (Z.min 2 (Z.max 0 3)))%nat.
Proof.
  apply (run_prints_its_progress Demo.proj Demo.geo Demo.angles 3 ∅ true
           (fresh Demo.store0) (Demo.engine (VInt 3) ∅) (Demo.after_run (VInt 3) ∅)).
  - apply demo_method_frame. by_names.
  - vm_compute. reflexivity.
  - vm_compute. reflexivity.
  - vm_compute. reflexivity.
  - vm_compute. reflexivity.
Defined.

(** *** NumPy scalars *)

(** An iteration count [np.float32(3.0)] is converted by [range]: the run
    makes three passes. *)
Example numpy_scalar_count_is_converted :
  (run_main_iter (Demo.engine (VFloat binary32 (of_Z binary32 3)) ∅)).1 = inr () /\
  method_calls (Demo.after_run (VFloat binary32 (of_Z binary32 3)) ∅)
  = replicate 3 (CallMethod "art_data_minimizing").
Proof. split; vm_compute; reflexivity. Qed.

(** Angles passed as [np.float32(1.0)] have the attribute [ndim], which is
    0: line 103 does not raise and leaves them as they are. *)
Example numpy_scalar_angles_pass_line_103 :
  ((init_options Demo.proj Demo.geo (VFloat binary32 (of_Z binary32 1)) (VInt 3) ∅;;
    normalise_angles) (fresh Demo.store0)).1 = inr () /\
  attrs ((init_options Demo.proj Demo.geo (VFloat binary32 (of_Z binary32 1)) (VInt 3) ∅;;
          normalise_angles) (fresh Demo.store0)).2 !! "angles"
  = Some (VFloat binary32 (of_Z binary32 1)).
Proof. split; vm_compute; reflexivity. Qed.
